(** * Task management: lifecycle state machine and runtime invariant engine

    A shallow embedding of the Go packages [domain], [memory]
    (infrastructure), [invariants] and [usecase] of the task-management
    service, followed by the properties of the operation layer.

    Conventions of the embedding.
    - Go [int] identifiers are [Z]; Go string-typed enumerations
      ([TaskStatus], [Priority], [Tag], [UserID]) stay strings, so that a
      caller can pass a value outside the named constants, as in Go.
    - [map[K]V] is [gmap K V]; [map[K]bool] used as a set is [gset K].
      Go iterates maps in an unspecified order; the embedding iterates in
      the order of [map_to_list] / [elements], and no proof below depends
      on that order.
    - [time.Time] is a number of nanoseconds ([Z]).  An operation reads the
      clock through its [now] argument.
    - A Go [error] built by [fmt.Errorf] is kept as its format string, with
      the wrapped cause when the format ends in [%w].
    - The repository lives in one mutable object guarded by a lock; every
      method is a state transformer on [MemoryRepository], and the
      operations of the use case run in the state-and-error monad [M].  A
      failed operation returns the store as it is at the point of failure. *)

From Stdlib Require Import ZArith String List.
From stdpp Require Import base gmap sets list strings.

Local Open Scope Z_scope.

(** ** Errors and results *)

Inductive error : Type :=
| Errorf (format : string)
| Wrapf (format : string) (cause : error).

Inductive result (A : Type) : Type :=
| Ok (a : A)
| Fail (e : error).
Arguments Ok {A} a.
Arguments Fail {A} e.

Definition is_ok {A} (r : result A) : bool :=
  match r with Ok _ => true | Fail _ => false end.

(** ** Package domain *)

Module domain.

Abbreviation TaskID := Z (only parsing).
Abbreviation UserID := string (only parsing).
Abbreviation TaskStatus := string (only parsing).
Abbreviation Priority := string (only parsing).
Abbreviation Tag := string (only parsing).
Abbreviation Time := Z (only parsing).

Definition StatusPending : TaskStatus := "pending".
Definition StatusInProgress : TaskStatus := "in_progress".
Definition StatusCompleted : TaskStatus := "completed".
Definition StatusCancelled : TaskStatus := "cancelled".
Definition StatusBlocked : TaskStatus := "blocked".

Definition PriorityLow : Priority := "low".
Definition PriorityMedium : Priority := "medium".
Definition PriorityHigh : Priority := "high".
Definition PriorityCritical : Priority := "critical".

Definition TagBug : Tag := "bug".
Definition TagFeature : Tag := "feature".
Definition TagEnhancement : Tag := "enhancement".
Definition TagDocumentation : Tag := "documentation".

Record Task : Type := mkTask {
  ID : TaskID;
  Title : string;
  Description : string;
  Status : TaskStatus;
  Priority_ : Priority;
  Assignee : UserID;
  CreatedBy : UserID;
  CreatedAt : Time;
  UpdatedAt : Time;
  DueDate : option Time;
  Tags : list Tag;
  Dependencies : gset TaskID
}.

(** Field assignments [task.F = v] on a copy of the record. *)
Definition set_ID (t : Task) (v : TaskID) : Task :=
  mkTask v (Title t) (Description t) (Status t) (Priority_ t) (Assignee t)
         (CreatedBy t) (CreatedAt t) (UpdatedAt t) (DueDate t) (Tags t)
         (Dependencies t).
Definition set_Title (t : Task) (v : string) : Task :=
  mkTask (ID t) v (Description t) (Status t) (Priority_ t) (Assignee t)
         (CreatedBy t) (CreatedAt t) (UpdatedAt t) (DueDate t) (Tags t)
         (Dependencies t).
Definition set_Description (t : Task) (v : string) : Task :=
  mkTask (ID t) (Title t) v (Status t) (Priority_ t) (Assignee t)
         (CreatedBy t) (CreatedAt t) (UpdatedAt t) (DueDate t) (Tags t)
         (Dependencies t).
Definition set_Status (t : Task) (v : TaskStatus) : Task :=
  mkTask (ID t) (Title t) (Description t) v (Priority_ t) (Assignee t)
         (CreatedBy t) (CreatedAt t) (UpdatedAt t) (DueDate t) (Tags t)
         (Dependencies t).
Definition set_Priority (t : Task) (v : Priority) : Task :=
  mkTask (ID t) (Title t) (Description t) (Status t) v (Assignee t)
         (CreatedBy t) (CreatedAt t) (UpdatedAt t) (DueDate t) (Tags t)
         (Dependencies t).
Definition set_Assignee (t : Task) (v : UserID) : Task :=
  mkTask (ID t) (Title t) (Description t) (Status t) (Priority_ t) v
         (CreatedBy t) (CreatedAt t) (UpdatedAt t) (DueDate t) (Tags t)
         (Dependencies t).
Definition set_UpdatedAt (t : Task) (v : Time) : Task :=
  mkTask (ID t) (Title t) (Description t) (Status t) (Priority_ t)
         (Assignee t) (CreatedBy t) (CreatedAt t) v (DueDate t) (Tags t)
         (Dependencies t).
Definition set_DueDate (t : Task) (v : option Time) : Task :=
  mkTask (ID t) (Title t) (Description t) (Status t) (Priority_ t)
         (Assignee t) (CreatedBy t) (CreatedAt t) (UpdatedAt t) v (Tags t)
         (Dependencies t).

(** [ValidTransitions]: the map literal of allowed state transitions. *)
Definition ValidTransitions : gmap (TaskStatus * TaskStatus) bool :=
  list_to_map
    [ ((StatusPending, StatusInProgress), true);
      ((StatusPending, StatusCancelled), true);
      ((StatusPending, StatusBlocked), true);
      ((StatusInProgress, StatusCompleted), true);
      ((StatusInProgress, StatusCancelled), true);
      ((StatusInProgress, StatusBlocked), true);
      ((StatusInProgress, StatusPending), true);
      ((StatusBlocked, StatusPending), true);
      ((StatusBlocked, StatusInProgress), true);
      ((StatusBlocked, StatusCancelled), true) ].

(** A missing key reads as the zero value [false]. *)
Definition IsValidTransition (from to : TaskStatus) : bool :=
  default false (ValidTransitions !! (from, to)).

Definition CanDelete (t : Task) : bool :=
  bool_decide (Status t = StatusCompleted)
  || bool_decide (Status t = StatusCancelled).

(** The loop shared by [IsBlocked] and [ShouldUnblock]: it stops at the
    first dependency that exists in [allTasks] and is not completed. *)
Definition incompleteDep (allTasks : gmap TaskID Task) (depID : TaskID) : bool :=
  match allTasks !! depID with
  | Some dep => negb (bool_decide (Status dep = StatusCompleted))
  | None => false
  end.

Definition IsBlocked (t : Task) (allTasks : gmap TaskID Task) : bool :=
  if bool_decide (size (Dependencies t) = 0%nat) then false
  else existsb (incompleteDep allTasks) (elements (Dependencies t)).

Definition ShouldUnblock (t : Task) (allTasks : gmap TaskID Task) : bool :=
  if negb (bool_decide (Status t = StatusBlocked)) then false
  else negb (existsb (incompleteDep allTasks) (elements (Dependencies t))).

Definition isValidStatus (status : TaskStatus) : bool :=
  bool_decide (status = StatusPending)
  || bool_decide (status = StatusInProgress)
  || bool_decide (status = StatusCompleted)
  || bool_decide (status = StatusCancelled)
  || bool_decide (status = StatusBlocked).

Definition isValidPriority (priority : Priority) : bool :=
  bool_decide (priority = PriorityLow)
  || bool_decide (priority = PriorityMedium)
  || bool_decide (priority = PriorityHigh)
  || bool_decide (priority = PriorityCritical).

Definition isValidTag (tag : Tag) : bool :=
  bool_decide (tag = TagBug)
  || bool_decide (tag = TagFeature)
  || bool_decide (tag = TagEnhancement)
  || bool_decide (tag = TagDocumentation).

(** [Validate]: [None] is Go's [nil]. *)
Definition Validate (t : Task) : option error :=
  if bool_decide (Title t = "") then
    Some (Errorf "task title cannot be empty")
  else if bool_decide (Description t = "") then
    Some (Errorf "task description cannot be empty")
  else if negb (isValidStatus (Status t)) then
    Some (Errorf "invalid task status: %s")
  else if negb (isValidPriority (Priority_ t)) then
    Some (Errorf "invalid task priority: %s")
  else if bool_decide (Assignee t = "") then
    Some (Errorf "task must have an assignee")
  else if bool_decide (CreatedBy t = "") then
    Some (Errorf "task must have a creator")
  else if bool_decide (UpdatedAt t < CreatedAt t) then
    Some (Errorf "created time cannot be after updated time")
  else if negb (forallb isValidTag (Tags t)) then
    Some (Errorf "invalid tag: %s")
  else None.

Record User : Type := mkUser {
  uID : UserID;
  Name : string;
  Email : string;
  JoinedAt : Time
}.

Record Session : Type := mkSession {
  sUserID : UserID;
  Token : string;
  Active : bool;
  sCreatedAt : Time;
  ExpiresAt : Time
}.

Definition set_Active (s : Session) (v : bool) : Session :=
  mkSession (sUserID s) (Token s) v (sCreatedAt s) (ExpiresAt s).

(** [time.Now().After(s.ExpiresAt)] *)
Definition IsExpired (s : Session) (now : Time) : bool :=
  bool_decide (ExpiresAt s < now).

Definition IsValid (s : Session) (now : Time) : bool :=
  Active s && negb (IsExpired s now).

(** [SystemState]: the snapshot handed to the invariant checker. *)
Record SystemState : Type := mkSystemState {
  Tasks : gmap TaskID Task;
  UserTasks : gmap UserID (list TaskID);
  NextTaskID : TaskID;
  CurrentUser : option UserID;
  Clock : Time;
  Sessions : gmap UserID Session
}.

Definition GetUserTasks (s : SystemState) (userID : UserID) : list TaskID :=
  match UserTasks s !! userID with
  | Some tasks => tasks
  | None => []
  end.

Definition TaskExists (s : SystemState) (taskID : TaskID) : bool :=
  bool_decide (is_Some (Tasks s !! taskID)).

Definition MaxTasks : Z := 1000.

(** [time.Hour], in nanoseconds. *)
Definition Hour : Z := 3600000000000.

End domain.

(** ** Package memory: the in-memory repository *)

Module memory.
Import domain.

Record MemoryRepository : Type := mkRepo {
  tasks : gmap TaskID Task;
  users : gmap UserID User;
  sessions : gmap string Session;
  userTasks : gmap UserID (gset TaskID);
  nextTaskID : TaskID;
  currentUser : option UserID;
  clock : Time
}.

Definition set_tasks (r : MemoryRepository) (v : gmap TaskID Task) :=
  mkRepo v (users r) (sessions r) (userTasks r) (nextTaskID r)
         (currentUser r) (clock r).
Definition set_users (r : MemoryRepository) (v : gmap UserID User) :=
  mkRepo (tasks r) v (sessions r) (userTasks r) (nextTaskID r)
         (currentUser r) (clock r).
Definition set_sessions (r : MemoryRepository) (v : gmap string Session) :=
  mkRepo (tasks r) (users r) v (userTasks r) (nextTaskID r)
         (currentUser r) (clock r).
Definition set_userTasks (r : MemoryRepository) (v : gmap UserID (gset TaskID)) :=
  mkRepo (tasks r) (users r) (sessions r) v (nextTaskID r)
         (currentUser r) (clock r).
Definition set_nextTaskID (r : MemoryRepository) (v : TaskID) :=
  mkRepo (tasks r) (users r) (sessions r) (userTasks r) v
         (currentUser r) (clock r).
Definition set_currentUser (r : MemoryRepository) (v : option UserID) :=
  mkRepo (tasks r) (users r) (sessions r) (userTasks r) (nextTaskID r)
         v (clock r).

(** [NewMemoryRepository], created at time [now]. *)
Definition NewMemoryRepository (now : Time) : MemoryRepository :=
  mkRepo ∅ ∅ ∅ ∅ 1 None now.

(** The state-and-error monad of repository methods and use cases. *)
Definition M (A : Type) : Type :=
  MemoryRepository → result A * MemoryRepository.

Definition ret {A} (a : A) : M A := λ r, (Ok a, r).
Definition fail {A} (e : error) : M A := λ r, (Fail e, r).
Definition bind {A B} (m : M A) (k : A → M B) : M B :=
  λ r, match m r with
       | (Ok a, r') => k a r'
       | (Fail e, r') => (Fail e, r')
       end.

(** [fmt.Errorf(format + ": %w", err)] around a failing call. *)
Definition wrap {A} (format : string) (m : M A) : M A :=
  λ r, match m r with
       | (Ok a, r') => (Ok a, r')
       | (Fail e, r') => (Fail (Wrapf format e), r')
       end.

(** [if cond { return err }] *)
Definition failIf (cond : bool) (e : error) : M unit :=
  if cond then fail e else ret tt.

(** [if err := check; err != nil { return wrapped err }] for a pure check. *)
Definition failOn (check : option error) (wrapped : error → error) : M unit :=
  match check with
  | Some err => fail (wrapped err)
  | None => ret tt
  end.

(** [x, _ := call]: the error of the call is dropped, [x] is [nil] then. *)
Definition attempt {A} (m : M A) : M (option A) :=
  λ r, match m r with
       | (Ok a, r') => (Ok (Some a), r')
       | (Fail _, r') => (Ok None, r')
       end.

Declare Scope repo_scope.
Delimit Scope repo_scope with repo.
Notation "x <- m ;; k" := (bind m (λ x, k))
  (at level 100, m at next level, right associativity) : repo_scope.
Local Open Scope repo_scope.

(** *** Task repository *)

Definition CreateTask (task : Task) : M Task := λ r,
  let '(task, r) :=
    if bool_decide (ID task = 0)
    then (set_ID task (nextTaskID r), set_nextTaskID r (nextTaskID r + 1))
    else (task, r) in
  match tasks r !! ID task with
  | Some _ => (Fail (Errorf "task with ID %d already exists"), r)
  | None =>
      let r := set_tasks r (<[ID task := task]> (tasks r)) in
      let index := default ∅ (userTasks r !! Assignee task) in
      (Ok task,
       set_userTasks r (<[Assignee task := {[ID task]} ∪ index]> (userTasks r)))
  end.

Definition GetTask (id : TaskID) : M Task := λ r,
  match tasks r !! id with
  | None => (Fail (Errorf "task with ID %d not found"), r)
  | Some task => (Ok task, r)
  end.

Definition UpdateTask (task : Task) : M unit := λ r,
  match tasks r !! ID task with
  | None => (Fail (Errorf "task with ID %d not found"), r)
  | Some existing =>
      let index :=
        if bool_decide (Assignee existing ≠ Assignee task) then
          let removed :=
            match userTasks r !! Assignee existing with
            | Some ids => <[Assignee existing := ids ∖ {[ID task]}]> (userTasks r)
            | None => userTasks r
            end in
          <[Assignee task := {[ID task]} ∪ default ∅ (removed !! Assignee task)]>
            removed
        else userTasks r in
      (Ok tt, set_tasks (set_userTasks r index) (<[ID task := task]> (tasks r)))
  end.

Definition DeleteTask (id : TaskID) : M unit := λ r,
  match tasks r !! id with
  | None => (Fail (Errorf "task with ID %d not found"), r)
  | Some task =>
      let index :=
        match userTasks r !! Assignee task with
        | Some ids => <[Assignee task := ids ∖ {[id]}]> (userTasks r)
        | None => userTasks r
        end in
      (Ok tt, set_tasks (set_userTasks r index) (delete id (tasks r)))
  end.

Definition GetAllTasks : M (gmap TaskID Task) := λ r, (Ok (tasks r), r).

(** The tasks come in the order of Go's iteration over the index of the
    user; [elements] fixes one order. *)
Definition GetTasksByUser (userID : UserID) : M (list Task) := λ r,
  (Ok (match userTasks r !! userID with
       | Some taskIDs => omap (λ taskID, tasks r !! taskID) (elements taskIDs)
       | None => []
       end), r).

Definition GetTasksByStatus (status : TaskStatus) : M (list Task) := λ r,
  (Ok (filter (λ task, Status task = status) (map_to_list (tasks r)).*2), r).

Definition GetTasksByDependency (taskID : TaskID) : M (list Task) := λ r,
  (Ok (filter (λ task, taskID ∈ Dependencies task) (map_to_list (tasks r)).*2),
   r).

(** The stored objects are updated in place; unknown ids are skipped. *)
Definition BulkUpdateStatus (taskIDs : list TaskID) (status : TaskStatus)
    (now : Time) : M unit := λ r,
  (Ok tt,
   set_tasks r
     (foldl (λ ts id, alter (λ task, set_UpdatedAt (set_Status task status) now)
                            id ts)
            (tasks r) taskIDs)).

(** *** User repository *)

Definition CreateUser (user : User) : M unit := λ r,
  match users r !! uID user with
  | Some _ => (Fail (Errorf "user with ID %s already exists"), r)
  | None => (Ok tt, set_users r (<[uID user := user]> (users r)))
  end.

Definition GetUser (id : UserID) : M User := λ r,
  match users r !! id with
  | None => (Fail (Errorf "user with ID %s not found"), r)
  | Some user => (Ok user, r)
  end.

(** *** Session repository *)

Definition CreateSession (session : Session) : M unit := λ r,
  match sessions r !! Token session with
  | Some _ => (Fail (Errorf "session with token already exists"), r)
  | None => (Ok tt, set_sessions r (<[Token session := session]> (sessions r)))
  end.

Definition GetSessionByUser (userID : UserID) (now : Time) : M Session := λ r,
  match filter (λ session, sUserID session = userID ∧ IsValid session now = true)
               (map_to_list (sessions r)).*2 with
  | session :: _ => (Ok session, r)
  | [] => (Fail (Errorf "no active session for user %s"), r)
  end.

Definition UpdateSession (session : Session) : M unit := λ r,
  match sessions r !! Token session with
  | None => (Fail (Errorf "session not found"), r)
  | Some _ => (Ok tt, set_sessions r (<[Token session := session]> (sessions r)))
  end.

(** *** System state repository *)

(** [GetSystemState]: a copy of the store.  A user whose index is empty gets
    no entry in [UserTasks]; only valid sessions are copied, keyed by user. *)
Definition snapshot (now : Time) (r : MemoryRepository) : SystemState :=
  mkSystemState
    (tasks r)
    (omap (λ ids : gset TaskID,
             match elements ids with [] => None | l => Some l end)
          (userTasks r))
    (nextTaskID r)
    (currentUser r)
    (clock r)
    (list_to_map
       ((λ session, (sUserID session, session))
          <$> filter (λ session, IsValid session now = true)
                     (map_to_list (sessions r)).*2)).

Definition GetSystemState (now : Time) : M SystemState := λ r,
  (Ok (snapshot now r), r).

(** [SaveSystemState]: tasks, index and sessions are rebuilt from the
    snapshot, the users are kept.  Sessions are keyed by token again; of two
    sessions of the snapshot with the same token Go keeps the one that its
    map iteration meets last, [list_to_map] the first of [map_to_list]. *)
Definition SaveSystemState (state : SystemState) : M unit := λ r,
  (Ok tt,
   mkRepo (Tasks state) (users r)
          (list_to_map ((λ session, (Token session, session))
                          <$> (map_to_list (Sessions state)).*2))
          (list_to_set <$> UserTasks state)
          (NextTaskID state) (CurrentUser state) (Clock state)).

Definition GetNextTaskID : M TaskID := λ r, (Ok (nextTaskID r), r).

Definition IncrementNextTaskID : M TaskID := λ r,
  (Ok (nextTaskID r), set_nextTaskID r (nextTaskID r + 1)).

Definition GetCurrentUser : M (option UserID) := λ r, (Ok (currentUser r), r).

Definition SetCurrentUser (userID : option UserID) : M unit := λ r,
  (Ok tt, set_currentUser r userID).

Definition GetUserTasks (userID : UserID) : M (list TaskID) := λ r,
  (Ok (match userTasks r !! userID with
       | Some ids => elements ids
       | None => []
       end), r).

Definition AddUserTask (userID : UserID) (taskID : TaskID) : M unit := λ r,
  (Ok tt,
   set_userTasks r
     (<[userID := {[taskID]} ∪ default ∅ (userTasks r !! userID)]> (userTasks r))).

Definition RemoveUserTask (userID : UserID) (taskID : TaskID) : M unit := λ r,
  (Ok tt,
   match userTasks r !! userID with
   | Some ids => set_userTasks r (<[userID := ids ∖ {[taskID]}]> (userTasks r))
   | None => r
   end).

(** *** Unit of work: no-ops for the in-memory implementation *)

Definition Begin : M unit := ret tt.
Definition Commit : M unit := ret tt.
Definition Rollback : M unit := ret tt.

End memory.

(** ** Package invariants: the runtime invariant checker *)

Module invariants.
Import domain.

(** [for taskID, task := range state.Tasks { if err := body; err != nil
    { return err } }]: the first error met, or [None]. *)
Definition forTasks (body : TaskID → Task → option error)
    (ts : gmap TaskID Task) : option error :=
  foldr (λ entry rest,
           match body entry.1 entry.2 with
           | Some err => Some err
           | None => rest
           end)
        None (map_to_list ts).

(** NoOrphanTasks: every task is in some user's task list. *)
Definition checkNoOrphanTasks (state : SystemState) : option error :=
  forTasks
    (λ taskID _,
       if existsb (λ userTasks, existsb (λ id, bool_decide (id = taskID)) userTasks)
                  (map_to_list (UserTasks state)).*2
       then None
       else Some (Errorf "task %d (assigned to %s) is not in any user's task list"))
    (Tasks state).

(** TaskOwnership: every task is in its assignee's task list. *)
Definition checkTaskOwnership (state : SystemState) : option error :=
  forTasks
    (λ taskID task,
       if existsb (λ id, bool_decide (id = taskID))
                  (GetUserTasks state (Assignee task))
       then None
       else Some (Errorf "task %d assigned to %s but not in their task list"))
    (Tasks state).

(** ValidTaskIds *)
Definition checkValidTaskIds (state : SystemState) : option error :=
  forTasks
    (λ taskID _,
       if bool_decide (taskID < 1) then
         Some (Errorf "invalid task ID %d (must be >= 1)")
       else if bool_decide (NextTaskID state ≤ taskID) then
         Some (Errorf "task ID %d >= nextTaskID %d")
       else None)
    (Tasks state).

(** NoDuplicateTaskIds: the loop carries the set [seenIDs]. *)
Fixpoint noDuplicateLoop (entries : list (TaskID * Task)) (seenIDs : gset TaskID)
    : option error :=
  match entries with
  | [] => None
  | (taskID, task) :: rest =>
      if bool_decide (taskID ≠ ID task) then
        Some (Errorf "task map key %d doesn't match task.ID %d")
      else if bool_decide (ID task ∈ seenIDs) then
        Some (Errorf "duplicate task ID %d")
      else noDuplicateLoop rest ({[ID task]} ∪ seenIDs)
  end.

Definition checkNoDuplicateTaskIds (state : SystemState) : option error :=
  noDuplicateLoop (map_to_list (Tasks state)) ∅.

(** ValidStateTransitions: every status is one of the five states. *)
Definition validStates : gmap TaskStatus bool :=
  list_to_map [ (StatusPending, true); (StatusInProgress, true);
                (StatusCompleted, true); (StatusCancelled, true);
                (StatusBlocked, true) ].

Definition checkValidStateTransitions (state : SystemState) : option error :=
  forTasks
    (λ _ task,
       if negb (default false (validStates !! Status task)) then
         Some (Errorf "task %d has invalid status %s")
       else None)
    (Tasks state).

(** ConsistentTimestamps: only [CreatedAt <= UpdatedAt] is checked; the
    comparison with the system clock is commented out in the source. *)
Definition checkConsistentTimestamps (state : SystemState) : option error :=
  forTasks
    (λ _ task,
       if bool_decide (UpdatedAt task < CreatedAt task) then
         Some (Errorf "task %d: createdAt (%v) > updatedAt (%v)")
       else None)
    (Tasks state).

(** The two marking maps of the depth-first search: [visited] and
    [recStack], as the sets of keys mapped to [true]. *)
Definition marks : Type := gset TaskID * gset TaskID.

(** [hasCycle]: recursive in Go.  Every call marks a node that was not
    visited before, so the depth of the recursion is bounded by the number
    of nodes of the graph; [fuel] is that bound, and [None] means it was too
    small (see [hasCycle_total]). *)
Fixpoint hasCycle (fuel : nat) (ts : gmap TaskID Task) (taskID : TaskID)
    (m : marks) : option (bool * marks) :=
  match fuel with
  | O => None
  | S fuel' =>
      let m := ({[taskID]} ∪ m.1, {[taskID]} ∪ m.2) in
      match ts !! taskID with
      | Some task =>
          let loop :=
            fix loop (deps : list TaskID) (m : marks) : option (bool * marks) :=
              match deps with
              | [] => Some (false, m)
              | depID :: rest =>
                  if negb (bool_decide (depID ∈ m.1)) then
                    match hasCycle fuel' ts depID m with
                    | None => None
                    | Some (true, m') => Some (true, m')
                    | Some (false, m') => loop rest m'
                    end
                  else if bool_decide (depID ∈ m.2) then Some (true, m)
                  else loop rest m
              end in
          match loop (elements (Dependencies task)) m with
          | None => None
          | Some (true, m') => Some (true, m')
          | Some (false, m') => Some (false, (m'.1, m'.2 ∖ {[taskID]}))
          end
      | None => Some (false, (m.1, m.2 ∖ {[taskID]}))
      end
  end.

(** The nodes of the dependency graph: task ids and the ids they name. *)
Definition graphNodes (ts : gmap TaskID Task) : gset TaskID :=
  dom ts ∪ ⋃ (Dependencies <$> (map_to_list ts).*2).

Definition checkNoCyclicDependencies (state : SystemState) : option error :=
  forTasks
    (λ taskID _,
       match hasCycle (S (size (graphNodes (Tasks state)))) (Tasks state)
                      taskID (∅, ∅) with
       | Some (false, _) => None
       | _ => Some (Errorf "cyclic dependency detected starting from task %d")
       end)
    (Tasks state).

(** AuthenticationRequired: every task has a creator. *)
Definition checkAuthenticationRequired (state : SystemState) : option error :=
  forTasks
    (λ _ task,
       if bool_decide (CreatedBy task = "") then
         Some (Errorf "task %d has no creator")
       else None)
    (Tasks state).

Definition orElse (check : option error) (format : string)
    (rest : option error) : option error :=
  match check with
  | Some err => Some (Wrapf format err)
  | None => rest
  end.

Definition CheckAllInvariants (state : SystemState) : option error :=
  orElse (checkNoOrphanTasks state) "NoOrphanTasks violated: %w" (
  orElse (checkTaskOwnership state) "TaskOwnership violated: %w" (
  orElse (checkValidTaskIds state) "ValidTaskIds violated: %w" (
  orElse (checkNoDuplicateTaskIds state) "NoDuplicateTaskIds violated: %w" (
  orElse (checkValidStateTransitions state) "ValidStateTransitions violated: %w" (
  orElse (checkConsistentTimestamps state) "ConsistentTimestamps violated: %w" (
  orElse (checkNoCyclicDependencies state) "NoCyclicDependencies violated: %w" (
  orElse (checkAuthenticationRequired state) "AuthenticationRequired violated: %w"
  None))))))).

End invariants.

(** ** Package usecase: the operation layer *)

Module usecase.
Import domain memory.
Local Open Scope repo_scope.

(** The [InvariantChecker] interface.  The use case calls only
    [CheckAllInvariants]; [None] is Go's [nil] error. *)
Record InvariantChecker : Type := mkInvariantChecker {
  CheckAllInvariants : SystemState → option error
}.

(** [checkCyclicDependencies]: the closure [hasCycle] over [visited] and
    [recStack], with the edges of the task being created taken from
    [dependencies] when [taskID] is [newTaskID] and not yet stored. *)
Fixpoint hasCycle (fuel : nat) (newTaskID : TaskID) (dependencies : gset TaskID)
    (allTasks : gmap TaskID Task) (taskID : TaskID) (m : invariants.marks)
    : option (bool * invariants.marks) :=
  match fuel with
  | O => None
  | S fuel' =>
      let m := ({[taskID]} ∪ m.1, {[taskID]} ∪ m.2) in
      let loop :=
        fix loop (deps : list TaskID) (m : invariants.marks)
            : option (bool * invariants.marks) :=
          match deps with
          | [] => Some (false, m)
          | depID :: rest =>
              if negb (bool_decide (depID ∈ m.1)) then
                match hasCycle fuel' newTaskID dependencies allTasks depID m with
                | None => None
                | Some (true, m') => Some (true, m')
                | Some (false, m') => loop rest m'
                end
              else if bool_decide (depID ∈ m.2) then Some (true, m)
              else loop rest m
          end in
      let finish (r : option (bool * invariants.marks)) :=
        match r with
        | None => None
        | Some (true, m') => Some (true, m')
        | Some (false, m') => Some (false, (m'.1, m'.2 ∖ {[taskID]}))
        end in
      match allTasks !! taskID with
      | None =>
          if bool_decide (taskID = newTaskID)
          then finish (loop (elements dependencies) m)
          else finish (Some (false, m))
      | Some task => finish (loop (elements (Dependencies task)) m)
      end
  end.

Definition checkCyclicDependencies (newTaskID : TaskID)
    (dependencies : gset TaskID) (allTasks : gmap TaskID Task) : option error :=
  match hasCycle
          (S (size ({[newTaskID]} ∪ dependencies ∪ invariants.graphNodes allTasks)))
          newTaskID dependencies allTasks newTaskID (∅, ∅) with
  | Some (false, _) => None
  | _ => Some (Errorf "cyclic dependency detected")
  end.

(** The dependency validation loop of [CreateTask], which fills [depMap]. *)
Fixpoint validateDependencies (dependencies : list TaskID)
    (allTasks : gmap TaskID Task) (depMap : gset TaskID) : result (gset TaskID) :=
  match dependencies with
  | [] => Ok depMap
  | depID :: rest =>
      match allTasks !! depID with
      | None => Fail (Errorf "dependency task %d does not exist")
      | Some depTask =>
          if bool_decide (Status depTask = StatusCancelled) then
            Fail (Errorf "cannot depend on cancelled task %d")
          else validateDependencies rest allTasks ({[depID]} ∪ depMap)
      end
  end.

(** [allCompleted] in [CreateTask]: every id of [depMap] was found in
    [allTasks] by the validation loop. *)
Definition allCompleted (depMap : gset TaskID) (allTasks : gmap TaskID Task) : bool :=
  forallb (λ depID,
             match allTasks !! depID with
             | Some dep => bool_decide (Status dep = StatusCompleted)
             | None => false
             end)
          (elements depMap).

(** The dependency loop of [UpdateTaskStatus] for [in_progress]. *)
Definition dependenciesCompleted (task : Task) (allTasks : gmap TaskID Task) : bool :=
  negb (existsb (incompleteDep allTasks) (elements (Dependencies task))).

(** The checking loop of [BulkUpdateStatus]. *)
Fixpoint bulkCheck (currentUser : UserID) (taskIDs : list TaskID)
    (newStatus : TaskStatus) : M unit :=
  match taskIDs with
  | [] => ret tt
  | taskID :: rest =>
      task <- wrap "task %d not found: %w" (GetTask taskID) ;;
      _ <- failIf (bool_decide (Assignee task ≠ currentUser))
             (Errorf "user does not have access to task %d") ;;
      _ <- failIf (negb (IsValidTransition (Status task) newStatus))
             (Errorf "invalid transition for task %d from %s to %s") ;;
      bulkCheck currentUser rest newStatus
  end.

(** The loop of [CheckDependencies] over the copies of the blocked tasks;
    it returns the count together with the error, as in Go. *)
Fixpoint unblockLoop (blockedTasks : list Task) (allTasks : gmap TaskID Task)
    (now : Time) (unblockedCount : Z) (r : MemoryRepository)
    : (Z * option error) * MemoryRepository :=
  match blockedTasks with
  | [] => ((unblockedCount, None), r)
  | task :: rest =>
      if ShouldUnblock task allTasks then
        let task := set_UpdatedAt (set_Status task StatusPending) now in
        match UpdateTask task r with
        | (Fail err, r') =>
            ((unblockedCount, Some (Wrapf "failed to unblock task %d: %w" err)), r')
        | (Ok _, r') => unblockLoop rest allTasks now (unblockedCount + 1) r'
        end
      else unblockLoop rest allTasks now unblockedCount r
  end.

Section TaskUseCase.

Variable invariantChecker : InvariantChecker.

(** [currentUser, err := GetCurrentUser(); if err != nil || currentUser == nil] *)
Definition requireUser (e : error) : M UserID :=
  currentUser <- GetCurrentUser ;;
  match currentUser with
  | None => fail e
  | Some currentUser => ret currentUser
  end.

(** The postcondition check that closes an operation. *)
Definition checkInvariants (format : string) (now : Time) : M unit :=
  state <- GetSystemState now ;;
  match CheckAllInvariants invariantChecker state with
  | Some err => _ <- Rollback ;; fail (Wrapf format err)
  | None => ret tt
  end.

(** [token] is the value drawn by [generateToken]. *)
Definition Authenticate (userID : UserID) (token : string) (now : Time)
    : M Session :=
  user <- wrap "user not found: %w" (GetUser userID) ;;
  existingSession <- attempt (GetSessionByUser userID now) ;;
  _ <- failIf (match existingSession with
               | Some s => IsValid s now
               | None => false
               end)
         (Errorf "user %s already has an active session") ;;
  let session := mkSession (uID user) token true now (now + 24 * Hour) in
  _ <- wrap "failed to create session: %w" (CreateSession session) ;;
  _ <- wrap "failed to set current user: %w" (SetCurrentUser (Some userID)) ;;
  _ <- checkInvariants "invariant violation: %w" now ;;
  ret session.

Definition Logout (userID : UserID) (now : Time) : M unit :=
  currentUser <- requireUser (Errorf "no user currently authenticated") ;;
  _ <- failIf (bool_decide (currentUser ≠ userID))
         (Errorf "user %s is not the current user") ;;
  session <- attempt (GetSessionByUser userID now) ;;
  _ <- match session with
       | Some session => attempt (UpdateSession (set_Active session false))
       | None => ret None
       end ;;
  wrap "failed to clear current user: %w" (SetCurrentUser None).

Definition CreateTask (title description : string) (priority : Priority)
    (assignee : UserID) (dueDate : option Time) (tags : list Tag)
    (dependencies : list TaskID) (now : Time) : M Task :=
  currentUser <- requireUser (Errorf "authentication required") ;;
  nextID <- wrap "failed to get next task ID: %w" GetNextTaskID ;;
  _ <- failIf (bool_decide (MaxTasks < nextID))
         (Errorf "maximum number of tasks (%d) reached") ;;
  allTasks <- wrap "failed to get tasks: %w" GetAllTasks ;;
  match validateDependencies dependencies allTasks ∅ with
  | Fail err => fail err
  | Ok depMap =>
      _ <- failOn (checkCyclicDependencies nextID depMap allTasks) id ;;
      let status :=
        if bool_decide (0 < length dependencies)%nat then
          if allCompleted depMap allTasks then StatusPending else StatusBlocked
        else StatusPending in
      let task := mkTask nextID title description status priority assignee
                         currentUser now now dueDate tags depMap in
      _ <- failOn (Validate task) (Wrapf "task validation failed: %w") ;;
      task <- wrap "failed to create task: %w" (memory.CreateTask task) ;;
      _ <- wrap "failed to increment task ID: %w" IncrementNextTaskID ;;
      _ <- checkInvariants "invariant violation after task creation: %w" now ;;
      ret task
  end.

Definition UpdateTaskStatus (taskID : TaskID) (newStatus : TaskStatus)
    (now : Time) : M unit :=
  currentUser <- requireUser (Errorf "authentication required") ;;
  task <- wrap "task not found: %w" (GetTask taskID) ;;
  userTasks <- wrap "failed to get user tasks: %w" (GetUserTasks currentUser) ;;
  let hasTask := existsb (λ id, bool_decide (id = taskID)) userTasks in
  _ <- failIf (negb hasTask) (Errorf "user does not have access to task %d") ;;
  _ <- failIf (negb (IsValidTransition (Status task) newStatus))
         (Errorf "invalid transition from %s to %s") ;;
  _ <- (if bool_decide (newStatus = StatusInProgress) then
          allTasks <- attempt GetAllTasks ;;
          failIf (negb (dependenciesCompleted task (default ∅ allTasks)))
            (Errorf "cannot start task: dependency %d is not completed")
        else ret tt) ;;
  let task := set_UpdatedAt (set_Status task newStatus) now in
  _ <- wrap "failed to update task: %w" (UpdateTask task) ;;
  checkInvariants "invariant violation: %w" now.

Definition UpdateTaskPriority (taskID : TaskID) (newPriority : Priority)
    (now : Time) : M unit :=
  currentUser <- requireUser (Errorf "authentication required") ;;
  task <- wrap "task not found: %w" (GetTask taskID) ;;
  _ <- failIf (bool_decide (Assignee task ≠ currentUser))
         (Errorf "user does not have access to task %d") ;;
  let task := set_UpdatedAt (set_Priority task newPriority) now in
  wrap "failed to update task priority: %w" (UpdateTask task).

Definition ReassignTask (taskID : TaskID) (newAssignee : UserID) (now : Time)
    : M unit :=
  currentUser <- requireUser (Errorf "authentication required") ;;
  task <- wrap "task not found: %w" (GetTask taskID) ;;
  _ <- failIf (bool_decide (Assignee task ≠ currentUser)
               && bool_decide (CreatedBy task ≠ currentUser))
         (Errorf "user does not have permission to reassign task %d") ;;
  _ <- wrap "new assignee not found: %w" (GetUser newAssignee) ;;
  let oldAssignee := Assignee task in
  let task := set_UpdatedAt (set_Assignee task newAssignee) now in
  _ <- wrap "failed to reassign task: %w" (UpdateTask task) ;;
  _ <- attempt (RemoveUserTask oldAssignee taskID) ;;
  _ <- attempt (AddUserTask newAssignee taskID) ;;
  ret tt.

Definition UpdateTaskDetails (taskID : TaskID) (title description : string)
    (dueDate : option Time) (now : Time) : M unit :=
  currentUser <- requireUser (Errorf "authentication required") ;;
  task <- wrap "task not found: %w" (GetTask taskID) ;;
  _ <- failIf (bool_decide (Assignee task ≠ currentUser))
         (Errorf "user does not have access to task %d") ;;
  let task :=
    set_UpdatedAt
      (set_DueDate (set_Description (set_Title task title) description) dueDate)
      now in
  _ <- failOn (Validate task) (Wrapf "task validation failed: %w") ;;
  wrap "failed to update task details: %w" (UpdateTask task).

Definition DeleteTask (taskID : TaskID) : M unit :=
  currentUser <- requireUser (Errorf "authentication required") ;;
  task <- wrap "task not found: %w" (GetTask taskID) ;;
  _ <- failIf (bool_decide (Assignee task ≠ currentUser))
         (Errorf "user does not have permission to delete task %d") ;;
  _ <- failIf (negb (CanDelete task))
         (Errorf "can only delete completed or cancelled tasks") ;;
  dependentTasks <- wrap "failed to check dependencies: %w"
                      (GetTasksByDependency taskID) ;;
  _ <- failIf (bool_decide (0 < length dependentTasks)%nat)
         (Errorf "cannot delete task %d: %d tasks depend on it") ;;
  wrap "failed to delete task: %w" (memory.DeleteTask taskID).

(** [CheckDependencies] returns the pair [(int, error)] of the Go method. *)
Definition CheckDependencies (now : Time) (r : MemoryRepository)
    : (Z * option error) * MemoryRepository :=
  match GetTasksByStatus StatusBlocked r with
  | (Fail err, r') => ((0, Some (Wrapf "failed to get blocked tasks: %w" err)), r')
  | (Ok blockedTasks, r') =>
      match GetAllTasks r' with
      | (Fail err, r'') =>
          ((0, Some (Wrapf "failed to get all tasks: %w" err)), r'')
      | (Ok allTasks, r'') => unblockLoop blockedTasks allTasks now 0 r''
      end
  end.

Definition BulkUpdateStatus (taskIDs : list TaskID) (newStatus : TaskStatus)
    (now : Time) : M unit :=
  currentUser <- requireUser (Errorf "authentication required") ;;
  _ <- bulkCheck currentUser taskIDs newStatus ;;
  _ <- wrap "bulk update failed: %w" (memory.BulkUpdateStatus taskIDs newStatus now) ;;
  checkInvariants "invariant violation after bulk update: %w" now.

End TaskUseCase.

End usecase.

(** The wiring of [main]: the use case runs with the checker of package
    [invariants]. *)
Definition NewInvariantChecker : usecase.InvariantChecker :=
  usecase.mkInvariantChecker invariants.CheckAllInvariants.

(** * Properties *)

Import domain memory usecase.
Local Open Scope repo_scope.

(** ** Vocabulary of the statements *)

(** The legal transitions as the specification lists them. *)
Definition spec_legal_transitions : list (TaskStatus * TaskStatus) :=
  [ ("pending", "in_progress"); ("pending", "cancelled"); ("pending", "blocked");
    ("in_progress", "completed"); ("in_progress", "cancelled");
    ("in_progress", "blocked"); ("in_progress", "pending");
    ("blocked", "pending"); ("blocked", "in_progress"); ("blocked", "cancelled") ].

(** The store after [tasks[taskID]] took status [to] at time [now]. *)
Definition statusUpdated (r : MemoryRepository) (taskID : TaskID) (task : Task)
    (to : TaskStatus) (now : Time) : MemoryRepository :=
  set_tasks r (<[taskID := set_UpdatedAt (set_Status task to) now]> (tasks r)).

(** The task index of user [u] holds [taskID]. *)
Definition owns (r : MemoryRepository) (u : UserID) (taskID : TaskID) : Prop :=
  ∃ ids, userTasks r !! u = Some ids ∧ taskID ∈ ids.

(** [task] is stored in the task map under its own identifier. *)
Definition stored (r : MemoryRepository) (taskID : TaskID) (task : Task) : Prop :=
  tasks r !! taskID = Some task ∧ ID task = taskID.

(** The dependency precondition of entering [in_progress], as the code
    evaluates it: every dependency found in the store is completed. *)
Definition depsCompleted (r : MemoryRepository) (task : Task) : Prop :=
  ∀ depID dep, depID ∈ Dependencies task → tasks r !! depID = Some dep →
               Status dep = StatusCompleted.

(** ** Example stores

    Two users, as in [main]; alice logs in and creates task 1 without
    dependencies and task 2 depending on task 1. *)

Definition alice : User := mkUser "alice" "Alice" "alice@example.com" 0.
Definition bob : User := mkUser "bob" "Bob" "bob@example.com" 0.

Definition store0 : MemoryRepository :=
  snd ((_ <- CreateUser alice ;; CreateUser bob) (NewMemoryRepository 0)).

Definition store1 : MemoryRepository :=
  snd ((_ <- Authenticate NewInvariantChecker "alice" "token-1" 10 ;;
        CreateTask NewInvariantChecker "Task A" "first" PriorityLow "alice" None
          [TagBug] [] 11) store0).

Definition store2 : MemoryRepository :=
  snd (CreateTask NewInvariantChecker "Task B" "second" PriorityHigh "alice" None
         [TagFeature] [1] 12 store1).

Definition taskA : Task :=
  mkTask 1 "Task A" "first" StatusPending PriorityLow "alice" "alice" 11 11
         None [TagBug] ∅.

Definition taskB : Task :=
  mkTask 2 "Task B" "second" StatusBlocked PriorityHigh "alice" "alice" 12 12
         None [TagFeature] {[1]}.

(** [store1] with a third task assigned by alice to bob. *)
Definition store_delegated : MemoryRepository :=
  snd (CreateTask NewInvariantChecker "Task C" "third" PriorityMedium "bob" None
         [] [] 12 store1).

(** [store1] after a direct repository write, as the tests of the
    repository do: a task without creator, numbered past the counter. *)
Definition store_unchecked : MemoryRepository :=
  snd (memory.CreateTask
         (mkTask 7 "Task X" "unchecked" StatusPending PriorityLow "alice" ""
                 13 13 None [] ∅) store1).

Definition taskC : Task :=
  mkTask 2 "Task C" "third" StatusPending PriorityMedium "bob" "alice" 12 12
         None [] ∅.

(** The outcome of an operation is an error. *)
Definition fails {A} (out : result A * MemoryRepository) : Prop :=
  is_ok out.1 = false.

(** Reassignment reserved to the assignee: the rejection causes of
    [ReassignTask] for a stored task, as the interface table lists them. *)
Definition reassign_assignee_only (r : MemoryRepository) (taskID : TaskID)
    (newAssignee : UserID) (now : Time) : Prop :=
  ∀ task, stored r taskID task →
    (fails (ReassignTask taskID newAssignee now r) ↔
     currentUser r = None
     ∨ currentUser r ≠ Some (Assignee task)
     ∨ users r !! newAssignee = None).

(** The initial status computed by [CreateTask]. *)
Definition initialStatus (dependencies : list TaskID) (depMap : gset TaskID)
    (allTasks : gmap TaskID Task) : TaskStatus :=
  if bool_decide (0 < length dependencies)%nat then
    if allCompleted depMap allTasks then StatusPending else StatusBlocked
  else StatusPending.

(** The error with which an operation reports a failed postcondition. *)
Definition isViolation (format : string) (e : error) : Prop :=
  ∃ err, e = Wrapf format err.

(** Every task is stored under its own identifier, as the repository
    writes it ([r.tasks[task.ID] = task]). *)
Definition well_keyed (r : MemoryRepository) : Prop :=
  ∀ taskID task, tasks r !! taskID = Some task → ID task = taskID.

(** Every dependency names a task of the store. *)
Definition deps_closed (r : MemoryRepository) : Prop :=
  ∀ taskID task depID,
    tasks r !! taskID = Some task → depID ∈ Dependencies task →
    is_Some (tasks r !! depID).

(** All dependencies of [task] are completed tasks of the store. *)
Definition allDepsCompleted (r : MemoryRepository) (task : Task) : Prop :=
  ∀ depID, depID ∈ Dependencies task →
           ∃ dep, tasks r !! depID = Some dep ∧ Status dep = StatusCompleted.

(** What the sweep does to one task. *)
Definition unblocked (now : Time) (task : Task) : Task :=
  set_UpdatedAt (set_Status task StatusPending) now.

(** Boolean forms of [well_keyed] and [deps_closed]. *)
Definition well_keyedb (r : MemoryRepository) : bool :=
  forallb (λ entry : TaskID * Task, bool_decide (ID entry.2 = entry.1))
          (map_to_list (tasks r)).

Definition deps_closedb (r : MemoryRepository) : bool :=
  forallb (λ entry : TaskID * Task,
             forallb (λ depID, bool_decide (is_Some (tasks r !! depID)))
                     (elements (Dependencies entry.2)))
          (map_to_list (tasks r)).

(** [store2] after alice started and completed task 1. *)
Definition store3 : MemoryRepository :=
  snd ((_ <- UpdateTaskStatus NewInvariantChecker 1 StatusInProgress 13 ;;
        UpdateTaskStatus NewInvariantChecker 1 StatusCompleted 14) store2).

(** [store1] after alice cancelled task 1. *)
Definition store_cancelled : MemoryRepository :=
  snd (UpdateTaskStatus NewInvariantChecker 1 StatusCancelled 13 store1).

(** The session that [Authenticate] creates and the store it leaves. *)
Definition newSession (user : User) (token : string) (now : Time) : Session :=
  mkSession (uID user) token true now (now + 24 * Hour).

Definition authenticated (r : MemoryRepository) (userID : UserID) (user : User)
    (token : string) (now : Time) : MemoryRepository :=
  set_currentUser
    (set_sessions r (<[token := newSession user token now]> (sessions r)))
    (Some userID).

(** [userID] holds no session that is valid at [now]. *)
Definition noValidSession (r : MemoryRepository) (userID : UserID) (now : Time)
    : Prop :=
  ∀ token session, sessions r !! token = Some session →
                   sUserID session = userID → IsValid session now = false.

(** ** Consistency of the store *)

(** The index agrees with the assignees: an identifier is in the index of a
    user exactly when the stored task is assigned to that user. *)
Definition index_exact (r : MemoryRepository) : Prop :=
  ∀ u taskID,
    owns r u taskID ↔ ∃ task, tasks r !! taskID = Some task ∧ Assignee task = u.

(** The identifiers in use lie between 1 and the counter. *)
Definition ids_below_counter (r : MemoryRepository) : Prop :=
  1 ≤ nextTaskID r
  ∧ ∀ taskID task, tasks r !! taskID = Some task → 1 ≤ taskID < nextTaskID r.

Definition consistent (r : MemoryRepository) : Prop :=
  well_keyed r ∧ index_exact r ∧ deps_closed r ∧ ids_below_counter r.

(** Two task maps with the same keys and, under each key, tasks with the
    same identifier, assignee and dependencies. *)
Definition entry_shape_eq (o o' : option Task) : Prop :=
  match o, o' with
  | Some task, Some task' =>
      ID task' = ID task ∧ Assignee task' = Assignee task
      ∧ Dependencies task' = Dependencies task
  | None, None => True
  | _, _ => False
  end.

Definition shape_eq (m m' : gmap TaskID Task) : Prop :=
  ∀ taskID, entry_shape_eq (m !! taskID) (m' !! taskID).

(** [r'] differs from [r] at most in fields of tasks other than identifier,
    assignee and dependencies, and in users, sessions and current user. *)
Definition same_shape (r r' : MemoryRepository) : Prop :=
  userTasks r' = userTasks r
  ∧ nextTaskID r' = nextTaskID r
  ∧ shape_eq (tasks r) (tasks r').

(** The requests that the operation layer serves. *)
Inductive Request : Type :=
| ReqAuthenticate (userID : UserID) (token : string)
| ReqLogout (userID : UserID)
| ReqCreateTask (title description : string) (priority : Priority)
    (assignee : UserID) (dueDate : option Time) (tags : list Tag)
    (dependencies : list TaskID)
| ReqUpdateTaskStatus (taskID : TaskID) (newStatus : TaskStatus)
| ReqUpdateTaskPriority (taskID : TaskID) (newPriority : Priority)
| ReqReassignTask (taskID : TaskID) (newAssignee : UserID)
| ReqUpdateTaskDetails (taskID : TaskID) (title description : string)
    (dueDate : option Time)
| ReqDeleteTask (taskID : TaskID)
| ReqCheckDependencies
| ReqBulkUpdateStatus (taskIDs : list TaskID) (newStatus : TaskStatus).

(** The store that serving a request at time [now] leaves, whether the
    operation reports success or an error. *)
Definition serve (chk : InvariantChecker) (req : Request) (now : Time)
    (r : MemoryRepository) : MemoryRepository :=
  match req with
  | ReqAuthenticate userID token => (Authenticate chk userID token now r).2
  | ReqLogout userID => (Logout userID now r).2
  | ReqCreateTask title description priority assignee dueDate tags dependencies =>
      (CreateTask chk title description priority assignee dueDate tags
         dependencies now r).2
  | ReqUpdateTaskStatus taskID newStatus =>
      (UpdateTaskStatus chk taskID newStatus now r).2
  | ReqUpdateTaskPriority taskID newPriority =>
      (UpdateTaskPriority taskID newPriority now r).2
  | ReqReassignTask taskID newAssignee => (ReassignTask taskID newAssignee now r).2
  | ReqUpdateTaskDetails taskID title description dueDate =>
      (UpdateTaskDetails taskID title description dueDate now r).2
  | ReqDeleteTask taskID => (DeleteTask taskID r).2
  | ReqCheckDependencies => (CheckDependencies now r).2
  | ReqBulkUpdateStatus taskIDs newStatus =>
      (BulkUpdateStatus chk taskIDs newStatus now r).2
  end.

(** The stores that a run of the service reaches: it starts from a new
    repository holding any users and serves requests one after the other. *)
Inductive reachable (chk : InvariantChecker) : MemoryRepository → Prop :=
| reachable_new (now : Time) (us : gmap UserID User) :
    reachable chk (set_users (NewMemoryRepository now) us)
| reachable_serve (req : Request) (now : Time) (r : MemoryRepository) :
    reachable chk r → reachable chk (serve chk req now r).

(** What a status update does to one task. *)
Definition withStatus (status : TaskStatus) (now : Time) (task : Task) : Task :=
  set_UpdatedAt (set_Status task status) now.

(** The precondition that [BulkUpdateStatus] checks for one identifier. *)
Definition bulkAllowed (r : MemoryRepository) (u : UserID) (newStatus : TaskStatus)
    (taskID : TaskID) : Prop :=
  ∃ task, tasks r !! taskID = Some task ∧ Assignee task = u
          ∧ IsValidTransition (Status task) newStatus = true.

(** [userID] holds a session that is valid at [now]. *)
Definition hasValidSession (r : MemoryRepository) (userID : UserID) (now : Time)
    : Prop :=
  ∃ token session, sessions r !! token = Some session
                   ∧ sUserID session = userID ∧ IsValid session now = true.


(** Every dependency has a smaller identifier than the task that names it. *)
Definition deps_decreasing (r : MemoryRepository) : Prop :=
  ∀ taskID task depID,
    tasks r !! taskID = Some task → depID ∈ Dependencies task → depID < taskID.

(** Every stored task carries one of the five statuses. *)
Definition statuses_valid (r : MemoryRepository) : Prop :=
  ∀ taskID task, tasks r !! taskID = Some task → isValidStatus (Status task) = true.

(** A user table in which the record under the key ["alice"] carries
    another [ID]: [CreateUser] keeps the pointer it is given, and a caller
    that hands it the address of one loop variable for every user
    ([setupTestUsers]) leaves the last record under every key. *)
Definition store_aliased : MemoryRepository :=
  set_users (NewMemoryRepository 0) {["alice" := bob; "bob" := bob]}.
(** ** The transition table *)

Lemma IsValidTransition_spec (from to : TaskStatus) :
  IsValidTransition from to = true ↔ In (from, to) spec_legal_transitions.
Proof.
  unfold IsValidTransition, ValidTransitions, spec_legal_transitions.
  simpl. rewrite !lookup_insert, lookup_empty.
  unfold StatusPending, StatusInProgress, StatusCompleted, StatusCancelled,
    StatusBlocked.
  repeat case_decide; simpl; intuition congruence.
Qed.

(** ** Auxiliary facts on the repository *)

Lemma existsb_eq_elem_of (x : TaskID) (l : list TaskID) :
  existsb (λ id, bool_decide (id = x)) l = true ↔ x ∈ l.
Proof.
  rewrite existsb_exists. split.
  - intros (y & Hy & Heq). apply bool_decide_eq_true in Heq. subst.
    by apply list_elem_of_In.
  - intros Hx. exists x. split; [by apply list_elem_of_In|].
    by apply bool_decide_eq_true.
Qed.

Lemma existsb_incompleteDep_false (deps : gset TaskID) (allTasks : gmap TaskID Task) :
  existsb (incompleteDep allTasks) (elements deps) = false ↔
  ∀ depID dep, depID ∈ deps → allTasks !! depID = Some dep →
               Status dep = StatusCompleted.
Proof.
  rewrite <- not_true_iff_false, existsb_exists. split.
  - intros Hno depID dep Hin Hdep.
    destruct (decide (Status dep = StatusCompleted)) as [|Hne]; [done|].
    exfalso. apply Hno. exists depID. split.
    + apply list_elem_of_In, elem_of_elements, Hin.
    + unfold incompleteDep. rewrite Hdep.
      by rewrite bool_decide_eq_false_2.
  - intros Hall (depID & Hin & Hinc).
    apply list_elem_of_In, elem_of_elements in Hin.
    unfold incompleteDep in Hinc.
    destruct (allTasks !! depID) as [dep|] eqn:Hdep; [|done].
    rewrite (bool_decide_eq_true_2 _ (Hall _ _ Hin Hdep)) in Hinc. done.
Qed.

Lemma dependenciesCompleted_spec (task : Task) (allTasks : gmap TaskID Task) :
  dependenciesCompleted task allTasks = true ↔
  ∀ depID dep, depID ∈ Dependencies task → allTasks !! depID = Some dep →
               Status dep = StatusCompleted.
Proof.
  unfold dependenciesCompleted.
  rewrite negb_true_iff. apply existsb_incompleteDep_false.
Qed.

Lemma set_tasks_eta (r : MemoryRepository) (ts : gmap TaskID Task) :
  set_tasks (set_userTasks r (userTasks r)) ts = set_tasks r ts.
Proof. by destruct r. Qed.

(** [UpdateTask] of a task whose assignee is unchanged replaces the stored
    record and leaves the index alone. *)
Lemma UpdateTask_same_assignee (r : MemoryRepository) (task existing : Task) :
  tasks r !! ID task = Some existing →
  Assignee existing = Assignee task →
  UpdateTask task r = (Ok tt, set_tasks r (<[ID task := task]> (tasks r))).
Proof.
  intros Hex Has. unfold UpdateTask. rewrite Hex.
  rewrite bool_decide_eq_false_2 by (intros Hne; by apply Hne).
  by rewrite set_tasks_eta.
Qed.

(** Symbolic execution of an operation: unfold the monad and the getters,
    then reduce the matches on the results that became constructors. *)
Ltac run :=
  cbv beta iota zeta delta
    [bind wrap ret fail failIf failOn attempt requireUser checkInvariants
     GetCurrentUser GetTask GetUserTasks GetAllTasks GetSystemState GetUser
     GetNextTaskID IncrementNextTaskID GetTasksByStatus GetTasksByDependency
     SetCurrentUser Rollback negb].

(** ** UpdateTaskStatus and the transition table *)

Lemma UpdateTaskStatus_accepts (chk : InvariantChecker) (r : MemoryRepository)
    (u : UserID) (taskID : TaskID) (task : Task) (to : TaskStatus) (now : Time) :
  currentUser r = Some u →
  stored r taskID task →
  owns r u taskID →
  IsValidTransition (Status task) to = true →
  (to = StatusInProgress → depsCompleted r task) →
  UpdateTaskStatus chk taskID to now r =
    match CheckAllInvariants chk (snapshot now (statusUpdated r taskID task to now)) with
    | None => (Ok tt, statusUpdated r taskID task to now)
    | Some err => (Fail (Wrapf "invariant violation: %w" err),
                   statusUpdated r taskID task to now)
    end.
Proof.
  intros Hcu [Htask Hid] (ids & Hids & Hin) Hvalid Hdeps.
  unfold UpdateTaskStatus. run. rewrite Hcu. run. rewrite Htask. run.
  rewrite Hids.
  assert (existsb (λ id, bool_decide (id = taskID)) (elements ids) = true) as ->.
  { apply existsb_eq_elem_of, elem_of_elements, Hin. }
  run. rewrite Hvalid. run.
  assert (UpdateTask (set_UpdatedAt (set_Status task to) now) r
          = (Ok tt, statusUpdated r taskID task to now)) as Hupd.
  { rewrite (UpdateTask_same_assignee r _ task); simpl; rewrite ?Hid; done. }
  case_bool_decide as Hto.
  - simpl. rewrite (proj2 (dependenciesCompleted_spec task (tasks r)))
      by (apply Hdeps, Hto).
    run. rewrite Hupd. run. by destruct (CheckAllInvariants _ _).
  - run. rewrite Hupd. run. by destruct (CheckAllInvariants _ _).
Qed.

Lemma UpdateTaskStatus_rejects_illegal (chk : InvariantChecker)
    (r : MemoryRepository) (u : UserID) (taskID : TaskID) (task : Task)
    (to : TaskStatus) (now : Time) :
  currentUser r = Some u →
  tasks r !! taskID = Some task →
  IsValidTransition (Status task) to = false →
  ∃ err, UpdateTaskStatus chk taskID to now r = (Fail err, r).
Proof.
  intros Hcu Htask Hinvalid.
  unfold UpdateTaskStatus. run. rewrite Hcu. run. rewrite Htask. run.
  destruct (existsb _ _); run; [|by eexists].
  rewrite Hinvalid. run. by eexists.
Qed.

Lemma UpdateTaskStatus_rejects_incomplete (chk : InvariantChecker)
    (r : MemoryRepository) (u : UserID) (taskID : TaskID) (task : Task)
    (now : Time) :
  currentUser r = Some u →
  tasks r !! taskID = Some task →
  ¬ depsCompleted r task →
  ∃ err, UpdateTaskStatus chk taskID StatusInProgress now r = (Fail err, r).
Proof.
  intros Hcu Htask Hdeps.
  unfold UpdateTaskStatus. run. rewrite Hcu. run. rewrite Htask. run.
  destruct (existsb _ _); run; [|by eexists].
  destruct (IsValidTransition _ _); run; [|by eexists].
  rewrite bool_decide_eq_true_2 by done. simpl.
  destruct (dependenciesCompleted task (tasks r)) eqn:Hdc; run; [|by eexists].
  exfalso. apply Hdeps. unfold depsCompleted. by apply dependenciesCompleted_spec.
Qed.

(** C1.  For a task stored under its identifier and held in the task index
    of the authenticated user, [UpdateTaskStatus] from [Status task] to [to]
    succeeds and leaves the status equal to [to] when the pair is one of
    the ten legal transitions, the dependencies found in the store are
    completed if [to] is [in_progress], and the invariant check that closes
    the operation passes; for every pair outside the table, among them the
    self-transitions and every transition out of [completed] or
    [cancelled], it fails and returns the store unchanged. *)
Theorem UpdateTaskStatus_follows_transition_table (chk : InvariantChecker)
    (r : MemoryRepository) (u : UserID) (taskID : TaskID) (task : Task)
    (to : TaskStatus) (now : Time) :
  currentUser r = Some u →
  stored r taskID task →
  owns r u taskID →
  (In (Status task, to) spec_legal_transitions →
   (to = StatusInProgress → depsCompleted r task) →
   CheckAllInvariants chk (snapshot now (statusUpdated r taskID task to now)) = None →
   UpdateTaskStatus chk taskID to now r = (Ok tt, statusUpdated r taskID task to now)
   ∧ Status <$> tasks (statusUpdated r taskID task to now) !! taskID = Some to)
  ∧ (¬ In (Status task, to) spec_legal_transitions
     ∨ to = Status task
     ∨ Status task = StatusCompleted
     ∨ Status task = StatusCancelled →
     ∃ err, UpdateTaskStatus chk taskID to now r = (Fail err, r)).
Proof.
  intros Hcu Hst Hown. split.
  - intros Hlegal Hdeps Hchk.
    rewrite (UpdateTaskStatus_accepts chk r u taskID task to now)
      by (try apply IsValidTransition_spec; done).
    rewrite Hchk. split; [done|].
    unfold statusUpdated. simpl. by rewrite lookup_insert_eq.
  - intros Hillegal. destruct Hst as [Htask _].
    apply (UpdateTaskStatus_rejects_illegal chk r u taskID task to now Hcu Htask).
    apply not_true_iff_false. rewrite IsValidTransition_spec.
    intros Hlegal.
    unfold spec_legal_transitions in Hlegal. simpl in Hlegal.
    destruct Hillegal as [Hno | [Hself | [Hdone | Hdone]]].
    + apply Hno. simpl. exact Hlegal.
    + subst to. revert Hlegal. generalize (Status task). intros s Hlegal.
      repeat (destruct Hlegal as [Hl | Hlegal]; [by simplify_eq|]). done.
    + revert Hlegal. rewrite Hdone. unfold StatusCompleted. intros Hlegal.
      repeat (destruct Hlegal as [Hl | Hlegal]; [by simplify_eq|]). done.
    + revert Hlegal. rewrite Hdone. unfold StatusCancelled. intros Hlegal.
      repeat (destruct Hlegal as [Hl | Hlegal]; [by simplify_eq|]). done.
Qed.

Lemma store1_currentUser : currentUser store1 = Some "alice".
Proof. vm_compute. reflexivity. Qed.

Lemma store1_stored_taskA : stored store1 1 taskA.
Proof. split; vm_compute; reflexivity. Qed.

Lemma store1_owns_taskA : owns store1 "alice" 1.
Proof.
  exists {[1]}. split; [vm_compute; reflexivity|]. by apply elem_of_singleton.
Qed.

Lemma UpdateTaskStatus_follows_transition_table_witness :
  UpdateTaskStatus NewInvariantChecker 1 StatusInProgress 20 store1
  = (Ok tt, statusUpdated store1 1 taskA StatusInProgress 20).
Proof.
  refine (proj1 (proj1 (UpdateTaskStatus_follows_transition_table
                          NewInvariantChecker store1 "alice" 1 taskA
                          StatusInProgress 20 store1_currentUser
                          store1_stored_taskA store1_owns_taskA) _ _ _)).
  - simpl. tauto.
  - intros _ depID dep Hin. exfalso. revert Hin. apply not_elem_of_empty.
  - vm_compute. reflexivity.
Defined.

(** ** Dependencies and the bulk update *)

(** C2.  [BulkUpdateStatus] has no dependency check: in [store2], where
    task 2 depends on task 1 and task 1 is still pending, the bulk update
    of task 2 to [in_progress] succeeds and leaves task 2 in progress, while
    [UpdateTaskStatus] with the same arguments is rejected on the same
    store. *)
Theorem BulkUpdateStatus_starts_task_with_pending_dependency :
  let out := BulkUpdateStatus NewInvariantChecker [2] StatusInProgress 20 store2 in
  out.1 = Ok tt
  ∧ Status <$> tasks out.2 !! 2 = Some StatusInProgress
  ∧ Dependencies <$> tasks out.2 !! 2 = Some {[1]}
  ∧ Status <$> tasks out.2 !! 1 = Some StatusPending
  ∧ UpdateTaskStatus NewInvariantChecker 2 StatusInProgress 20 store2
    = (Fail (Errorf "cannot start task: dependency %d is not completed"), store2).
Proof. repeat split; vm_compute; reflexivity. Qed.

(** ** The postcondition check *)

(** C3.  [UpdateTaskPriority] does not run the invariant checker: on
    [store_unchecked], whose snapshot violates the invariants before and
    after the operation, it reports success, while [UpdateTaskStatus] on the
    same store reports the violation. *)
Theorem UpdateTaskPriority_skips_invariant_check :
  let out := UpdateTaskPriority 1 PriorityHigh 20 store_unchecked in
  out.1 = Ok tt
  ∧ CheckAllInvariants NewInvariantChecker (snapshot 20 out.2)
    = Some (Wrapf "ValidTaskIds violated: %w" (Errorf "task ID %d >= nextTaskID %d"))
  ∧ (UpdateTaskStatus NewInvariantChecker 1 StatusInProgress 20 store_unchecked).1
    = Fail (Wrapf "invariant violation: %w"
              (Wrapf "ValidTaskIds violated: %w"
                 (Errorf "task ID %d >= nextTaskID %d"))).
Proof. repeat split; vm_compute; reflexivity. Qed.

(** ** Priorities *)

(** C9.  [UpdateTaskPriority] stores any string as priority: on [store1]
    the assignee sets the priority of task 1 to ["urgent"], which
    [isValidPriority] rejects, and the operation succeeds. *)
Theorem UpdateTaskPriority_stores_invalid_priority :
  let out := UpdateTaskPriority 1 "urgent" 20 store1 in
  out.1 = Ok tt
  ∧ Priority_ <$> tasks out.2 !! 1 = Some "urgent"
  ∧ isValidPriority "urgent" = false
  ∧ Priority_ <$> tasks store1 !! 1 = Some PriorityLow.
Proof. repeat split; vm_compute; reflexivity. Qed.

(** ** Reassignment *)

Lemma UpdateTask_stored (r : MemoryRepository) (task existing : Task) :
  tasks r !! ID task = Some existing →
  ∃ r', UpdateTask task r = (Ok tt, r')
        ∧ tasks r' = <[ID task := task]> (tasks r)
        ∧ users r' = users r
        ∧ currentUser r' = currentUser r
        ∧ nextTaskID r' = nextTaskID r.
Proof.
  intros Hex. unfold UpdateTask. rewrite Hex. eexists. split; [done|].
  by destruct r.
Qed.

Lemma ReassignTask_ok (r : MemoryRepository) (u : UserID) (taskID : TaskID)
    (task : Task) (newAssignee : UserID) (user : User) (now : Time) :
  currentUser r = Some u →
  stored r taskID task →
  Assignee task = u ∨ CreatedBy task = u →
  users r !! newAssignee = Some user →
  ∃ r', ReassignTask taskID newAssignee now r = (Ok tt, r').
Proof.
  intros Hcu [Htask Hid] Hperm Huser.
  unfold ReassignTask. run. rewrite Hcu. run. rewrite Htask. run.
  assert (bool_decide (Assignee task ≠ u) && bool_decide (CreatedBy task ≠ u)
          = false) as ->.
  { apply andb_false_iff.
    destruct Hperm as [<- | <-]; [left | right];
      apply bool_decide_eq_false; intros Hne; by apply Hne. }
  run. rewrite Huser. run.
  destruct (UpdateTask_stored r (set_UpdatedAt (set_Assignee task newAssignee) now)
              task) as (r' & -> & _).
  { simpl. by rewrite Hid. }
  run. unfold RemoveUserTask, AddUserTask. by eexists.
Qed.

Lemma store_delegated_stored_taskC : stored store_delegated 2 taskC.
Proof. split; vm_compute; reflexivity. Qed.

(** C4.  [ReassignTask] lets the creator of a task take it from its
    assignee: in [store_delegated] alice is logged in, task 2 was created
    by alice and is assigned to bob; her [ReassignTask] of task 2 to
    herself succeeds and makes her the assignee, so the rule that the
    operation fails when the current user is not the assignee does not
    hold of the code, while [UpdateTaskPriority], [UpdateTaskDetails],
    [DeleteTask] and [BulkUpdateStatus] on the same store refuse her for
    not being the assignee. *)
Theorem ReassignTask_lets_creator_take_task :
  let out := ReassignTask 2 "alice" 20 store_delegated in
  currentUser store_delegated = Some "alice"
  ∧ Assignee <$> tasks store_delegated !! 2 = Some "bob"
  ∧ CreatedBy <$> tasks store_delegated !! 2 = Some "alice"
  ∧ out.1 = Ok tt
  ∧ Assignee <$> tasks out.2 !! 2 = Some "alice"
  ∧ ¬ reassign_assignee_only store_delegated 2 "alice" 20
  ∧ UpdateTaskPriority 2 PriorityHigh 20 store_delegated
    = (Fail (Errorf "user does not have access to task %d"), store_delegated)
  ∧ UpdateTaskDetails 2 "Task C" "changed" None 20 store_delegated
    = (Fail (Errorf "user does not have access to task %d"), store_delegated)
  ∧ DeleteTask 2 store_delegated
    = (Fail (Errorf "user does not have permission to delete task %d"),
       store_delegated)
  ∧ BulkUpdateStatus NewInvariantChecker [2] StatusInProgress 20 store_delegated
    = (Fail (Errorf "user does not have access to task %d"), store_delegated).
Proof.
  repeat split; try (vm_compute; reflexivity).
  intros Hclaim.
  destruct (Hclaim taskC store_delegated_stored_taskC) as [_ Hfail].
  assert (fails (ReassignTask 2 "alice" 20 store_delegated)) as Hf.
  { apply Hfail. right. left. vm_compute. discriminate. }
  vm_compute in Hf. discriminate Hf.
Qed.

(** ** CreateTask *)

Lemma set_ID_same (t : Task) : set_ID t (ID t) = t.
Proof. by destruct t. Qed.

(** The outcomes of [CreateTask]: a rejection that leaves the store as it
    was, or the insertion of the new task followed by the invariant check,
    whose verdict decides the result but not the store. *)
Lemma CreateTask_inv (chk : InvariantChecker) (title description : string)
    (priority : Priority) (assignee : UserID) (dueDate : option Time)
    (tags : list Tag) (dependencies : list TaskID) (now : Time)
    (r r' : MemoryRepository) (res : result Task) :
  CreateTask chk title description priority assignee dueDate tags dependencies
    now r = (res, r') →
  (∃ e, res = Fail e
        ∧ ¬ isViolation "invariant violation after task creation: %w" e)
  ∨ (∃ u depMap,
       let task := mkTask (nextTaskID r) title description
                     (initialStatus dependencies depMap (tasks r)) priority
                     assignee u now now dueDate tags depMap in
       currentUser r = Some u
       ∧ validateDependencies dependencies (tasks r) ∅ = Ok depMap
       ∧ tasks r !! nextTaskID r = None
       ∧ tasks r' = <[nextTaskID r := task]> (tasks r)
       ∧ nextTaskID r < nextTaskID r'
       ∧ res = match CheckAllInvariants chk (snapshot now r') with
               | None => Ok task
               | Some err =>
                   Fail (Wrapf "invariant violation after task creation: %w" err)
               end).
Proof.
  unfold CreateTask. run.
  destruct (currentUser r) as [u|] eqn:Hcu; run.
  2: { intros [= <- <-]. left. eexists. split; [done|]. by intros [? ?]. }
  destruct (bool_decide (MaxTasks < nextTaskID r)); run.
  { intros [= <- <-]. left. eexists. split; [done|]. by intros [? ?]. }
  destruct (validateDependencies dependencies (tasks r) ∅) as [depMap|e] eqn:Hval;
    run.
  2: { intros [= <- <-]. left. exists e. split; [done|]. intros [? ->].
       revert Hval. generalize (∅ : gset TaskID).
       induction dependencies as [|d ds IH]; intros acc; simpl; [done|].
       destruct (tasks r !! d); [|done]. case_bool_decide; [done|]. apply IH. }
  destruct (checkCyclicDependencies _ _ _) as [e|] eqn:Hcyc; run.
  { intros [= <- <-]. left. exists e. split; [done|]. intros [? ->].
    unfold checkCyclicDependencies in Hcyc.
    destruct (usecase.hasCycle _ _ _ _ _ _) as [[[] ?]|]; done. }
  fold (initialStatus dependencies depMap (tasks r)).
  destruct (Validate _) as [e|]; run.
  { intros [= <- <-]. left. eexists. split; [done|]. by intros [? ?]. }
  unfold memory.CreateTask. cbn [ID].
  destruct (bool_decide (nextTaskID r = 0));
    cbn [set_ID set_nextTaskID set_tasks set_userTasks tasks nextTaskID ID Assignee
         userTasks];
    destruct (tasks r !! nextTaskID r) eqn:Hfree; run;
    cbn [set_ID set_nextTaskID set_tasks set_userTasks tasks nextTaskID ID Assignee
         userTasks].
  1,3: intros [= <- <-]; left; eexists; split; [done|]; by intros [? ?].
  all: destruct (CheckAllInvariants chk _) as [err|] eqn:Hchk;
    intros [= <- <-]; right; exists u, depMap;
    rewrite Hchk;
    cbn [set_ID set_nextTaskID set_tasks set_userTasks tasks nextTaskID ID];
    repeat split; try done; lia.
Qed.

Lemma validateDependencies_ok (dependencies : list TaskID)
    (allTasks : gmap TaskID Task) (acc depMap : gset TaskID) :
  validateDependencies dependencies allTasks acc = Ok depMap →
  depMap = list_to_set dependencies ∪ acc
  ∧ ∀ depID, depID ∈ dependencies →
             ∃ dep, allTasks !! depID = Some dep ∧ Status dep ≠ StatusCancelled.
Proof.
  revert acc. induction dependencies as [|d ds IH]; intros acc; simpl.
  - intros [= <-]. split; [set_solver|]. intros depID Hin. by apply elem_of_nil in Hin.
  - destruct (allTasks !! d) as [dep|] eqn:Hd; [|done].
    case_bool_decide as Hc; [done|]. intros Hrest.
    destruct (IH _ Hrest) as [-> Hall]. split; [set_solver|].
    intros depID [->|Hin]%elem_of_cons; [by exists dep | by apply Hall].
Qed.

Lemma allCompleted_spec (depMap : gset TaskID) (allTasks : gmap TaskID Task) :
  allCompleted depMap allTasks = true ↔
  ∀ depID, depID ∈ depMap →
           ∃ dep, allTasks !! depID = Some dep ∧ Status dep = StatusCompleted.
Proof.
  unfold allCompleted. rewrite forallb_forall. split.
  - intros Hall depID Hin.
    specialize (Hall depID). rewrite <- list_elem_of_In, elem_of_elements in Hall.
    specialize (Hall Hin). destruct (allTasks !! depID) as [dep|]; [|done].
    exists dep. split; [done|]. by apply bool_decide_eq_true in Hall.
  - intros Hall depID Hin. apply list_elem_of_In, elem_of_elements in Hin.
    destruct (Hall depID Hin) as (dep & -> & Hs). by apply bool_decide_eq_true.
Qed.

(** C5.  The unit of work does nothing on [Begin], [Commit] and [Rollback];
    when [CreateTask] reports a violated invariant, the store it leaves
    behind is the one the checker rejected: the new task is in the task map
    under the identifier that was free before, and the counter has
    advanced. *)
Theorem CreateTask_violation_is_not_rolled_back (chk : InvariantChecker)
    (title description : string) (priority : Priority) (assignee : UserID)
    (dueDate : option Time) (tags : list Tag) (dependencies : list TaskID)
    (now : Time) (r r' : MemoryRepository) (err : error) :
  CreateTask chk title description priority assignee dueDate tags dependencies
    now r
  = (Fail (Wrapf "invariant violation after task creation: %w" err), r') →
  Begin r' = (Ok tt, r') ∧ Commit r' = (Ok tt, r') ∧ Rollback r' = (Ok tt, r')
  ∧ CheckAllInvariants chk (snapshot now r') = Some err
  ∧ tasks r !! nextTaskID r = None
  ∧ (∃ task, tasks r' !! nextTaskID r = Some task
             ∧ Title task = title ∧ Assignee task = assignee)
  ∧ nextTaskID r < nextTaskID r'.
Proof.
  intros Hrun. repeat (split; [done|]).
  apply CreateTask_inv in Hrun as [(e & [= <-] & Hnot) | Hmut].
  { exfalso. apply Hnot. by eexists. }
  destruct Hmut as (u & depMap & Hcu & Hval & Hfree & Htasks & Hnext & Hres).
  destruct (CheckAllInvariants chk (snapshot now r')) as [err'|]; [|done].
  injection Hres as ->. split; [done|]. split; [done|]. split; [|done].
  eexists. rewrite Htasks, lookup_insert_eq. done.
Qed.

Lemma CreateTask_violation_is_not_rolled_back_witness :
  tasks store_unchecked !! 2 = None
  ∧ ∃ task, tasks (CreateTask NewInvariantChecker "Task D" "fourth" PriorityLow
                     "alice" None [] [] 20 store_unchecked).2 !! 2 = Some task
            ∧ Title task = "Task D" ∧ Assignee task = "alice".
Proof.
  assert (CreateTask NewInvariantChecker "Task D" "fourth" PriorityLow "alice"
            None [] [] 20 store_unchecked
          = (Fail (Wrapf "invariant violation after task creation: %w"
                     (Wrapf "ValidTaskIds violated: %w"
                        (Errorf "task ID %d >= nextTaskID %d"))),
             (CreateTask NewInvariantChecker "Task D" "fourth" PriorityLow
                "alice" None [] [] 20 store_unchecked).2)) as Hrun.
  { vm_compute. reflexivity. }
  destruct (CreateTask_violation_is_not_rolled_back _ _ _ _ _ _ _ _ _ _ _ _ Hrun)
    as (_ & _ & _ & _ & Hfree & Hnew & _).
  split; [exact Hfree | exact Hnew].
Defined.

(** C6.  The task returned by a successful [CreateTask] is stored under its
    identifier; its status is [pending] when the requested dependency list
    is empty or every requested dependency is completed in the store, and
    [blocked] otherwise. *)
Theorem CreateTask_initial_status (chk : InvariantChecker)
    (title description : string) (priority : Priority) (assignee : UserID)
    (dueDate : option Time) (tags : list Tag) (dependencies : list TaskID)
    (now : Time) (r r' : MemoryRepository) (task : Task) :
  CreateTask chk title description priority assignee dueDate tags dependencies
    now r = (Ok task, r') →
  tasks r' !! ID task = Some task
  ∧ (dependencies = []
     ∨ (∀ depID, depID ∈ dependencies →
           ∃ dep, tasks r !! depID = Some dep ∧ Status dep = StatusCompleted) →
     Status task = StatusPending)
  ∧ (¬ (dependencies = []
        ∨ (∀ depID, depID ∈ dependencies →
              ∃ dep, tasks r !! depID = Some dep ∧ Status dep = StatusCompleted)) →
     Status task = StatusBlocked).
Proof.
  intros Hrun.
  apply CreateTask_inv in Hrun as [(e & [=] & _) | Hmut].
  destruct Hmut as (u & depMap & Hcu & Hval & Hfree & Htasks & Hnext & Hres).
  destruct (CheckAllInvariants chk (snapshot now r')); [done|].
  injection Hres as ->. cbn [ID Status].
  split; [by rewrite Htasks, lookup_insert_eq|].
  apply validateDependencies_ok in Hval as [-> Hex].
  unfold initialStatus.
  assert (allCompleted (list_to_set dependencies ∪ ∅) (tasks r) = true ↔
          ∀ depID, depID ∈ dependencies →
             ∃ dep, tasks r !! depID = Some dep ∧ Status dep = StatusCompleted)
    as Hall.
  { rewrite allCompleted_spec. split; intros H depID Hin; apply H; set_solver. }
  split.
  - intros [-> | Hdone]; [done|].
    case_bool_decide; [|done]. by rewrite (proj2 Hall Hdone).
  - intros Hnot. rewrite bool_decide_eq_true_2.
    + destruct (allCompleted _ _); [|done].
      exfalso. apply Hnot. right. by apply Hall.
    + destruct dependencies; simpl; [|lia]. exfalso. apply Hnot. by left.
Qed.

Lemma CreateTask_initial_status_witness :
  tasks store2 !! 2 = Some taskB ∧ Status taskB = StatusBlocked.
Proof.
  assert (CreateTask NewInvariantChecker "Task B" "second" PriorityHigh "alice"
            None [TagFeature] [1] 12 store1 = (Ok taskB, store2)) as Hrun.
  { vm_compute. reflexivity. }
  destruct (CreateTask_initial_status _ _ _ _ _ _ _ _ _ _ _ _ Hrun)
    as (Hstored & _ & Hblocked).
  split; [exact Hstored|]. apply Hblocked.
  intros [Hnil | Hdone]; [discriminate Hnil|].
  destruct (Hdone 1) as (dep & Hdep & Hst); [by apply list_elem_of_singleton|].
  vm_compute in Hdep. injection Hdep as <-. discriminate Hst.
Defined.

(** ** The dependency sweep *)

Lemma ShouldUnblock_spec (task : Task) (allTasks : gmap TaskID Task) :
  ShouldUnblock task allTasks = true ↔
  Status task = StatusBlocked
  ∧ ∀ depID dep, depID ∈ Dependencies task → allTasks !! depID = Some dep →
                 Status dep = StatusCompleted.
Proof.
  unfold ShouldUnblock. case_bool_decide as Hb; simpl.
  - rewrite negb_true_iff, existsb_incompleteDep_false. tauto.
  - split; [done | tauto].
Qed.

Lemma well_keyed_values (r : MemoryRepository) :
  well_keyed r → ID <$> (map_to_list (tasks r)).*2 = (map_to_list (tasks r)).*1.
Proof.
  intros Hwk.
  assert (∀ l : list (TaskID * Task),
            (∀ kv, kv ∈ l → ID kv.2 = kv.1) → ID <$> l.*2 = l.*1) as Hgen.
  { induction l as [|kv l IH]; intros Hall; simpl; [done|].
    rewrite Hall by apply list_elem_of_here.
    f_equal. apply IH. intros kv' Hin. apply Hall. by apply list_elem_of_further. }
  apply Hgen. intros [k t] Hin. simpl. apply (Hwk k t).
  by apply elem_of_map_to_list.
Qed.

Lemma elem_of_task_values (r : MemoryRepository) (task : Task) :
  well_keyed r →
  task ∈ (map_to_list (tasks r)).*2 ↔ tasks r !! ID task = Some task.
Proof.
  intros Hwk. rewrite list_elem_of_fmap. split.
  - intros ([k t] & -> & Hin). simpl. apply elem_of_map_to_list in Hin.
    by rewrite (Hwk k t Hin).
  - intros Hl. exists (ID task, task). split; [done|]. by apply elem_of_map_to_list.
Qed.

(** One run of the loop of [CheckDependencies] over tasks with distinct
    identifiers, each stored under its identifier. *)
Lemma unblockLoop_run (blockedTasks : list Task) (allTasks : gmap TaskID Task)
    (now : Time) (count : Z) (r : MemoryRepository) :
  NoDup (ID <$> blockedTasks) →
  (∀ task, task ∈ blockedTasks → tasks r !! ID task = Some task) →
  ∃ r',
    unblockLoop blockedTasks allTasks now count r
    = ((count + Z.of_nat (length (filter (λ task, ShouldUnblock task allTasks = true)
                                         blockedTasks)), None), r')
    ∧ r' = set_tasks r (tasks r')
    ∧ (∀ task, task ∈ blockedTasks →
         tasks r' !! ID task
         = Some (if ShouldUnblock task allTasks then unblocked now task else task))
    ∧ (∀ taskID, taskID ∉ ID <$> blockedTasks → tasks r' !! taskID = tasks r !! taskID).
Proof.
  revert count r.
  induction blockedTasks as [|task rest IH]; intros count r Hnd Hstored.
  - exists r. simpl. split; [by rewrite Z.add_0_r|]. split; [by destruct r|].
    split; [|done]. intros task Hin. by apply elem_of_nil in Hin.
  - rewrite fmap_cons in Hnd. apply NoDup_cons in Hnd as [Hfresh Hnd].
    simpl. rewrite filter_cons.
    destruct (ShouldUnblock task allTasks) eqn:Hsu.
    + assert (UpdateTask (set_UpdatedAt (set_Status task StatusPending) now) r
              = (Ok tt, set_tasks r (<[ID task := unblocked now task]> (tasks r))))
        as ->.
      { apply (UpdateTask_same_assignee r (unblocked now task) task); simpl;
          [apply Hstored, list_elem_of_here | done]. }
      destruct (IH (count + 1)
                  (set_tasks r (<[ID task := unblocked now task]> (tasks r))) Hnd)
        as (r' & Hrun & Heta & Hin & Hout).
      { intros t Ht. simpl. rewrite lookup_insert_ne.
        - apply Hstored. by apply list_elem_of_further.
        - intros Heq. apply Hfresh. rewrite Heq. apply list_elem_of_fmap. eauto. }
      exists r'. rewrite decide_True by done. simpl.
      split.
      { rewrite Hrun. cbn [length].
        by replace (count + 1 + Z.of_nat (length (filter (λ task0, ShouldUnblock task0 allTasks = true) rest)))
          with (count + Z.of_nat (S (length (filter (λ task0, ShouldUnblock task0 allTasks = true) rest))))
          by lia. }
      split; [by rewrite Heta; destruct r|].
      split.
      * intros t [-> | Ht]%elem_of_cons.
        -- rewrite Hout by done. simpl. by rewrite lookup_insert_eq, Hsu.
        -- by apply Hin.
      * intros taskID Hnot. rewrite ?fmap_cons, not_elem_of_cons in Hnot.
        destruct Hnot as [Hne Hnot]. rewrite Hout by done. simpl.
        by rewrite lookup_insert_ne.
    + destruct (IH count r Hnd) as (r' & Hrun & Heta & Hin & Hout).
      { intros t Ht. apply Hstored. by apply list_elem_of_further. }
      exists r'. rewrite decide_False by done.
      split; [done|]. split; [done|]. split.
      * intros t [-> | Ht]%elem_of_cons.
        -- rewrite Hout by done. rewrite Hsu. apply Hstored, list_elem_of_here.
        -- by apply Hin.
      * intros taskID Hnot. rewrite ?fmap_cons, not_elem_of_cons in Hnot.
        destruct Hnot as [Hne Hnot]. by apply Hout.
Qed.

(** The loop leaves the store as it is when no task of the list can be
    unblocked. *)
Lemma unblockLoop_nothing (blockedTasks : list Task) (allTasks : gmap TaskID Task)
    (now : Time) (count : Z) (r : MemoryRepository) :
  (∀ task, task ∈ blockedTasks → ShouldUnblock task allTasks = false) →
  unblockLoop blockedTasks allTasks now count r = ((count, None), r).
Proof.
  induction blockedTasks as [|task rest IH]; intros Hall; simpl; [done|].
  rewrite Hall by apply list_elem_of_here.
  apply IH. intros t Ht. apply Hall. by apply list_elem_of_further.
Qed.

(** [CheckDependencies] on a well-keyed store: it never fails, rewrites
    exactly the tasks that [ShouldUnblock] accepts and counts them. *)
Lemma CheckDependencies_run (r : MemoryRepository) (now : Time) :
  well_keyed r →
  ∃ r',
    CheckDependencies now r
    = ((Z.of_nat (length (filter (λ task, ShouldUnblock task (tasks r) = true)
                                 (map_to_list (tasks r)).*2)), None), r')
    ∧ r' = set_tasks r (tasks r')
    ∧ (∀ taskID task, tasks r !! taskID = Some task →
         tasks r' !! taskID
         = Some (if ShouldUnblock task (tasks r) then unblocked now task else task))
    ∧ (∀ taskID, tasks r !! taskID = None → tasks r' !! taskID = None).
Proof.
  intros Hwk. unfold CheckDependencies. run.
  set (blocked := filter (λ task, Status task = StatusBlocked)
                         (map_to_list (tasks r)).*2).
  assert (∀ task, task ∈ blocked →
            Status task = StatusBlocked ∧ tasks r !! ID task = Some task) as Hbl.
  { intros task [Hs Hin]%list_elem_of_filter. split; [done|].
    by apply elem_of_task_values. }
  destruct (unblockLoop_run blocked (tasks r) now 0 r)
    as (r' & Hrun & Heta & Hin & Hout).
  { eapply sublist_NoDup; [|apply fmap_sublist, sublist_filter].
    rewrite well_keyed_values by done. apply NoDup_fst_map_to_list. }
  { intros task Ht. by apply Hbl. }
  assert (∀ taskID task, tasks r !! taskID = Some task →
            Status task ≠ StatusBlocked → taskID ∉ ID <$> blocked) as Hnb.
  { intros taskID task Hl Hs (t & -> & Ht)%list_elem_of_fmap.
    destruct (Hbl t Ht) as [Hst Hlt]. congruence. }
  exists r'. split; [|split; [done|split]].
  - rewrite Hrun. unfold blocked. rewrite list_filter_filter_l; [done|].
    intros task Hsu. by apply ShouldUnblock_spec in Hsu as [? _].
  - intros taskID task Hl.
    destruct (decide (Status task = StatusBlocked)) as [Hs|Hs].
    + rewrite <- (Hwk taskID task Hl). apply Hin.
      apply list_elem_of_filter. split; [done|]. apply elem_of_task_values; [done|].
      by rewrite (Hwk taskID task Hl).
    + rewrite Hout by eauto. rewrite Hl.
      destruct (ShouldUnblock task (tasks r)) eqn:Hsu; [|done].
      by apply ShouldUnblock_spec in Hsu as [? _].
  - intros taskID Hl. rewrite Hout; [done|].
    intros (t & -> & Ht)%list_elem_of_fmap.
    destruct (Hbl t Ht) as [_ Hlt]. congruence.
Qed.

(** A second sweep finds nothing to unblock. *)
Lemma CheckDependencies_again (r r' : MemoryRepository) (now now' : Time) :
  (∀ taskID task, tasks r !! taskID = Some task →
     tasks r' !! taskID
     = Some (if ShouldUnblock task (tasks r) then unblocked now task else task)) →
  (∀ taskID, tasks r !! taskID = None → tasks r' !! taskID = None) →
  CheckDependencies now' r' = ((0, None), r').
Proof.
  intros Hsome Hnone. unfold CheckDependencies. run.
  apply unblockLoop_nothing.
  intros task [Hs Hin]%list_elem_of_filter.
  apply list_elem_of_fmap in Hin as ([k t] & -> & Hin). simpl in *.
  apply elem_of_map_to_list in Hin.
  destruct (tasks r !! k) as [t0|] eqn:Hk.
  2: { rewrite (Hnone k Hk) in Hin. done. }
  rewrite (Hsome k t0 Hk) in Hin. injection Hin as Ht.
  destruct (ShouldUnblock t0 (tasks r)) eqn:Hsu.
  { subst t. simpl in Hs. done. }
  subst t0.
  unfold ShouldUnblock in Hsu |- *.
  rewrite (bool_decide_eq_true_2 _ Hs) in Hsu |- *. simpl in *.
  apply negb_false_iff in Hsu. apply negb_false_iff.
  apply existsb_exists in Hsu as (d & Hd & Hinc).
  apply existsb_exists. exists d. split; [done|].
  unfold incompleteDep in *.
  destruct (tasks r !! d) as [td|] eqn:Htd; [|done].
  rewrite (Hsome d td Htd).
  destruct (ShouldUnblock td (tasks r)); [done|]. exact Hinc.
Qed.

Lemma ShouldUnblock_closed (r : MemoryRepository) (taskID : TaskID) (task : Task) :
  deps_closed r →
  tasks r !! taskID = Some task →
  ShouldUnblock task (tasks r) = true ↔
  Status task = StatusBlocked ∧ allDepsCompleted r task.
Proof.
  intros Hdc Hl. rewrite ShouldUnblock_spec. unfold allDepsCompleted.
  split; intros [Hs Hall]; (split; [done|]).
  - intros depID Hin. destruct (Hdc taskID task depID Hl Hin) as [dep Hdep].
    exists dep. split; [done|]. by apply (Hall depID).
  - intros depID dep Hin Hdep. destruct (Hall depID Hin) as (dep' & Hdep' & Hs').
    congruence.
Qed.

(** C7.  On a store that keeps every task under its identifier and every
    dependency among its tasks, [CheckDependencies] reports no error and
    returns the number of tasks it unblocked; it sets to [pending] exactly
    the blocked tasks all of whose dependencies are completed, leaves every
    other task as it was and adds none; a second sweep on the resulting
    store changes nothing and returns zero. *)
Theorem CheckDependencies_sweep (r : MemoryRepository) (now now' : Time) :
  well_keyed r →
  deps_closed r →
  ∃ r',
    CheckDependencies now r
    = ((Z.of_nat (length (filter (λ task, ShouldUnblock task (tasks r) = true)
                                 (map_to_list (tasks r)).*2)), None), r')
    ∧ r' = set_tasks r (tasks r')
    ∧ (∀ taskID task, tasks r !! taskID = Some task →
         (ShouldUnblock task (tasks r) = true ↔
          Status task = StatusBlocked ∧ allDepsCompleted r task)
         ∧ (Status task = StatusBlocked ∧ allDepsCompleted r task →
            tasks r' !! taskID = Some (unblocked now task))
         ∧ (¬ (Status task = StatusBlocked ∧ allDepsCompleted r task) →
            tasks r' !! taskID = Some task))
    ∧ (∀ taskID, tasks r !! taskID = None → tasks r' !! taskID = None)
    ∧ CheckDependencies now' r' = ((0, None), r').
Proof.
  intros Hwk Hdc.
  destruct (CheckDependencies_run r now Hwk) as (r' & Hrun & Heta & Hsome & Hnone).
  exists r'. repeat (split; [done|]). split; [|split; [done|]].
  - intros taskID task Hl.
    pose proof (ShouldUnblock_closed r taskID task Hdc Hl) as Hiff.
    split; [done|]. rewrite (Hsome taskID task Hl). split.
    + intros Hu. by rewrite (proj2 Hiff Hu).
    + intros Hnu. destruct (ShouldUnblock task (tasks r)); [|done].
      exfalso. by apply Hnu, Hiff.
  - by apply (CheckDependencies_again r r' now now').
Qed.

Lemma well_keyedb_correct (r : MemoryRepository) :
  well_keyedb r = true → well_keyed r.
Proof.
  unfold well_keyedb. rewrite forallb_forall. intros Hall taskID task Hl.
  specialize (Hall (taskID, task)). simpl in Hall.
  apply bool_decide_eq_true in Hall; [done|].
  by apply list_elem_of_In, elem_of_map_to_list.
Qed.

Lemma deps_closedb_correct (r : MemoryRepository) :
  deps_closedb r = true → deps_closed r.
Proof.
  unfold deps_closedb. rewrite forallb_forall. intros Hall taskID task depID Hl Hin.
  specialize (Hall (taskID, task)). simpl in Hall.
  rewrite forallb_forall in Hall.
  eapply bool_decide_eq_true, Hall.
  - by apply list_elem_of_In, elem_of_map_to_list.
  - by apply list_elem_of_In, elem_of_elements.
Qed.

Lemma store3_well_keyed : well_keyed store3.
Proof. apply well_keyedb_correct. vm_compute. reflexivity. Qed.

Lemma store3_deps_closed : deps_closed store3.
Proof. apply deps_closedb_correct. vm_compute. reflexivity. Qed.

Lemma CheckDependencies_sweep_witness :
  ∃ r', CheckDependencies 15 store3 = ((1, None), r')
        ∧ CheckDependencies 16 r' = ((0, None), r').
Proof.
  destruct (CheckDependencies_sweep store3 15 16 store3_well_keyed
              store3_deps_closed) as (r' & Hrun & _ & _ & _ & Hagain).
  exists r'. split; [|exact Hagain].
  rewrite Hrun. vm_compute. reflexivity.
Defined.

(** ** Deletion *)

Lemma dependents_nonempty (r : MemoryRepository) (taskID : TaskID) :
  (0 < length (filter (λ task, taskID ∈ Dependencies task)
                      (map_to_list (tasks r)).*2))%nat ↔
  ∃ otherID other, tasks r !! otherID = Some other ∧ taskID ∈ Dependencies other.
Proof.
  split.
  - intros Hlen.
    destruct (filter _ _) as [|other rest] eqn:Hf; [simpl in Hlen; lia|].
    assert (other ∈ filter (λ task, taskID ∈ Dependencies task)
                           (map_to_list (tasks r)).*2) as Hin.
    { rewrite Hf. apply list_elem_of_here. }
    apply list_elem_of_filter in Hin as [Hdep Hin].
    apply list_elem_of_fmap in Hin as ([k t] & -> & Hin).
    exists k, t. split; [by apply elem_of_map_to_list | done].
  - intros (otherID & other & Hl & Hdep).
    assert (other ∈ filter (λ task, taskID ∈ Dependencies task)
                           (map_to_list (tasks r)).*2) as Hin.
    { apply list_elem_of_filter. split; [done|].
      apply list_elem_of_fmap. exists (otherID, other).
      split; [done|]. by apply elem_of_map_to_list. }
    destruct (filter _ _); [by apply elem_of_nil in Hin | simpl; lia].
Qed.

(** C8.  [DeleteTask] by the authenticated assignee of a stored task fails,
    leaving the store unchanged, when the status is neither [completed] nor
    [cancelled], and when another task lists the task as a dependency,
    whatever the status of that task; for a completed or cancelled task
    that no task lists it succeeds, removes the task from the task map and
    from the index of its assignee, and touches nothing else. *)
Theorem DeleteTask_rules (r : MemoryRepository) (u : UserID) (taskID : TaskID)
    (task : Task) :
  currentUser r = Some u →
  tasks r !! taskID = Some task →
  Assignee task = u →
  (Status task ≠ StatusCompleted ∧ Status task ≠ StatusCancelled →
   ∃ err, DeleteTask taskID r = (Fail err, r))
  ∧ ((∃ otherID other, otherID ≠ taskID ∧ tasks r !! otherID = Some other
                       ∧ taskID ∈ Dependencies other) →
     ∃ err, DeleteTask taskID r = (Fail err, r))
  ∧ (Status task = StatusCompleted ∨ Status task = StatusCancelled →
     (∀ otherID other, tasks r !! otherID = Some other →
                       taskID ∉ Dependencies other) →
     ∃ r', DeleteTask taskID r = (Ok tt, r')
           ∧ tasks r' = delete taskID (tasks r)
           ∧ (∀ ids, userTasks r' !! u = Some ids → taskID ∉ ids)
           ∧ (∀ u', u' ≠ u → userTasks r' !! u' = userTasks r !! u')
           ∧ r' = set_tasks (set_userTasks r (userTasks r')) (tasks r')).
Proof.
  intros Hcu Htask Hown. split; [|split].
  - intros [Hnc Hnx]. unfold DeleteTask. run. rewrite Hcu. run. rewrite Htask. run.
    rewrite bool_decide_eq_false_2 by (intros Hne; by apply Hne). run.
    unfold CanDelete. rewrite !bool_decide_eq_false_2 by done. simpl.
    by eexists.
  - intros (otherID & other & _ & Hl & Hdep).
    unfold DeleteTask. run. rewrite Hcu. run. rewrite Htask. run.
    rewrite bool_decide_eq_false_2 by (intros Hne; by apply Hne). run.
    destruct (CanDelete task); run; [|by eexists].
    rewrite bool_decide_eq_true_2; [by eexists|].
    apply dependents_nonempty. eauto.
  - intros Hterm Hnodep.
    unfold DeleteTask. run. rewrite Hcu. run. rewrite Htask. run.
    rewrite bool_decide_eq_false_2 by (intros Hne; by apply Hne). run.
    assert (CanDelete task = true) as ->.
    { unfold CanDelete. destruct Hterm as [-> | ->]; done. }
    run. rewrite bool_decide_eq_false_2.
    2: { rewrite dependents_nonempty. intros (o & ot & Hl & Hd). by apply (Hnodep o ot). }
    run. unfold memory.DeleteTask. rewrite Htask, Hown.
    eexists. split; [done|]. simpl. split; [done|].
    destruct (userTasks r !! u) as [ids|] eqn:Hidx; simpl.
    + split; [|split; [|done]].
      * intros ids'. rewrite lookup_insert_eq. intros [= <-]. set_solver.
      * intros u' Hne. by rewrite lookup_insert_ne.
    + split; [|split; [done|by destruct r]].
      intros ids'. by rewrite Hidx.
Qed.

Lemma DeleteTask_rules_witness :
  (∃ err, DeleteTask 1 store3 = (Fail err, store3))
  ∧ ∃ r', DeleteTask 1 store_cancelled = (Ok tt, r')
          ∧ tasks r' = delete 1 (tasks store_cancelled).
Proof.
  split.
  - refine (proj1 (proj2 (DeleteTask_rules store3 "alice" 1
                            (set_UpdatedAt (set_Status taskA StatusCompleted) 14)
                            _ _ _)) _);
      try (vm_compute; reflexivity).
    exists 2, taskB. split; [done|]. split; [vm_compute; reflexivity|].
    unfold taskB. simpl. by apply elem_of_singleton.
  - destruct (proj2 (proj2 (DeleteTask_rules store_cancelled "alice" 1
                              (set_UpdatedAt (set_Status taskA StatusCancelled) 13)
                              ltac:(vm_compute; reflexivity)
                              ltac:(vm_compute; reflexivity)
                              ltac:(vm_compute; reflexivity)))
              ltac:(by right))
      as (r' & Hrun & Htasks & _).
    + intros otherID other Hl.
      destruct (decide (otherID = 1)) as [->|Hne].
      * vm_compute in Hl. injection Hl as <-. simpl. apply not_elem_of_empty.
      * exfalso. revert Hl.
        assert (tasks store_cancelled
                = {[1 := set_UpdatedAt (set_Status taskA StatusCancelled) 13]})
          as -> by (vm_compute; reflexivity).
        by rewrite lookup_singleton_ne.
    + exists r'. split; [exact Hrun | exact Htasks].
Defined.

(** ** Authentication *)

Lemma GetSessionByUser_none (r : MemoryRepository) (userID : UserID) (now : Time) :
  noValidSession r userID now →
  GetSessionByUser userID now r
  = (Fail (Errorf "no active session for user %s"), r).
Proof.
  intros Hnone. unfold GetSessionByUser.
  destruct (filter _ _) as [|session rest] eqn:Hf; [done|].
  assert (session ∈ filter (λ session, sUserID session = userID
                                       ∧ IsValid session now = true)
                           (map_to_list (sessions r)).*2) as Hin.
  { rewrite Hf. apply list_elem_of_here. }
  apply list_elem_of_filter in Hin as [[Hu Hv] Hin].
  apply list_elem_of_fmap in Hin as ([tok se] & -> & Hin).
  apply elem_of_map_to_list in Hin. simpl in *.
  by rewrite (Hnone tok se Hin Hu) in Hv.
Qed.

(** C10.  [Authenticate] looks only at the sessions of the user who logs
    in: while another user [a] is the current user, a known user [b]
    without valid session, given a fresh token, is authenticated as soon as
    the closing invariant check passes; the session is stored, the sessions
    already in the store are kept as they are, and the current user of the
    store is [b] from then on. *)
Theorem Authenticate_replaces_current_user (chk : InvariantChecker)
    (r : MemoryRepository) (a b : UserID) (user : User) (token : string)
    (now : Time) :
  currentUser r = Some a →
  a ≠ b →
  users r !! b = Some user →
  noValidSession r b now →
  sessions r !! token = None →
  CheckAllInvariants chk (snapshot now (authenticated r b user token now)) = None →
  Authenticate chk b token now r
  = (Ok (newSession user token now), authenticated r b user token now)
  ∧ currentUser (authenticated r b user token now) = Some b
  ∧ sessions (authenticated r b user token now) !! token
    = Some (newSession user token now)
  ∧ ∀ token' session, sessions r !! token' = Some session →
      sessions (authenticated r b user token now) !! token' = Some session.
Proof.
  intros Hcu Hab Huser Hnone Hfresh Hchk.
  split; [|split; [done|split]].
  - unfold Authenticate. run. rewrite Huser. run.
    rewrite (GetSessionByUser_none r b now Hnone). run.
    unfold CreateSession. cbn [Token]. rewrite Hfresh. run.
    fold (newSession user token now).
    change (set_currentUser
              (set_sessions r (<[token := newSession user token now]> (sessions r)))
              (Some b))
      with (authenticated r b user token now).
    by rewrite Hchk.
  - simpl. by rewrite lookup_insert_eq.
  - intros token' session Hl. simpl. rewrite lookup_insert_ne; [done|].
    intros <-. by rewrite Hfresh in Hl.
Qed.

Lemma store1_bob_noValidSession : noValidSession store1 "bob" 20.
Proof.
  intros token session.
  assert (sessions store1 = {[ "token-1" := newSession alice "token-1" 10 ]}) as ->
    by (vm_compute; reflexivity).
  intros [<- <-]%lookup_singleton_Some. simpl. discriminate.
Qed.

Lemma Authenticate_replaces_current_user_witness :
  Authenticate NewInvariantChecker "bob" "token-2" 20 store1
  = (Ok (newSession bob "token-2" 20), authenticated store1 "bob" bob "token-2" 20)
  ∧ currentUser (authenticated store1 "bob" bob "token-2" 20) = Some "bob".
Proof.
  destruct (Authenticate_replaces_current_user NewInvariantChecker store1
              "alice" "bob" bob "token-2" 20) as (Hrun & Hcu & _);
    try (vm_compute; reflexivity).
  - discriminate.
  - exact store1_bob_noValidSession.
  - split; [exact Hrun | exact Hcu].
Defined.

(** * Further properties of the code *)

(** ** Termination of the cycle detection *)

Lemma size_difference_insert (U visited : gset TaskID) (taskID : TaskID) (fuel : nat) :
  taskID ∈ U → taskID ∉ visited →
  (size (U ∖ visited) < S fuel)%nat →
  (size (U ∖ ({[taskID]} ∪ visited)) < fuel)%nat.
Proof.
  intros Hin Hnot Hlt.
  assert (U ∖ ({[taskID]} ∪ visited) ⊂ U ∖ visited) as Hsub by set_solver.
  apply subset_size in Hsub. lia.
Qed.

Lemma size_difference_mono (U v v' : gset TaskID) (fuel : nat) :
  v ⊆ v' → (size (U ∖ v) < fuel)%nat → (size (U ∖ v') < fuel)%nat.
Proof.
  intros Hsub Hlt.
  assert (U ∖ v' ⊆ U ∖ v) as Hs by set_solver.
  apply subseteq_size in Hs. lia.
Qed.

Lemma graphNodes_key (ts : gmap TaskID Task) (taskID : TaskID) (task : Task) :
  ts !! taskID = Some task → taskID ∈ invariants.graphNodes ts.
Proof.
  intros Hl. unfold invariants.graphNodes. apply elem_of_union_l, elem_of_dom. eauto.
Qed.

Lemma graphNodes_dep (ts : gmap TaskID Task) (taskID depID : TaskID) (task : Task) :
  ts !! taskID = Some task → depID ∈ Dependencies task →
  depID ∈ invariants.graphNodes ts.
Proof.
  intros Hl Hd. unfold invariants.graphNodes. apply elem_of_union_r.
  apply elem_of_union_list. exists (Dependencies task). split; [|done].
  apply list_elem_of_fmap. exists task. split; [done|].
  apply list_elem_of_fmap. exists (taskID, task). split; [done|].
  by apply elem_of_map_to_list.
Qed.

(** The depth-first search of the checker returns a verdict whenever the
    fuel exceeds the number of nodes not yet visited. *)
Lemma invariants_hasCycle_enough (ts : gmap TaskID Task) (U : gset TaskID) :
  (∀ taskID task depID, ts !! taskID = Some task → depID ∈ Dependencies task →
                        depID ∈ U) →
  ∀ (fuel : nat) (taskID : TaskID) (m : invariants.marks),
    taskID ∈ U → taskID ∉ m.1 → (size (U ∖ m.1) < fuel)%nat →
    ∃ b m', invariants.hasCycle fuel ts taskID m = Some (b, m') ∧ m.1 ⊆ m'.1.
Proof.
  intros Hdeps. induction fuel as [|fuel IH]; intros taskID m Hin Hnot Hlt; [lia|].
  cbn [invariants.hasCycle].
  destruct (ts !! taskID) as [task|] eqn:Htask.
  2: { eexists _, _. split; [done|]. simpl. set_solver. }
  set (m1 := ({[taskID]} ∪ m.1, {[taskID]} ∪ m.2)).
  assert (∀ (deps : list TaskID) (m0 : invariants.marks),
            (∀ d, d ∈ deps → d ∈ U) → (size (U ∖ m0.1) < fuel)%nat →
            ∃ b m',
              (fix loop (deps : list TaskID) (m : invariants.marks)
                 : option (bool * invariants.marks) :=
                 match deps with
                 | [] => Some (false, m)
                 | depID :: rest =>
                     if negb (bool_decide (depID ∈ m.1)) then
                       match invariants.hasCycle fuel ts depID m with
                       | None => None
                       | Some (true, m') => Some (true, m')
                       | Some (false, m') => loop rest m'
                       end
                     else if bool_decide (depID ∈ m.2) then Some (true, m)
                     else loop rest m
                 end) deps m0 = Some (b, m') ∧ m0.1 ⊆ m'.1) as Hloop.
  { induction deps as [|d rest IHd]; intros m0 Hall Hsz.
    - by eexists _, _.
    - case_bool_decide as Hvis; cbn [negb].
      + case_bool_decide.
        * by eexists _, _.
        * apply IHd; [|done]. intros d' Hd'. apply Hall. by apply list_elem_of_further.
      + destruct (IH d m0) as (b & m' & -> & Hsub); [|done|done|].
        { apply Hall, list_elem_of_here. }
        destruct b.
        * by eexists _, _.
        * destruct (IHd m') as (b' & m'' & -> & Hsub').
          -- intros d' Hd'. apply Hall. by apply list_elem_of_further.
          -- by apply (size_difference_mono U m0.1).
          -- eexists _, _. split; [done|]. set_solver. }
  destruct (Hloop (elements (Dependencies task)) m1) as (b & m' & -> & Hsub).
  { intros d Hd. apply elem_of_elements in Hd. by apply (Hdeps taskID task). }
  { by apply size_difference_insert. }
  destruct b; eexists _, _; (split; [done|]); simpl in *; set_solver.
Qed.

(** X1.  [hasCycle] of the invariant checker terminates: started on any id
    with empty marks and the fuel that [checkNoCyclicDependencies] passes,
    it returns a verdict, so the check never reports a cycle for lack of
    fuel. *)
Theorem invariants_hasCycle_total (ts : gmap TaskID Task) (taskID : TaskID) :
  is_Some (ts !! taskID) →
  ∃ b m', invariants.hasCycle (S (size (invariants.graphNodes ts))) ts taskID (∅, ∅)
          = Some (b, m').
Proof.
  intros [task Htask].
  destruct (invariants_hasCycle_enough ts (invariants.graphNodes ts))
    with (fuel := S (size (invariants.graphNodes ts))) (taskID := taskID)
         (m := ((∅, ∅) : invariants.marks)) as (b & m' & Hrun & _).
  - intros k t d Hk Hd. by apply (graphNodes_dep ts k d t).
  - by apply (graphNodes_key ts taskID task).
  - simpl. set_solver.
  - simpl. rewrite difference_empty_L. lia.
  - by exists b, m'.
Qed.

Lemma invariants_hasCycle_total_witness :
  ∃ b m', invariants.hasCycle (S (size (invariants.graphNodes (tasks store2))))
            (tasks store2) 2 (∅, ∅) = Some (b, m').
Proof.
  apply invariants_hasCycle_total. exists taskB. vm_compute. reflexivity.
Defined.

Lemma usecase_hasCycle_enough (newTaskID : TaskID) (dependencies : gset TaskID)
    (allTasks : gmap TaskID Task) (U : gset TaskID) :
  (∀ taskID task depID, allTasks !! taskID = Some task →
                        depID ∈ Dependencies task → depID ∈ U) →
  dependencies ⊆ U →
  ∀ (fuel : nat) (taskID : TaskID) (m : invariants.marks),
    taskID ∈ U → taskID ∉ m.1 → (size (U ∖ m.1) < fuel)%nat →
    ∃ b m', usecase.hasCycle fuel newTaskID dependencies allTasks taskID m
            = Some (b, m') ∧ m.1 ⊆ m'.1.
Proof.
  intros Hdeps Hnew.
  induction fuel as [|fuel IH]; intros taskID m Hin Hnot Hlt; [lia|].
  cbn [usecase.hasCycle].
  set (m1 := ({[taskID]} ∪ m.1, {[taskID]} ∪ m.2)).
  assert (∀ (deps : list TaskID) (m0 : invariants.marks),
            (∀ d, d ∈ deps → d ∈ U) → (size (U ∖ m0.1) < fuel)%nat →
            ∃ b m',
              (fix loop (deps : list TaskID) (m : invariants.marks)
                 : option (bool * invariants.marks) :=
                 match deps with
                 | [] => Some (false, m)
                 | depID :: rest =>
                     if negb (bool_decide (depID ∈ m.1)) then
                       match usecase.hasCycle fuel newTaskID dependencies allTasks
                               depID m with
                       | None => None
                       | Some (true, m') => Some (true, m')
                       | Some (false, m') => loop rest m'
                       end
                     else if bool_decide (depID ∈ m.2) then Some (true, m)
                     else loop rest m
                 end) deps m0 = Some (b, m') ∧ m0.1 ⊆ m'.1) as Hloop.
  { induction deps as [|d rest IHd]; intros m0 Hall Hsz.
    - by eexists _, _.
    - case_bool_decide as Hvis; cbn [negb].
      + case_bool_decide.
        * by eexists _, _.
        * apply IHd; [|done]. intros d' Hd'. apply Hall. by apply list_elem_of_further.
      + destruct (IH d m0) as (b & m' & -> & Hsub); [|done|done|].
        { apply Hall, list_elem_of_here. }
        destruct b.
        * by eexists _, _.
        * destruct (IHd m') as (b' & m'' & -> & Hsub').
          -- intros d' Hd'. apply Hall. by apply list_elem_of_further.
          -- by apply (size_difference_mono U m0.1).
          -- eexists _, _. split; [done|]. set_solver. }
  assert ((size (U ∖ m1.1) < fuel)%nat) as Hm1 by by apply size_difference_insert.
  destruct (allTasks !! taskID) as [task|] eqn:Htask.
  - destruct (Hloop (elements (Dependencies task)) m1) as (b & m' & -> & Hsub);
      [|done|].
    { intros d Hd. apply elem_of_elements in Hd. by apply (Hdeps taskID task). }
    destruct b; eexists _, _; (split; [done|]); simpl in *; set_solver.
  - case_bool_decide.
    + destruct (Hloop (elements dependencies) m1) as (b & m' & -> & Hsub); [|done|].
      { intros d Hd. apply elem_of_elements in Hd. by apply Hnew. }
      destruct b; eexists _, _; (split; [done|]); simpl in *; set_solver.
    + eexists _, _. split; [done|]. simpl. set_solver.
Qed.

(** X2.  The cycle detection of [CreateTask] terminates within the fuel
    that [checkCyclicDependencies] passes: the search from the new
    identifier always returns a verdict, so "cyclic dependency detected" is
    reported only when the search found a back edge. *)
Theorem checkCyclicDependencies_decided (newTaskID : TaskID)
    (dependencies : gset TaskID) (allTasks : gmap TaskID Task) :
  ∃ b m',
    usecase.hasCycle
      (S (size ({[newTaskID]} ∪ dependencies ∪ invariants.graphNodes allTasks)))
      newTaskID dependencies allTasks newTaskID (∅, ∅) = Some (b, m')
    ∧ (checkCyclicDependencies newTaskID dependencies allTasks = None ↔ b = false).
Proof.
  destruct (usecase_hasCycle_enough newTaskID dependencies allTasks
              ({[newTaskID]} ∪ dependencies ∪ invariants.graphNodes allTasks))
    with (fuel := S (size ({[newTaskID]} ∪ dependencies
                           ∪ invariants.graphNodes allTasks)))
         (taskID := newTaskID) (m := ((∅, ∅) : invariants.marks))
    as (b & m' & Hrun & _).
  - intros k t d Hk Hd. apply elem_of_union_r. by apply (graphNodes_dep allTasks k d t).
  - set_solver.
  - set_solver.
  - simpl. set_solver.
  - simpl. rewrite difference_empty_L. lia.
  - exists b, m'. split; [done|].
    unfold checkCyclicDependencies. rewrite Hrun. by destruct b.
Qed.

(** ** What the invariant checker accepts *)

Lemma forTasks_None (body : TaskID → Task → option error) (ts : gmap TaskID Task) :
  invariants.forTasks body ts = None ↔
  ∀ taskID task, ts !! taskID = Some task → body taskID task = None.
Proof.
  unfold invariants.forTasks.
  assert (∀ l : list (TaskID * Task),
            foldr (λ entry rest,
                     match body entry.1 entry.2 with
                     | Some err => Some err
                     | None => rest
                     end) None l = None ↔
            ∀ entry, entry ∈ l → body entry.1 entry.2 = None) as Hgen.
  { induction l as [|e l IH]; simpl.
    - split; [|done]. intros _ entry Hin. by apply elem_of_nil in Hin.
    - destruct (body e.1 e.2) eqn:Hb.
      + split; [done|]. intros Hall. rewrite Hall in Hb; [done|apply list_elem_of_here].
      + rewrite IH. split.
        * intros Hall entry [->|Hin]%elem_of_cons; [done | by apply Hall].
        * intros Hall entry Hin. apply Hall. by apply list_elem_of_further. }
  rewrite Hgen. split.
  - intros Hall k t Hl. apply (Hall (k, t)). by apply elem_of_map_to_list.
  - intros Hall [k t] Hin. apply Hall. by apply elem_of_map_to_list.
Qed.

Lemma noDuplicateLoop_run (entries : list (TaskID * Task)) (seenIDs : gset TaskID) :
  NoDup entries.*1 →
  (∀ k, k ∈ entries.*1 → k ∉ seenIDs) →
  invariants.noDuplicateLoop entries seenIDs
  = if bool_decide (Forall (λ entry : TaskID * Task, entry.1 = ID entry.2) entries)
    then None
    else Some (Errorf "task map key %d doesn't match task.ID %d").
Proof.
  revert seenIDs. induction entries as [|[k t] rest IH]; intros seen Hnd Hfresh.
  - done.
  - rewrite fmap_cons in Hnd. apply NoDup_cons in Hnd as [Hk Hnd]. simpl.
    destruct (decide (k = ID t)) as [Heq|Hne].
    + rewrite (bool_decide_eq_false_2 (k ≠ ID t)) by (intros Hn; by apply Hn).
      rewrite (bool_decide_eq_false_2 (ID t ∈ seen)).
      2: { rewrite <- Heq. apply Hfresh. simpl. apply list_elem_of_here. }
      rewrite IH; [|done|].
      * rewrite (bool_decide_ext
                   (Forall (λ entry : TaskID * Task, entry.1 = ID entry.2)
                           ((k, t) :: rest))
                   (Forall (λ entry : TaskID * Task, entry.1 = ID entry.2) rest));
          [done|].
        rewrite Forall_cons. simpl. tauto.
      * intros k' Hk' [Hi|Hi]%elem_of_union.
        -- apply elem_of_singleton in Hi. subst k'. rewrite <- Heq in Hk'. by apply Hk.
        -- apply (Hfresh k'); [|done]. simpl. by apply list_elem_of_further.
    + rewrite (bool_decide_eq_true_2 (k ≠ ID t)) by done.
      rewrite bool_decide_eq_false_2; [done|].
      intros Hall. apply Hne. by apply Forall_cons_1 in Hall as [? _].
Qed.

Lemma noDuplicate_check_outcomes (state : SystemState) :
  invariants.checkNoDuplicateTaskIds state ≠ Some (Errorf "duplicate task ID %d")
  ∧ (invariants.checkNoDuplicateTaskIds state = None ↔
     ∀ taskID task, Tasks state !! taskID = Some task → ID task = taskID).
Proof.
  unfold invariants.checkNoDuplicateTaskIds.
  rewrite noDuplicateLoop_run;
    [|apply NoDup_fst_map_to_list | intros; apply not_elem_of_empty].
  case_bool_decide as Hall; rewrite Forall_forall in Hall.
  - split; [done|]. split; [|done]. intros _ k t Hl.
    symmetry. apply (Hall (k, t)). by apply elem_of_map_to_list.
  - split; [done|]. split; [done|]. intros Hkeys. exfalso. apply Hall.
    intros [k t] Hin. simpl. symmetry. apply Hkeys. by apply elem_of_map_to_list.
Qed.

(** X3.  The error "duplicate task ID" of [checkNoDuplicateTaskIds] is dead
    code: the check passes exactly when every key of the task map equals
    the [ID] of its task, and otherwise reports the key mismatch. *)
Theorem checkNoDuplicateTaskIds_outcomes (state : SystemState) :
  invariants.checkNoDuplicateTaskIds state ≠ Some (Errorf "duplicate task ID %d")
  ∧ (invariants.checkNoDuplicateTaskIds state = None ↔
     ∀ taskID task, Tasks state !! taskID = Some task → ID task = taskID).
Proof.
  exact (noDuplicate_check_outcomes state).
Qed.

Lemma validStates_spec (status : TaskStatus) :
  default false (invariants.validStates !! status) = isValidStatus status.
Proof.
  unfold invariants.validStates, isValidStatus. simpl.
  rewrite !lookup_insert, lookup_empty.
  unfold StatusPending, StatusInProgress, StatusCompleted, StatusCancelled,
    StatusBlocked.
  repeat case_decide; subst; simpl; try done.
Qed.

Lemma orElse_None (check rest : option error) (format : string) :
  invariants.orElse check format rest = None ↔ check = None ∧ rest = None.
Proof. destruct check; simpl; [split; [done | by intros [? _]] | tauto]. Qed.

Lemma existsb_id_elem_of (x : TaskID) (l : list TaskID) :
  existsb (λ id, bool_decide (id = x)) l = true ↔ x ∈ l.
Proof. apply existsb_eq_elem_of. Qed.

Lemma if_None {A} (b : bool) (e : A) : (if b then None else Some e) = None ↔ b = true.
Proof. by destruct b. Qed.

Lemma if_Some_None {A} (b : bool) (e : A) : (if b then Some e else None) = None ↔ b = false.
Proof. by destruct b. Qed.

Lemma CheckAllInvariants_None_iff (state : SystemState) :
  invariants.CheckAllInvariants state = None ↔
  ∀ taskID task, Tasks state !! taskID = Some task →
    taskID ∈ domain.GetUserTasks state (Assignee task)
    ∧ 1 ≤ taskID < NextTaskID state
    ∧ ID task = taskID
    ∧ isValidStatus (Status task) = true
    ∧ CreatedAt task ≤ UpdatedAt task
    ∧ (∃ m', invariants.hasCycle (S (size (invariants.graphNodes (Tasks state))))
               (Tasks state) taskID (∅, ∅) = Some (false, m'))
    ∧ CreatedBy task ≠ "".
Proof.
  unfold invariants.CheckAllInvariants. rewrite !orElse_None.
  unfold invariants.checkNoOrphanTasks, invariants.checkTaskOwnership,
    invariants.checkValidTaskIds, invariants.checkValidStateTransitions,
    invariants.checkConsistentTimestamps, invariants.checkNoCyclicDependencies,
    invariants.checkAuthenticationRequired.
  rewrite !forTasks_None.
  rewrite (proj2 (noDuplicate_check_outcomes state)).
  split.
  - intros (_ & Hown & Hids & Hkey & Hst & Hts & Hcyc & Hcr & _) taskID task Hl.
    specialize (Hown _ _ Hl). specialize (Hids _ _ Hl). specialize (Hkey _ _ Hl).
    specialize (Hst _ _ Hl). specialize (Hts _ _ Hl). specialize (Hcyc _ _ Hl).
    specialize (Hcr _ _ Hl).
    apply if_None, existsb_id_elem_of in Hown.
    split; [done|]. split.
    { repeat case_bool_decide; try done. lia. }
    split; [done|]. split.
    { apply if_Some_None, negb_false_iff in Hst. by rewrite validStates_spec in Hst. }
    split.
    { apply if_Some_None, bool_decide_eq_false in Hts. lia. }
    split.
    { destruct (invariants.hasCycle _ _ _ _) as [[[] m']|]; try done. by exists m'. }
    by apply if_Some_None, bool_decide_eq_false in Hcr.
  - intros Hall. repeat split; try done.
    + intros taskID task Hl.
      destruct (Hall _ _ Hl) as (Hown & _). apply if_None.
      apply existsb_exists. exists (domain.GetUserTasks state (Assignee task)).
      split; [|by apply existsb_id_elem_of].
      apply list_elem_of_In. unfold domain.GetUserTasks in *.
      destruct (UserTasks state !! Assignee task) as [l|] eqn:Hu;
        [|by apply elem_of_nil in Hown].
      apply list_elem_of_fmap. exists (Assignee task, l). split; [done|].
      by apply elem_of_map_to_list.
    + intros taskID task Hl. destruct (Hall _ _ Hl) as (Hown & _).
      by apply if_None, existsb_id_elem_of.
    + intros taskID task Hl. destruct (Hall _ _ Hl) as (_ & Hids & _).
      rewrite !bool_decide_eq_false_2 by lia. done.
    + intros taskID task Hl. by destruct (Hall _ _ Hl) as (_ & _ & Hkey & _).
    + intros taskID task Hl. destruct (Hall _ _ Hl) as (_ & _ & _ & Hst & _).
      apply if_Some_None, negb_false_iff. by rewrite validStates_spec.
    + intros taskID task Hl. destruct (Hall _ _ Hl) as (_ & _ & _ & _ & Hts & _).
      apply if_Some_None, bool_decide_eq_false. lia.
    + intros taskID task Hl.
      destruct (Hall _ _ Hl) as (_ & _ & _ & _ & _ & (m' & ->) & _). done.
    + intros taskID task Hl.
      destruct (Hall _ _ Hl) as (_ & _ & _ & _ & _ & _ & Hcr).
      by apply if_Some_None, bool_decide_eq_false.
Qed.

(** X4.  What a passing [CheckAllInvariants] means: the checker returns no
    error exactly when every task of the snapshot is listed in the task
    list of its assignee, has an identifier from 1 up to (not including)
    the counter, is keyed by its own [ID], carries one of the five
    statuses, was not updated before it was created, is not found on a
    dependency cycle by [hasCycle], and names a creator. *)
Theorem CheckAllInvariants_accepts_iff (state : SystemState) :
  invariants.CheckAllInvariants state = None ↔
  ∀ taskID task, Tasks state !! taskID = Some task →
    taskID ∈ domain.GetUserTasks state (Assignee task)
    ∧ 1 ≤ taskID < NextTaskID state
    ∧ ID task = taskID
    ∧ isValidStatus (Status task) = true
    ∧ CreatedAt task ≤ UpdatedAt task
    ∧ (∃ m', invariants.hasCycle (S (size (invariants.graphNodes (Tasks state))))
               (Tasks state) taskID (∅, ∅) = Some (false, m'))
    ∧ CreatedBy task ≠ "".
Proof.
  exact (CheckAllInvariants_None_iff state).
Qed.

(** ** The task index *)

Lemma owns_insert (r : MemoryRepository) (index : gmap UserID (gset TaskID))
    (a u : UserID) (ids : gset TaskID) (taskID : TaskID) :
  userTasks r = <[a := ids]> index →
  owns r u taskID ↔
  (u = a ∧ taskID ∈ ids) ∨ (u ≠ a ∧ ∃ ids', index !! u = Some ids' ∧ taskID ∈ ids').
Proof.
  intros Hidx. unfold owns. rewrite Hidx.
  destruct (decide (u = a)) as [->|Hne].
  - rewrite lookup_insert_eq. split.
    + intros (ids' & [= <-] & Hin). by left.
    + intros [[_ Hin] | [Hne _]]; [by exists ids | done].
  - rewrite lookup_insert_ne by done. split.
    + intros Hex. by right.
    + intros [[Heq _] | [_ Hex]]; [done | done].
Qed.

(** Adding [taskID] to the index of [a], as [CreateTask], [UpdateTask] and
    [AddUserTask] do. *)
Lemma owns_added (r r0 : MemoryRepository) (a u : UserID) (taskID x : TaskID) :
  userTasks r
  = <[a := {[taskID]} ∪ default ∅ (userTasks r0 !! a)]> (userTasks r0) →
  owns r u x ↔ (u = a ∧ x = taskID) ∨ owns r0 u x.
Proof.
  intros Hidx. rewrite (owns_insert r _ _ _ _ _ Hidx). unfold owns.
  destruct (userTasks r0 !! a) as [ids|] eqn:Ha; simpl.
  - split.
    + intros [[-> [Hx|Hx]%elem_of_union] | [Hne Hex]].
      * left. split; [done|]. set_solver.
      * right. by exists ids.
      * by right.
    + intros [[-> ->] | (ids' & Hl & Hin)].
      * left. split; [done|]. set_solver.
      * destruct (decide (u = a)) as [->|Hne].
        -- left. split; [done|]. rewrite Ha in Hl. injection Hl as <-. set_solver.
        -- right. split; [done|]. by exists ids'.
  - split.
    + intros [[-> Hx] | [Hne Hex]]; [left | by right].
      split; [done|]. set_solver.
    + intros [[-> ->] | (ids' & Hl & Hin)].
      * left. split; [done|]. set_solver.
      * destruct (decide (u = a)) as [->|Hne]; [by rewrite Ha in Hl|].
        right. split; [done|]. by exists ids'.
Qed.

(** Removing [taskID] from the index of [a], as [UpdateTask], [DeleteTask]
    and [RemoveUserTask] do. *)
Lemma owns_removed (r r0 : MemoryRepository) (a u : UserID) (taskID x : TaskID) :
  userTasks r
  = match userTasks r0 !! a with
    | Some ids => <[a := ids ∖ {[taskID]}]> (userTasks r0)
    | None => userTasks r0
    end →
  owns r u x ↔ owns r0 u x ∧ ¬ (u = a ∧ x = taskID).
Proof.
  intros Hidx. destruct (userTasks r0 !! a) as [ids|] eqn:Ha.
  - rewrite (owns_insert r _ _ _ _ _ Hidx). unfold owns. split.
    + intros [[-> Hx] | [Hne Hex]].
      * split; [exists ids; split; [done|set_solver]|]. intros [_ ->]. set_solver.
      * split; [done|]. by intros [? _].
    + intros [(ids' & Hl & Hin) Hnot].
      destruct (decide (u = a)) as [->|Hne].
      * left. split; [done|]. rewrite Ha in Hl. injection Hl as <-.
        apply elem_of_difference. split; [done|].
        intros ->%elem_of_singleton. by apply Hnot.
      * right. split; [done|]. by exists ids'.
  - unfold owns. rewrite Hidx. split.
    + intros (ids' & Hl & Hin). split; [by exists ids'|].
      intros [-> _]. by rewrite Ha in Hl.
    + by intros [? _].
Qed.

(** ** Operations that keep the shape of the store *)

Lemma shape_eq_refl (m : gmap TaskID Task) : shape_eq m m.
Proof. intros k. unfold entry_shape_eq. by destruct (m !! k). Qed.

Lemma shape_eq_trans (m1 m2 m3 : gmap TaskID Task) :
  shape_eq m1 m2 → shape_eq m2 m3 → shape_eq m1 m3.
Proof.
  intros H12 H23 k. specialize (H12 k). specialize (H23 k).
  unfold entry_shape_eq in *.
  destruct (m1 !! k), (m2 !! k), (m3 !! k); try done.
  destruct H12 as (? & ? & ?), H23 as (? & ? & ?). repeat split; congruence.
Qed.

Lemma shape_eq_insert (m : gmap TaskID Task) (taskID : TaskID) (task task' : Task) :
  m !! taskID = Some task →
  ID task' = ID task → Assignee task' = Assignee task →
  Dependencies task' = Dependencies task →
  shape_eq m (<[taskID := task']> m).
Proof.
  intros Hl Hi Ha Hd k. unfold entry_shape_eq.
  destruct (decide (k = taskID)) as [->|Hne].
  - by rewrite Hl, lookup_insert_eq.
  - rewrite lookup_insert_ne by done. by destruct (m !! k).
Qed.

Lemma shape_eq_alter (m : gmap TaskID Task) (taskID : TaskID) (f : Task → Task) :
  (∀ task, ID (f task) = ID task ∧ Assignee (f task) = Assignee task
           ∧ Dependencies (f task) = Dependencies task) →
  shape_eq m (alter f taskID m).
Proof.
  intros Hf k. unfold entry_shape_eq.
  destruct (decide (k = taskID)) as [->|Hne].
  - rewrite lookup_alter_eq. destruct (m !! taskID); simpl; [apply Hf | done].
  - rewrite lookup_alter_ne by done. by destruct (m !! k).
Qed.

Lemma same_shape_refl (r r' : MemoryRepository) :
  tasks r' = tasks r → userTasks r' = userTasks r → nextTaskID r' = nextTaskID r →
  same_shape r r'.
Proof. intros Ht Hu Hn. repeat split; [done..|]. rewrite Ht. apply shape_eq_refl. Qed.

Lemma same_shape_consistent (r r' : MemoryRepository) :
  same_shape r r' → consistent r → consistent r'.
Proof.
  intros (Hu & Hn & Hs) (Hwk & Hix & Hdc & Hone & Hids).
  assert (∀ k t', tasks r' !! k = Some t' →
            ∃ t, tasks r !! k = Some t ∧ ID t' = ID t ∧ Assignee t' = Assignee t
                 ∧ Dependencies t' = Dependencies t) as Hback.
  { intros k t' Hl. specialize (Hs k). unfold entry_shape_eq in Hs. rewrite Hl in Hs.
    destruct (tasks r !! k) as [t|]; [|done]. by exists t. }
  assert (∀ k t, tasks r !! k = Some t →
            ∃ t', tasks r' !! k = Some t' ∧ ID t' = ID t ∧ Assignee t' = Assignee t
                  ∧ Dependencies t' = Dependencies t) as Hforth.
  { intros k t Hl. specialize (Hs k). unfold entry_shape_eq in Hs. rewrite Hl in Hs.
    destruct (tasks r' !! k) as [t'|]; [|done]. by exists t'. }
  split; [|split; [|split]].
  - intros k t' Hl. destruct (Hback k t' Hl) as (t & Hlt & -> & _). by apply (Hwk k).
  - intros u k. unfold owns. rewrite Hu. fold (owns r u k). rewrite (Hix u k). split.
    + intros (t & Hl & Ha). destruct (Hforth k t Hl) as (t' & Hl' & _ & Ha' & _).
      exists t'. split; [done | congruence].
    + intros (t' & Hl & Ha). destruct (Hback k t' Hl) as (t & Hl' & _ & Ha' & _).
      exists t. split; [done | congruence].
  - intros k t' d Hl Hd. destruct (Hback k t' Hl) as (t & Hlt & _ & _ & Hdeps).
    rewrite Hdeps in Hd. destruct (Hdc k t d Hlt Hd) as [td Htd].
    destruct (Hforth d td Htd) as (td' & Htd' & _). by exists td'.
  - split; [by rewrite Hn|]. intros k t' Hl.
    destruct (Hback k t' Hl) as (t & Hlt & _). rewrite Hn. by apply (Hids k t).
Qed.

Ltac unchanged := simpl; by apply same_shape_refl.

Lemma UpdateTask_same_shape (r : MemoryRepository) (task task' : Task) :
  well_keyed r →
  tasks r !! ID task' = Some task →
  Assignee task' = Assignee task →
  Dependencies task' = Dependencies task →
  UpdateTask task' r = (Ok tt, set_tasks r (<[ID task' := task']> (tasks r)))
  ∧ same_shape r (set_tasks r (<[ID task' := task']> (tasks r))).
Proof.
  intros Hwk Hl Ha Hd. split; [by apply (UpdateTask_same_assignee r task' task)|].
  repeat split; [done..|]. simpl.
  apply (shape_eq_insert _ _ task); try done. by rewrite (Hwk _ _ Hl).
Qed.

Lemma Authenticate_same_shape (chk : InvariantChecker) (userID : UserID)
    (token : string) (now : Time) (r : MemoryRepository) :
  same_shape r (Authenticate chk userID token now r).2.
Proof.
  unfold Authenticate. run.
  destruct (users r !! userID); run; [|unchanged].
  destruct (GetSessionByUser userID now r) as [[s|e] r0] eqn:Hs.
  - assert (r0 = r) as ->.
    { unfold GetSessionByUser in Hs. destruct (filter _ _); by injection Hs. }
    run. destruct (IsValid s now); run; [unchanged|].
    unfold CreateSession. cbn [Token].
    destruct (sessions r !! token); run; [unchanged|].
    destruct (CheckAllInvariants chk _); unchanged.
  - assert (r0 = r) as ->.
    { unfold GetSessionByUser in Hs. destruct (filter _ _); by injection Hs. }
    run. unfold CreateSession. cbn [Token].
    destruct (sessions r !! token); run; [unchanged|].
    destruct (CheckAllInvariants chk _); unchanged.
Qed.

Lemma Logout_same_shape (userID : UserID) (now : Time) (r : MemoryRepository) :
  same_shape r (Logout userID now r).2.
Proof.
  unfold Logout. run.
  destruct (currentUser r) as [u|]; run; [|unchanged].
  destruct (bool_decide (u ≠ userID)); run; [unchanged|].
  destruct (GetSessionByUser userID now r) as [[s|e] r0] eqn:Hs;
    (assert (r0 = r) as ->;
     [unfold GetSessionByUser in Hs; destruct (filter _ _); by injection Hs|]);
    run; [|unchanged].
  unfold UpdateSession. cbn [Token set_Active].
  destruct (sessions r !! Token s); unchanged.
Qed.

Lemma UpdateTaskStatus_same_shape (chk : InvariantChecker) (taskID : TaskID)
    (newStatus : TaskStatus) (now : Time) (r : MemoryRepository) :
  well_keyed r →
  same_shape r (UpdateTaskStatus chk taskID newStatus now r).2.
Proof.
  intros Hwk. unfold UpdateTaskStatus. run.
  destruct (currentUser r) as [u|]; run; [|unchanged].
  destruct (tasks r !! taskID) as [task|] eqn:Htask; run; [|unchanged].
  destruct (existsb _ _); run; [|unchanged].
  destruct (IsValidTransition _ _); run; [|unchanged].
  pose proof (Hwk _ _ Htask) as Hid.
  destruct (UpdateTask_same_shape r task
              (set_UpdatedAt (set_Status task newStatus) now) Hwk)
    as [Hupd Hshape]; [simpl; by rewrite Hid | done | done |].
  case_bool_decide; run.
  - destruct (dependenciesCompleted task _); run; [|unchanged].
    rewrite Hupd. run. by destruct (CheckAllInvariants chk _).
  - rewrite Hupd. run. by destruct (CheckAllInvariants chk _).
Qed.

Lemma UpdateTaskPriority_same_shape (taskID : TaskID) (newPriority : Priority)
    (now : Time) (r : MemoryRepository) :
  well_keyed r →
  same_shape r (UpdateTaskPriority taskID newPriority now r).2.
Proof.
  intros Hwk. unfold UpdateTaskPriority. run.
  destruct (currentUser r) as [u|]; run; [|unchanged].
  destruct (tasks r !! taskID) as [task|] eqn:Htask; run; [|unchanged].
  destruct (bool_decide (Assignee task ≠ u)); run; [unchanged|].
  pose proof (Hwk _ _ Htask) as Hid.
  destruct (UpdateTask_same_shape r task
              (set_UpdatedAt (set_Priority task newPriority) now) Hwk)
    as [Hupd Hshape]; [simpl; by rewrite Hid | done | done |].
  by rewrite Hupd.
Qed.

Lemma UpdateTaskDetails_same_shape (taskID : TaskID) (title description : string)
    (dueDate : option Time) (now : Time) (r : MemoryRepository) :
  well_keyed r →
  same_shape r (UpdateTaskDetails taskID title description dueDate now r).2.
Proof.
  intros Hwk. unfold UpdateTaskDetails. run.
  destruct (currentUser r) as [u|]; run; [|unchanged].
  destruct (tasks r !! taskID) as [task|] eqn:Htask; run; [|unchanged].
  destruct (bool_decide (Assignee task ≠ u)); run; [unchanged|].
  destruct (Validate _); run; [unchanged|].
  pose proof (Hwk _ _ Htask) as Hid.
  destruct (UpdateTask_same_shape r task
              (set_UpdatedAt
                 (set_DueDate (set_Description (set_Title task title) description)
                    dueDate) now) Hwk)
    as [Hupd Hshape]; [simpl; by rewrite Hid | done | done |].
  by rewrite Hupd.
Qed.

Lemma CheckDependencies_same_shape (now : Time) (r : MemoryRepository) :
  well_keyed r → same_shape r (CheckDependencies now r).2.
Proof.
  intros Hwk.
  destruct (CheckDependencies_run r now Hwk) as (r' & -> & Heta & Hsome & Hnone).
  simpl. rewrite Heta. repeat split; [done..|]. simpl.
  intros k. unfold entry_shape_eq.
  destruct (tasks r !! k) as [t|] eqn:Hk.
  - rewrite (Hsome k t Hk). by destruct (ShouldUnblock t (tasks r)).
  - by rewrite (Hnone k Hk).
Qed.

Lemma memory_BulkUpdateStatus_shape (taskIDs : list TaskID) (status : TaskStatus)
    (now : Time) (m : gmap TaskID Task) :
  shape_eq m
    (foldl (λ ts id, alter (λ task, set_UpdatedAt (set_Status task status) now) id ts)
           m taskIDs).
Proof.
  revert m. induction taskIDs as [|id rest IH]; intros m; simpl.
  - apply shape_eq_refl.
  - eapply shape_eq_trans; [|apply IH]. by apply shape_eq_alter.
Qed.

Lemma bulkCheck_unchanged (u : UserID) (taskIDs : list TaskID)
    (newStatus : TaskStatus) (r : MemoryRepository) :
  (bulkCheck u taskIDs newStatus r).2 = r.
Proof.
  induction taskIDs as [|id rest IH]; simpl; [done|]. run.
  destruct (tasks r !! id) as [task|]; run; [|done].
  destruct (bool_decide (Assignee task ≠ u)); run; [done|].
  destruct (IsValidTransition _ _); run; [|done].
  exact IH.
Qed.

Lemma BulkUpdateStatus_same_shape (chk : InvariantChecker) (taskIDs : list TaskID)
    (newStatus : TaskStatus) (now : Time) (r : MemoryRepository) :
  same_shape r (BulkUpdateStatus chk taskIDs newStatus now r).2.
Proof.
  unfold BulkUpdateStatus. run.
  destruct (currentUser r) as [u|]; run; [|unchanged].
  pose proof (bulkCheck_unchanged u taskIDs newStatus r) as Hbc.
  destruct (bulkCheck u taskIDs newStatus r) as [[[]|e] r0]; simpl in Hbc; subst r0;
    run; [|unchanged].
  unfold memory.BulkUpdateStatus. run.
  assert (same_shape r
            (set_tasks r
               (foldl (λ ts id,
                         alter (λ task, set_UpdatedAt (set_Status task newStatus) now)
                               id ts) (tasks r) taskIDs))) as Hs.
  { repeat split; [done..|]. simpl. apply memory_BulkUpdateStatus_shape. }
  by destruct (CheckAllInvariants chk _).
Qed.

(** ** Operations that change the index *)

Lemma UpdateTask_owns (r : MemoryRepository) (task' existing : Task) :
  tasks r !! ID task' = Some existing →
  ∃ r', UpdateTask task' r = (Ok tt, r')
        ∧ tasks r' = <[ID task' := task']> (tasks r)
        ∧ nextTaskID r' = nextTaskID r
        ∧ users r' = users r
        ∧ currentUser r' = currentUser r
        ∧ ∀ u x, owns r' u x ↔
            (u = Assignee task' ∧ x = ID task' ∧ Assignee existing ≠ Assignee task')
            ∨ (owns r u x
               ∧ ¬ (u = Assignee existing ∧ x = ID task'
                    ∧ Assignee existing ≠ Assignee task')).
Proof.
  intros Hex. unfold UpdateTask. rewrite Hex.
  eexists. split; [done|]. simpl. repeat (split; [done|]).
  intros u x. case_bool_decide as Hne.
  - set (r1 := set_userTasks r
                 match userTasks r !! Assignee existing with
                 | Some ids => <[Assignee existing := ids ∖ {[ID task']}]> (userTasks r)
                 | None => userTasks r
                 end).
    rewrite (owns_added _ r1 (Assignee task') u (ID task') x) by done.
    rewrite (owns_removed r1 r (Assignee existing) u (ID task') x) by done.
    tauto.
  - assert (Assignee existing = Assignee task') as Heq
        by (by destruct (decide (Assignee existing = Assignee task'))).
    unfold owns. simpl. tauto.
Qed.

Lemma RemoveUserTask_owns (r : MemoryRepository) (a : UserID) (taskID : TaskID) :
  ∃ r', RemoveUserTask a taskID r = (Ok tt, r')
        ∧ tasks r' = tasks r ∧ nextTaskID r' = nextTaskID r
        ∧ ∀ u x, owns r' u x ↔ owns r u x ∧ ¬ (u = a ∧ x = taskID).
Proof.
  unfold RemoveUserTask. eexists. split; [done|].
  destruct (userTasks r !! a) as [ids|] eqn:Ha; simpl; repeat (split; [done|]).
  - intros u x. apply (owns_removed _ r a u taskID x). simpl. by rewrite Ha.
  - intros u x. apply (owns_removed r r a u taskID x). by rewrite Ha.
Qed.

Lemma AddUserTask_owns (r : MemoryRepository) (a : UserID) (taskID : TaskID) :
  ∃ r', AddUserTask a taskID r = (Ok tt, r')
        ∧ tasks r' = tasks r ∧ nextTaskID r' = nextTaskID r
        ∧ ∀ u x, owns r' u x ↔ (u = a ∧ x = taskID) ∨ owns r u x.
Proof.
  unfold AddUserTask. eexists. split; [done|]. simpl. repeat (split; [done|]).
  intros u x. by apply (owns_added _ r a u taskID x).
Qed.

Lemma ReassignTask_effect (r r' : MemoryRepository) (taskID : TaskID)
    (task : Task) (newAssignee : UserID) (now : Time) :
  stored r taskID task →
  ReassignTask taskID newAssignee now r = (Ok tt, r') →
  tasks r' = <[taskID := set_UpdatedAt (set_Assignee task newAssignee) now]> (tasks r)
  ∧ owns r' newAssignee taskID
  ∧ (Assignee task ≠ newAssignee → ¬ owns r' (Assignee task) taskID)
  ∧ (∀ u x, x ≠ taskID → owns r' u x ↔ owns r u x)
  ∧ (∀ u, u ≠ newAssignee → u ≠ Assignee task → owns r' u taskID ↔ owns r u taskID).
Proof.
  intros [Htask Hid]. unfold ReassignTask. run.
  destruct (currentUser r) as [cu|]; run; [|done].
  rewrite Htask. run.
  destruct (_ && _); run; [done|].
  destruct (users r !! newAssignee); run; [|done].
  destruct (UpdateTask_owns r (set_UpdatedAt (set_Assignee task newAssignee) now) task)
    as (r1 & -> & Ht1 & _ & _ & _ & Ho1); [simpl; by rewrite Hid|].
  run.
  destruct (RemoveUserTask_owns r1 (Assignee task) taskID) as (r2 & -> & Ht2 & _ & Ho2).
  destruct (AddUserTask_owns r2 newAssignee taskID) as (r3 & -> & Ht3 & _ & Ho3).
  intros [= <-]. simpl in Ht1, Ho1. rewrite Hid in Ht1, Ho1.
  split; [by rewrite Ht3, Ht2, Ht1|].
  split; [apply Ho3; by left|].
  split.
  { intros Hne Hown. apply Ho3 in Hown as [[Heq _] | Hown]; [done|].
    apply Ho2 in Hown as [_ Hnot]. by apply Hnot. }
  split.
  - intros w x Hx. rewrite Ho3, Ho2, Ho1. tauto.
  - intros w Hn Ho. rewrite Ho3, Ho2, Ho1. tauto.
Qed.

(** X5.  A successful [ReassignTask] moves the task between the indexes: the
    stored task has the new assignee, the new assignee's index holds the
    identifier, the index of the former assignee no longer does when the
    two differ, and no other index entry and no other task changes. *)
Theorem ReassignTask_moves_task (r r' : MemoryRepository) (taskID : TaskID)
    (task : Task) (newAssignee : UserID) (now : Time) :
  stored r taskID task →
  ReassignTask taskID newAssignee now r = (Ok tt, r') →
  tasks r' = <[taskID := set_UpdatedAt (set_Assignee task newAssignee) now]> (tasks r)
  ∧ owns r' newAssignee taskID
  ∧ (Assignee task ≠ newAssignee → ¬ owns r' (Assignee task) taskID)
  ∧ (∀ u x, x ≠ taskID → owns r' u x ↔ owns r u x)
  ∧ (∀ u, u ≠ newAssignee → u ≠ Assignee task → owns r' u taskID ↔ owns r u taskID).
Proof.
  exact (ReassignTask_effect r r' taskID task newAssignee now).
Qed.

Lemma ReassignTask_outcome (r r' : MemoryRepository) (taskID : TaskID)
    (newAssignee : UserID) (now : Time) (res : result unit) :
  ReassignTask taskID newAssignee now r = (res, r') →
  r' = r
  ∨ (res = Ok tt ∧ nextTaskID r' = nextTaskID r ∧ is_Some (tasks r !! taskID)).
Proof.
  unfold ReassignTask. run.
  destruct (currentUser r) as [cu|]; run; [|intros [= _ <-]; by left].
  destruct (tasks r !! taskID) as [task|] eqn:Htask; run; [|intros [= _ <-]; by left].
  destruct (_ && _); run; [intros [= _ <-]; by left|].
  destruct (users r !! newAssignee); run; [|intros [= _ <-]; by left].
  unfold UpdateTask, RemoveUserTask, AddUserTask.
  destruct (tasks r !! ID _); run; [|intros [= _ <-]; by left].
  intros [= <- <-]. right. split; [done|]. split; [|by eexists].
  simpl. by destruct (_ !! Assignee task).
Qed.

Lemma ReassignTask_consistent (r : MemoryRepository) (taskID : TaskID)
    (newAssignee : UserID) (now : Time) :
  consistent r → consistent (ReassignTask taskID newAssignee now r).2.
Proof.
  intros Hc.
  destruct (ReassignTask taskID newAssignee now r) as [res r'] eqn:Hrun. simpl.
  destruct (ReassignTask_outcome _ _ _ _ _ _ Hrun) as [-> | (-> & Hn & [task Htask])];
    [done|].
  destruct Hc as (Hwk & Hix & Hdc & Hone & Hids).
  destruct (ReassignTask_effect r r' taskID task newAssignee now)
    as (Ht & Hnew & Hold & Hother & Hrest); [by split; [|apply (Hwk _ _ Htask)] | done |].
  pose proof (Hwk _ _ Htask) as Hid.
  split; [|split; [|split]].
  - intros k t. rewrite Ht. destruct (decide (k = taskID)) as [->|Hne].
    + rewrite lookup_insert_eq. by intros [= <-].
    + rewrite lookup_insert_ne by done. apply Hwk.
  - intros u x. rewrite Ht. destruct (decide (x = taskID)) as [->|Hne].
    + rewrite lookup_insert_eq. split.
      * intros Hown. eexists. split; [done|]. simpl.
        destruct (decide (u = newAssignee)) as [->|Hun]; [done|].
        destruct (decide (u = Assignee task)) as [->|Huo].
        -- exfalso. apply Hold; [congruence | done].
        -- apply Hrest in Hown; [|done..]. apply Hix in Hown as (t & Hl & Ha).
           congruence.
      * intros (t & [= <-] & <-). exact Hnew.
    + rewrite lookup_insert_ne by done. rewrite Hother by done. apply Hix.
  - intros k t d. rewrite Ht. intros Hl Hd.
    assert (is_Some (tasks r !! d)) as [td Htd].
    { destruct (decide (k = taskID)) as [->|Hne].
      - rewrite lookup_insert_eq in Hl. injection Hl as <-. by apply (Hdc taskID task).
      - rewrite lookup_insert_ne in Hl by done. by apply (Hdc k t). }
    destruct (decide (d = taskID)) as [->|Hne].
    + rewrite lookup_insert_eq. by eexists.
    + rewrite lookup_insert_ne by done. by exists td.
  - split; [by rewrite Hn|]. intros k t. rewrite Ht, Hn.
    destruct (decide (k = taskID)) as [->|Hne].
    + intros _. by apply (Hids taskID task).
    + rewrite lookup_insert_ne by done. apply Hids.
Qed.

Lemma DeleteTask_outcome (r r' : MemoryRepository) (taskID : TaskID)
    (res : result unit) :
  DeleteTask taskID r = (res, r') →
  r' = r
  ∨ ∃ task, tasks r !! taskID = Some task
            ∧ (∀ otherID other, tasks r !! otherID = Some other →
                                taskID ∉ Dependencies other)
            ∧ tasks r' = delete taskID (tasks r)
            ∧ nextTaskID r' = nextTaskID r
            ∧ ∀ u x, owns r' u x ↔ owns r u x ∧ ¬ (u = Assignee task ∧ x = taskID).
Proof.
  unfold DeleteTask. run.
  destruct (currentUser r) as [cu|]; run; [|intros [= _ <-]; by left].
  destruct (tasks r !! taskID) as [task|] eqn:Htask; run; [|intros [= _ <-]; by left].
  destruct (bool_decide (Assignee task ≠ cu)); run; [intros [= _ <-]; by left|].
  destruct (CanDelete task); run; [|intros [= _ <-]; by left].
  case_bool_decide as Hdep; run; [intros [= _ <-]; by left|].
  unfold memory.DeleteTask. rewrite Htask. run.
  intros [= _ <-]. right. exists task. split; [done|]. split.
  { intros o ot Hl Hin. apply Hdep, dependents_nonempty. eauto. }
  simpl. repeat (split; [done|]).
  intros u x. apply (owns_removed _ r (Assignee task) u taskID x). done.
Qed.

Lemma DeleteTask_consistent (r : MemoryRepository) (taskID : TaskID) :
  consistent r → consistent (DeleteTask taskID r).2.
Proof.
  intros Hc. destruct (DeleteTask taskID r) as [res r'] eqn:Hrun. simpl.
  destruct (DeleteTask_outcome _ _ _ _ Hrun)
    as [-> | (task & Htask & Hnodep & Ht & Hn & Ho)]; [done|].
  destruct Hc as (Hwk & Hix & Hdc & Hone & Hids).
  split; [|split; [|split]].
  - intros k t. rewrite Ht. intros [_ Hl]%lookup_delete_Some. by apply Hwk.
  - intros u x. rewrite Ho, Ht, (Hix u x). split.
    + intros [(t & Hl & Ha) Hnot]. exists t. split; [|done].
      apply lookup_delete_Some. split; [|done]. intros <-. apply Hnot.
      split; [|done]. congruence.
    + intros (t & [Hne Hl]%lookup_delete_Some & Ha). split; [by exists t|].
      intros [_ ->]. done.
  - intros k t d. rewrite Ht. intros [Hne Hl]%lookup_delete_Some Hd.
    destruct (Hdc k t d Hl Hd) as [td Htd]. exists td.
    apply lookup_delete_Some. split; [|done]. intros <-. by apply (Hnodep k t).
  - split; [by rewrite Hn|]. intros k t. rewrite Ht, Hn.
    intros [_ Hl]%lookup_delete_Some. by apply (Hids k t).
Qed.

Lemma CreateTask_outcome (chk : InvariantChecker) (title description : string)
    (priority : Priority) (assignee : UserID) (dueDate : option Time)
    (tags : list Tag) (dependencies : list TaskID) (now : Time)
    (r r' : MemoryRepository) (res : result Task) :
  ids_below_counter r →
  CreateTask chk title description priority assignee dueDate tags dependencies
    now r = (res, r') →
  r' = r
  ∨ ∃ task, ID task = nextTaskID r
            ∧ Assignee task = assignee
            ∧ (∀ depID, depID ∈ Dependencies task → is_Some (tasks r !! depID))
            ∧ tasks r !! nextTaskID r = None
            ∧ tasks r' = <[nextTaskID r := task]> (tasks r)
            ∧ nextTaskID r' = nextTaskID r + 1
            ∧ ∀ u x, owns r' u x ↔ (u = assignee ∧ x = nextTaskID r) ∨ owns r u x.
Proof.
  intros [Hone Hids]. unfold CreateTask. run.
  destruct (currentUser r) as [u|] eqn:Hcu; run; [|intros [= _ <-]; by left].
  destruct (bool_decide (MaxTasks < nextTaskID r)); run; [intros [= _ <-]; by left|].
  destruct (validateDependencies dependencies (tasks r) ∅) as [depMap|e] eqn:Hval;
    run; [|intros [= _ <-]; by left].
  destruct (checkCyclicDependencies _ _ _); run; [intros [= _ <-]; by left|].
  destruct (Validate _); run; [intros [= _ <-]; by left|].
  assert (tasks r !! nextTaskID r = None) as Hfree.
  { destruct (tasks r !! nextTaskID r) as [t|] eqn:Hl; [|done].
    specialize (Hids _ _ Hl). lia. }
  apply validateDependencies_ok in Hval as [-> Hex].
  unfold memory.CreateTask. cbn [ID].
  rewrite bool_decide_eq_false_2 by lia.
  cbn [ID Assignee Dependencies tasks nextTaskID userTasks set_nextTaskID
       set_userTasks set_tasks].
  rewrite Hfree. run.
  cbn [ID Assignee Dependencies tasks nextTaskID userTasks set_nextTaskID
       set_userTasks set_tasks].
  intros Hrun. right.
  eexists (mkTask (nextTaskID r) title description _ priority assignee u now now
                  dueDate tags (list_to_set dependencies ∪ ∅)).
  destruct (CheckAllInvariants chk _); injection Hrun as <- <-;
    cbn [ID Assignee Dependencies tasks nextTaskID userTasks set_nextTaskID
         set_userTasks set_tasks];
    (split; [done|]); (split; [done|]);
    (split; [intros d Hd; destruct (Hex d) as (dep & -> & _);
             [set_solver | by eexists]|]);
    (split; [done|]); (split; [done|]); (split; [done|]);
    intros w x; by apply (owns_added _ r assignee w (nextTaskID r) x).
Qed.

Lemma CreateTask_consistent (chk : InvariantChecker) (title description : string)
    (priority : Priority) (assignee : UserID) (dueDate : option Time)
    (tags : list Tag) (dependencies : list TaskID) (now : Time)
    (r : MemoryRepository) :
  consistent r →
  consistent (CreateTask chk title description priority assignee dueDate tags
                dependencies now r).2.
Proof.
  intros Hc.
  destruct (CreateTask chk title description priority assignee dueDate tags
              dependencies now r) as [res r'] eqn:Hrun. simpl.
  destruct Hc as (Hwk & Hix & Hdc & Hbelow).
  destruct (CreateTask_outcome _ _ _ _ _ _ _ _ _ _ _ _ Hbelow Hrun)
    as [-> | (task & Hid & Ha & Hdeps & Hfree & Ht & Hn & Ho)]; [done|].
  destruct Hbelow as [Hone Hids].
  split; [|split; [|split]].
  - intros k t. rewrite Ht. destruct (decide (k = nextTaskID r)) as [->|Hne].
    + rewrite lookup_insert_eq. by intros [= <-].
    + rewrite lookup_insert_ne by done. apply Hwk.
  - intros u x. rewrite Ho, Ht, (Hix u x).
    destruct (decide (x = nextTaskID r)) as [->|Hne].
    + rewrite lookup_insert_eq, Hfree. split.
      * intros [[-> _] | (t & Hl & _)]; [by exists task | done].
      * intros (t & [= <-] & <-). by left.
    + rewrite lookup_insert_ne by done. split.
      * intros [[_ Hx] | Hex]; [done | done].
      * intros Hex. by right.
  - intros k t d. rewrite Ht. intros Hl Hd.
    assert (is_Some (tasks r !! d)) as [td Htd].
    { destruct (decide (k = nextTaskID r)) as [->|Hne].
      - rewrite lookup_insert_eq in Hl. injection Hl as <-. by apply Hdeps.
      - rewrite lookup_insert_ne in Hl by done. by apply (Hdc k t). }
    exists td. rewrite lookup_insert_ne; [done|]. intros <-. by rewrite Hfree in Htd.
  - split; [lia|]. intros k t. rewrite Ht, Hn.
    destruct (decide (k = nextTaskID r)) as [->|Hne].
    + intros _. lia.
    + rewrite lookup_insert_ne by done. intros Hl. specialize (Hids _ _ Hl). lia.
Qed.

Lemma serve_consistent (chk : InvariantChecker) (req : Request)
    (now : Time) (r : MemoryRepository) :
  consistent r → consistent (serve chk req now r).
Proof.
  intros Hc. pose proof Hc as (Hwk & _).
  destruct req; simpl.
  - apply (same_shape_consistent r); [by apply Authenticate_same_shape | done].
  - apply (same_shape_consistent r); [by apply Logout_same_shape | done].
  - by apply CreateTask_consistent.
  - apply (same_shape_consistent r); [by apply UpdateTaskStatus_same_shape | done].
  - apply (same_shape_consistent r); [by apply UpdateTaskPriority_same_shape | done].
  - by apply ReassignTask_consistent.
  - apply (same_shape_consistent r); [by apply UpdateTaskDetails_same_shape | done].
  - by apply DeleteTask_consistent.
  - apply (same_shape_consistent r); [by apply CheckDependencies_same_shape | done].
  - apply (same_shape_consistent r); [by apply BulkUpdateStatus_same_shape | done].
Qed.

(** X6.  Whatever request is served, at whatever time, with whatever
    invariant checker, and whether or not the operation succeeds, a
    consistent store stays consistent: tasks remain keyed by their
    identifier, each task is in the index of its assignee and of nobody
    else, every dependency names a stored task, and the identifiers in use
    lie below the counter. *)
Theorem serve_keeps_consistent (chk : InvariantChecker) (req : Request)
    (now : Time) (r : MemoryRepository) :
  consistent r → consistent (serve chk req now r).
Proof.
  exact (serve_consistent chk req now r).
Qed.

Lemma new_repository_consistent (now : Time) (us : gmap UserID User) :
  consistent (set_users (NewMemoryRepository now) us).
Proof.
  split; [|split; [|split]].
  - intros k t Hl. simpl in Hl. by rewrite lookup_empty in Hl.
  - intros u x. unfold owns. simpl. split.
    + intros (ids & Hl & _). by rewrite lookup_empty in Hl.
    + intros (t & Hl & _). by rewrite lookup_empty in Hl.
  - intros k t d Hl. simpl in Hl. by rewrite lookup_empty in Hl.
  - split; [simpl; lia|]. intros k t Hl. simpl in Hl. by rewrite lookup_empty in Hl.
Qed.

Lemma serve_keeps_consistent_witness :
  consistent
    (serve NewInvariantChecker
       (ReqCreateTask "Task A" "first" PriorityLow "alice" None [TagBug] []) 11
       (serve NewInvariantChecker (ReqAuthenticate "alice" "token-1") 10
          (set_users (NewMemoryRepository 0) {["alice" := alice]}))).
Proof.
  apply serve_keeps_consistent. apply serve_consistent.
  apply new_repository_consistent.
Defined.

Lemma reachable_is_consistent (chk : InvariantChecker) (r : MemoryRepository) :
  reachable chk r → consistent r.
Proof.
  induction 1 as [now us | req now r Hr IH].
  - apply new_repository_consistent.
  - by apply serve_consistent.
Qed.

(** X7.  Every store that the service reaches from a new repository is
    consistent; in particular the hypotheses of the dependency sweep
    (tasks keyed by identifier, dependencies stored) hold in every
    reachable store. *)
Theorem reachable_consistent (chk : InvariantChecker) (r : MemoryRepository) :
  reachable chk r → consistent r.
Proof.
  exact (reachable_is_consistent chk r).
Qed.

Lemma reachable_consistent_witness :
  consistent
    (serve NewInvariantChecker (ReqReassignTask 1 "bob") 12
       (serve NewInvariantChecker
          (ReqCreateTask "Task A" "first" PriorityLow "alice" None [TagBug] []) 11
          (serve NewInvariantChecker (ReqAuthenticate "alice" "token-1") 10
             (set_users (NewMemoryRepository 0)
                        {["alice" := alice; "bob" := bob]})))).
Proof.
  apply (reachable_consistent NewInvariantChecker).
  do 3 apply reachable_serve. apply reachable_new.
Defined.

(** ** The invariant check after an update of task fields *)

Lemma shape_eq_deps (m m' : gmap TaskID Task) (taskID : TaskID) :
  shape_eq m m' →
  Dependencies <$> m' !! taskID = Dependencies <$> m !! taskID.
Proof.
  intros Hs. specialize (Hs taskID). unfold entry_shape_eq in Hs.
  destruct (m !! taskID), (m' !! taskID); simpl; try done.
  by destruct Hs as (_ & _ & ->).
Qed.

Lemma elem_of_graphNodes (m : gmap TaskID Task) (x : TaskID) :
  x ∈ invariants.graphNodes m ↔
  is_Some (m !! x) ∨ ∃ k t, m !! k = Some t ∧ x ∈ Dependencies t.
Proof.
  unfold invariants.graphNodes. rewrite elem_of_union, elem_of_dom, elem_of_union_list.
  split; (intros [Hd | Hu]; [by left | right]).
  - destruct Hu as (X & HX & Hx).
    apply list_elem_of_fmap in HX as (t & -> & Ht).
    apply list_elem_of_fmap in Ht as ([k t'] & -> & Hkt).
    exists k, t'. split; [by apply elem_of_map_to_list | done].
  - destruct Hu as (k & t & Hl & Hx). exists (Dependencies t). split; [|done].
    apply list_elem_of_fmap. exists t. split; [done|].
    apply list_elem_of_fmap. exists (k, t). split; [done|].
    by apply elem_of_map_to_list.
Qed.

Lemma shape_eq_graphNodes (m m' : gmap TaskID Task) :
  shape_eq m m' → invariants.graphNodes m' = invariants.graphNodes m.
Proof.
  intros Hs.
  assert (∀ a b : gmap TaskID Task, shape_eq a b →
            invariants.graphNodes a ⊆ invariants.graphNodes b) as Hsub.
  { intros a b Hab x. rewrite !elem_of_graphNodes. intros [[t Hx] | (k & t & Hl & Hx)].
    - left. specialize (Hab x). unfold entry_shape_eq in Hab. rewrite Hx in Hab.
      destruct (b !! x) eqn:Hb; [by eexists | done].
    - right. specialize (Hab k). unfold entry_shape_eq in Hab. rewrite Hl in Hab.
      destruct (b !! k) as [t'|] eqn:Hb; [|done]. exists k, t'. split; [done|].
      by destruct Hab as (_ & _ & ->). }
  assert (shape_eq m' m) as Hs'.
  { intros k. specialize (Hs k). unfold entry_shape_eq in *.
    destruct (m !! k), (m' !! k); try done. by destruct Hs as (-> & -> & ->). }
  apply set_eq. intros x. split; by apply Hsub.
Qed.

Lemma shape_eq_hasCycle (m m' : gmap TaskID Task) (fuel : nat) (taskID : TaskID)
    (mk : invariants.marks) :
  shape_eq m m' →
  invariants.hasCycle fuel m' taskID mk = invariants.hasCycle fuel m taskID mk.
Proof.
  intros Hs. revert taskID mk.
  induction fuel as [|fuel IH]; intros taskID mk; [done|].
  cbn [invariants.hasCycle].
  pose proof (shape_eq_deps m m' taskID Hs) as Hd.
  destruct (m !! taskID) as [t|], (m' !! taskID) as [t'|]; simpl in Hd; try done.
  injection Hd as ->.
  generalize (elements (Dependencies t)).
  generalize ({[taskID]} ∪ mk.1, {[taskID]} ∪ mk.2).
  intros mk0 deps.
  assert ((fix loop (deps : list TaskID) (m0 : invariants.marks)
             : option (bool * invariants.marks) :=
             match deps with
             | [] => Some (false, m0)
             | depID :: rest =>
                 if negb (bool_decide (depID ∈ m0.1)) then
                   match invariants.hasCycle fuel m' depID m0 with
                   | None => None
                   | Some (true, m'0) => Some (true, m'0)
                   | Some (false, m'0) => loop rest m'0
                   end
                 else if bool_decide (depID ∈ m0.2) then Some (true, m0)
                 else loop rest m0
             end) deps mk0
          = (fix loop (deps : list TaskID) (m0 : invariants.marks)
               : option (bool * invariants.marks) :=
               match deps with
               | [] => Some (false, m0)
               | depID :: rest =>
                   if negb (bool_decide (depID ∈ m0.1)) then
                     match invariants.hasCycle fuel m depID m0 with
                     | None => None
                     | Some (true, m'0) => Some (true, m'0)
                     | Some (false, m'0) => loop rest m'0
                     end
                   else if bool_decide (depID ∈ m0.2) then Some (true, m0)
                   else loop rest m0
               end) deps mk0) as ->; [|done].
  revert mk0. induction deps as [|d rest IHd]; intros mk0; [done|].
  rewrite IH. destruct (negb _).
  - destruct (invariants.hasCycle fuel m d mk0) as [[[] ?]|]; [done | apply IHd | done].
  - destruct (bool_decide _); [done | apply IHd].
Qed.

(** The checker accepts a store that differs from an accepted one only in
    task fields other than identifier, assignee and dependencies, as long
    as the statuses, timestamps and creators it finds are valid. *)
Lemma check_preserved (r r' : MemoryRepository) (now now' : Time) :
  same_shape r r' →
  (∀ taskID task', tasks r' !! taskID = Some task' →
     isValidStatus (Status task') = true
     ∧ CreatedAt task' ≤ UpdatedAt task'
     ∧ CreatedBy task' ≠ "") →
  invariants.CheckAllInvariants (snapshot now r) = None →
  invariants.CheckAllInvariants (snapshot now' r') = None.
Proof.
  intros (Hu & Hn & Hs) Hlocal. rewrite !CheckAllInvariants_None_iff.
  unfold snapshot, domain.GetUserTasks. cbn [Tasks UserTasks NextTaskID].
  intros Hpre taskID task' Hl.
  pose proof (Hs taskID) as Hst. unfold entry_shape_eq in Hst. rewrite Hl in Hst.
  destruct (tasks r !! taskID) as [task|] eqn:Hlt; [|done].
  destruct Hst as (Hid & Ha & Hd).
  destruct (Hpre taskID task Hlt) as (Hown & Hids & Hkey & _ & _ & (m' & Hcyc) & _).
  destruct (Hlocal taskID task' Hl) as (Hvs & Hts & Hcr).
  rewrite Hu, Hn, Ha.
  repeat split; try done; try lia; try congruence.
  exists m'. rewrite (shape_eq_graphNodes _ _ Hs).
  by rewrite (shape_eq_hasCycle (tasks r) (tasks r')).
Qed.

Lemma legal_target_valid (from to : TaskStatus) :
  IsValidTransition from to = true → isValidStatus to = true.
Proof.
  rewrite IsValidTransition_spec. unfold spec_legal_transitions. simpl.
  intros H. repeat (destruct H as [[= <- <-] | H]; [done|]). done.
Qed.

(** X8.  With the checker of package [invariants], a legal transition never
    trips the closing check: on a store whose snapshot passes the check, a
    legal status update of an owned task (dependencies completed when
    entering [in_progress]) at a time not before the creation of the task
    succeeds, and the resulting store passes the check again. *)
Theorem UpdateTaskStatus_passes_check (r : MemoryRepository) (u : UserID)
    (taskID : TaskID) (task : Task) (to : TaskStatus) (now0 now : Time) :
  invariants.CheckAllInvariants (snapshot now0 r) = None →
  currentUser r = Some u →
  tasks r !! taskID = Some task →
  owns r u taskID →
  IsValidTransition (Status task) to = true →
  (to = StatusInProgress → depsCompleted r task) →
  CreatedAt task ≤ now →
  UpdateTaskStatus NewInvariantChecker taskID to now r
  = (Ok tt, statusUpdated r taskID task to now)
  ∧ invariants.CheckAllInvariants (snapshot now (statusUpdated r taskID task to now))
    = None.
Proof.
  intros Hpre Hcu Htask Hown Hvalid Hdeps Htime.
  assert (ID task = taskID) as Hid.
  { apply CheckAllInvariants_None_iff with (taskID := taskID) (task := task) in Hpre;
      [|done]. by destruct Hpre as (_ & _ & ? & _). }
  assert (invariants.CheckAllInvariants
            (snapshot now (statusUpdated r taskID task to now)) = None) as Hpost.
  { apply (check_preserved r _ now0 now); [| |done].
    - repeat split; [done..|]. simpl.
      apply (shape_eq_insert _ _ task); done.
    - intros k t'. simpl. destruct (decide (k = taskID)) as [->|Hne].
      + rewrite lookup_insert_eq. intros [= <-]. simpl.
        split; [by apply (legal_target_valid (Status task))|]. split; [done|].
        apply CheckAllInvariants_None_iff with (taskID := taskID) (task := task)
          in Hpre; [|done]. by destruct Hpre as (_ & _ & _ & _ & _ & _ & ?).
      + rewrite lookup_insert_ne by done. intros Hl.
        apply CheckAllInvariants_None_iff with (taskID := k) (task := t') in Hpre;
          [|done]. by destruct Hpre as (_ & _ & _ & ? & ? & _ & ?). }
  split; [|done].
  rewrite (UpdateTaskStatus_accepts NewInvariantChecker r u taskID task to now)
    by done.
  simpl. by rewrite Hpost.
Qed.

Lemma store1_passes_check : invariants.CheckAllInvariants (snapshot 12 store1) = None.
Proof. vm_compute. reflexivity. Qed.

Lemma UpdateTaskStatus_passes_check_witness :
  UpdateTaskStatus NewInvariantChecker 1 StatusInProgress 20 store1
  = (Ok tt, statusUpdated store1 1 taskA StatusInProgress 20)
  ∧ invariants.CheckAllInvariants
      (snapshot 20 (statusUpdated store1 1 taskA StatusInProgress 20)) = None.
Proof.
  apply (UpdateTaskStatus_passes_check store1 "alice" 1 taskA StatusInProgress 12 20
           store1_passes_check store1_currentUser (proj1 store1_stored_taskA)
           store1_owns_taskA).
  - vm_compute. reflexivity.
  - intros _ depID dep Hin. exfalso. revert Hin. apply not_elem_of_empty.
  - simpl. lia.
Defined.

Lemma ReassignTask_moves_task_witness :
  owns (ReassignTask 2 "alice" 20 store_delegated).2 "alice" 2
  ∧ ¬ owns (ReassignTask 2 "alice" 20 store_delegated).2 "bob" 2.
Proof.
  assert (ReassignTask 2 "alice" 20 store_delegated
          = (Ok tt, (ReassignTask 2 "alice" 20 store_delegated).2)) as Hrun
    by (vm_compute; reflexivity).
  destruct (ReassignTask_moves_task _ _ _ _ _ _ store_delegated_stored_taskC Hrun)
    as (_ & Hnew & Hold & _).
  split; [exact Hnew|]. apply Hold. simpl. discriminate.
Defined.

(** ** The bulk update *)

Lemma bulkCheck_spec (u : UserID) (taskIDs : list TaskID) (newStatus : TaskStatus)
    (r : MemoryRepository) :
  (Forall (bulkAllowed r u newStatus) taskIDs ∧
   bulkCheck u taskIDs newStatus r = (Ok tt, r))
  ∨ (¬ Forall (bulkAllowed r u newStatus) taskIDs ∧
     ∃ err, bulkCheck u taskIDs newStatus r = (Fail err, r)).
Proof.
  induction taskIDs as [|id rest IH]; simpl.
  - left. by split.
  - run. destruct (tasks r !! id) as [task|] eqn:Htask; run.
    2: { right. split; [|by eexists]. intros Hall.
         apply Forall_cons_1 in Hall as [(t & Hl & _) _]. congruence. }
    case_bool_decide as Ha; run.
    { right. split; [|by eexists]. intros Hall.
      apply Forall_cons_1 in Hall as [(t & Hl & Hat & _) _]. congruence. }
    destruct (IsValidTransition (Status task) newStatus) eqn:Hv; run.
    2: { right. split; [|by eexists]. intros Hall.
         apply Forall_cons_1 in Hall as [(t & Hl & _ & Hvt) _]. congruence. }
    assert (bulkAllowed r u newStatus id) as Hid.
    { exists task. split; [done|]. split; [|done].
      by destruct (decide (Assignee task = u)). }
    destruct IH as [[Hall ->] | [Hnot (e & ->)]].
    + left. split; [by apply Forall_cons|done].
    + right. split; [|by eexists]. intros Hall. apply Hnot.
      by apply Forall_cons_1 in Hall as [_ ?].
Qed.

Lemma bulk_alter_lookup (taskIDs : list TaskID) (status : TaskStatus) (now : Time)
    (m : gmap TaskID Task) (k : TaskID) :
  foldl (λ ts id, alter (withStatus status now) id ts) m taskIDs !! k
  = if decide (k ∈ taskIDs) then withStatus status now <$> m !! k else m !! k.
Proof.
  revert m. induction taskIDs as [|id rest IH]; intros m; cbn [foldl].
  - rewrite decide_False; [done|]. apply not_elem_of_nil.
  - rewrite IH. destruct (decide (k = id)) as [->|Hne].
    + rewrite lookup_alter_eq. rewrite (decide_True (P := id ∈ id :: rest))
        by apply list_elem_of_here.
      destruct (decide (id ∈ rest)); [|done].
      destruct (m !! id) as [t|]; simpl; [|done]. by destruct t.
    + rewrite lookup_alter_ne by done.
      destruct (decide (k ∈ rest)) as [Hin|Hnin].
      * rewrite decide_True; [done|]. by apply list_elem_of_further.
      * rewrite decide_False; [done|]. intros [?|?]%elem_of_cons; done.
Qed.

(** X9.  [BulkUpdateStatus] is all-or-nothing with respect to its
    preconditions: if some listed identifier is unknown, not assigned to
    the current user or not in a state from which the new status is legal,
    the call fails and the store is unchanged; otherwise every listed task
    gets the new status and timestamp, every other task stays as it was,
    and the result is decided by the closing invariant check alone. *)
Theorem BulkUpdateStatus_all_or_nothing (chk : InvariantChecker)
    (r : MemoryRepository) (u : UserID) (taskIDs : list TaskID)
    (newStatus : TaskStatus) (now : Time) :
  currentUser r = Some u →
  (¬ Forall (bulkAllowed r u newStatus) taskIDs →
   ∃ err, BulkUpdateStatus chk taskIDs newStatus now r = (Fail err, r))
  ∧ (Forall (bulkAllowed r u newStatus) taskIDs →
     ∃ r', (BulkUpdateStatus chk taskIDs newStatus now r).2 = r'
           ∧ r' = set_tasks r (tasks r')
           ∧ (∀ k, tasks r' !! k
                   = if decide (k ∈ taskIDs)
                     then withStatus newStatus now <$> tasks r !! k
                     else tasks r !! k)
           ∧ (BulkUpdateStatus chk taskIDs newStatus now r).1
             = match CheckAllInvariants chk (snapshot now r') with
               | None => Ok tt
               | Some err =>
                   Fail (Wrapf "invariant violation after bulk update: %w" err)
               end).
Proof.
  intros Hcu. unfold BulkUpdateStatus. run. rewrite Hcu. run.
  destruct (bulkCheck_spec u taskIDs newStatus r) as [[Hall ->] | [Hnot (e & ->)]];
    run.
  - split; [done|]. intros _. unfold memory.BulkUpdateStatus. run.
    exists (set_tasks r (foldl (λ ts id, alter (withStatus newStatus now) id ts)
                               (tasks r) taskIDs)).
    split; [by destruct (CheckAllInvariants chk _)|].
    split; [done|]. split.
    + intros k. simpl. apply bulk_alter_lookup.
    + by destruct (CheckAllInvariants chk _).
  - split; [by eexists | done].
Qed.

Lemma store2_currentUser : currentUser store2 = Some "alice".
Proof. vm_compute. reflexivity. Qed.

Lemma BulkUpdateStatus_all_or_nothing_witness :
  ∃ err, BulkUpdateStatus NewInvariantChecker [1; 2; 3] StatusCancelled 20 store2
         = (Fail err, store2).
Proof.
  apply (proj1 (BulkUpdateStatus_all_or_nothing NewInvariantChecker store2 "alice"
                  [1; 2; 3] StatusCancelled 20 store2_currentUser)).
  intros Hall. apply Forall_cons_1 in Hall as [_ Hall].
  apply Forall_cons_1 in Hall as [_ Hall].
  apply Forall_cons_1 in Hall as [(t & Hl & _) _].
  vm_compute in Hl. discriminate Hl.
Defined.

(** ** Sessions *)

Lemma GetSessionByUser_some (r : MemoryRepository) (userID : UserID) (now : Time) :
  hasValidSession r userID now →
  ∃ token session,
    GetSessionByUser userID now r = (Ok session, r)
    ∧ sessions r !! token = Some session
    ∧ sUserID session = userID ∧ IsValid session now = true.
Proof.
  intros (tok & s & Hl & Hu & Hv). unfold GetSessionByUser.
  assert (s ∈ filter (λ session, sUserID session = userID
                                 ∧ IsValid session now = true)
                     (map_to_list (sessions r)).*2) as Hin.
  { apply list_elem_of_filter. split; [done|].
    apply list_elem_of_fmap. exists (tok, s). split; [done|].
    by apply elem_of_map_to_list. }
  destruct (filter _ _) as [|s0 rest] eqn:Hf; [by apply elem_of_nil in Hin|].
  assert (s0 ∈ filter (λ session, sUserID session = userID
                                  ∧ IsValid session now = true)
                      (map_to_list (sessions r)).*2) as Hin0.
  { rewrite Hf. apply list_elem_of_here. }
  apply list_elem_of_filter in Hin0 as [[Hu0 Hv0] Hin0].
  apply list_elem_of_fmap in Hin0 as ([tok0 s0'] & -> & Hin0).
  apply elem_of_map_to_list in Hin0. by exists tok0, s0'.
Qed.

Lemma Authenticate_ok (chk : InvariantChecker) (r : MemoryRepository)
    (userID : UserID) (user : User) (token : string) (now : Time) :
  users r !! userID = Some user →
  noValidSession r userID now →
  sessions r !! token = None →
  Authenticate chk userID token now r
  = match CheckAllInvariants chk (snapshot now (authenticated r userID user token now))
    with
    | None => (Ok (newSession user token now), authenticated r userID user token now)
    | Some err => (Fail (Wrapf "invariant violation: %w" err),
                   authenticated r userID user token now)
    end.
Proof.
  intros Huser Hnone Hfresh.
  unfold Authenticate. run. rewrite Huser. run.
  rewrite (GetSessionByUser_none r userID now Hnone). run.
  unfold CreateSession. cbn [Token]. rewrite Hfresh. run.
  fold (newSession user token now).
  change (set_currentUser
            (set_sessions r (<[token := newSession user token now]> (sessions r)))
            (Some userID))
    with (authenticated r userID user token now).
  by destruct (CheckAllInvariants chk _).
Qed.

Lemma Authenticate_rejects (chk : InvariantChecker) (r : MemoryRepository)
    (userID : UserID) (token : string) (now : Time) :
  users r !! userID = None
  ∨ hasValidSession r userID now
  ∨ is_Some (sessions r !! token) →
  ∃ err, Authenticate chk userID token now r = (Fail err, r).
Proof.
  intros Hcause. unfold Authenticate. run.
  destruct (users r !! userID) as [user|] eqn:Huser; run; [|by eexists].
  destruct Hcause as [Hu | [Hvalid | [s Htok]]]; [done| |].
  - destruct (GetSessionByUser_some r userID now Hvalid)
      as (tok & s & -> & _ & _ & Hv).
    run. rewrite Hv. run. by eexists.
  - destruct (GetSessionByUser userID now r) as [[s0|e] r0] eqn:Hs;
      (assert (r0 = r) as ->;
       [unfold GetSessionByUser in Hs; destruct (filter _ _); by injection Hs|]);
      run.
    + destruct (IsValid s0 now); run; [by eexists|].
      unfold CreateSession. cbn [Token]. rewrite Htok. run. by eexists.
    + unfold CreateSession. cbn [Token]. rewrite Htok. run. by eexists.
Qed.

(** X10.  [Authenticate] rejects, without touching the store, a user that
    is not in the user table, a user that holds a session valid at the time
    of the call, and a token that is already in the session table. *)
Theorem Authenticate_rejections (chk : InvariantChecker) (r : MemoryRepository)
    (userID : UserID) (token : string) (now : Time) :
  users r !! userID = None
  ∨ hasValidSession r userID now
  ∨ is_Some (sessions r !! token) →
  ∃ err, Authenticate chk userID token now r = (Fail err, r).
Proof. exact (Authenticate_rejects chk r userID token now). Qed.

Lemma Authenticate_rejections_witness :
  ∃ err, Authenticate NewInvariantChecker "alice" "token-9" 20 store1
         = (Fail err, store1).
Proof.
  apply Authenticate_rejections. right. left.
  exists "token-1", (newSession alice "token-1" 10).
  repeat split; vm_compute; reflexivity.
Defined.

Lemma IsValid_later (s : Session) (now now' : Time) :
  now ≤ now' → IsValid s now = false → IsValid s now' = false.
Proof.
  unfold IsValid, IsExpired. intros Hle.
  destruct (Active s); simpl; [|done].
  rewrite !negb_false_iff, !bool_decide_eq_true. lia.
Qed.

Lemma newSession_valid (user : User) (token : string) (now now' : Time) :
  IsValid (newSession user token now) now' = true ↔ now' ≤ now + 24 * Hour.
Proof.
  unfold IsValid, IsExpired, newSession. simpl.
  rewrite negb_true_iff, bool_decide_eq_false. lia.
Qed.

(** X11.  [Authenticate] files the session under the [ID] field of the
    user record it finds, not under the key it was called with.  In the
    store left by a successful [Authenticate] of a user at time [now]: when
    the record carries the key as its [ID], a further [Authenticate] of the
    same user is rejected at every time up to 24 hours later and leaves the
    store unchanged; when the record carries another [ID], or past the 24
    hours (expiry is evaluated when the session is read), the session does
    not stop the further [Authenticate], which goes through with its result
    decided by the closing invariant check. *)
Theorem Authenticate_again_after_expiry (chk : InvariantChecker)
    (r : MemoryRepository) (userID : UserID) (user : User) (token token' : string)
    (now now' : Time) :
  users r !! userID = Some user →
  noValidSession r userID now →
  sessions r !! token = None →
  token' ≠ token →
  sessions r !! token' = None →
  now ≤ now' →
  let r1 := authenticated r userID user token now in
  (uID user = userID → now' ≤ now + 24 * Hour →
   ∃ err, Authenticate chk userID token' now' r1 = (Fail err, r1))
  ∧ (uID user ≠ userID ∨ now + 24 * Hour < now' →
     Authenticate chk userID token' now' r1
     = match CheckAllInvariants chk
               (snapshot now' (authenticated r1 userID user token' now')) with
       | None => (Ok (newSession user token' now'),
                  authenticated r1 userID user token' now')
       | Some err => (Fail (Wrapf "invariant violation: %w" err),
                      authenticated r1 userID user token' now')
       end).
Proof.
  intros Huser Hnone Hfresh Hne Hfresh' Hle r1. split.
  - intros Huid Hin. apply Authenticate_rejects. right. left.
    exists token, (newSession user token now). split; [|split].
    + simpl. by rewrite lookup_insert_eq.
    + done.
    + by apply newSession_valid.
  - intros Hopen.
    apply (Authenticate_ok chk r1 userID user token' now'); [done| |].
    + intros tok s. simpl. destruct (decide (tok = token)) as [->|Hn].
      * rewrite lookup_insert_eq. intros [= <-] Hu. simpl in Hu.
        apply not_true_iff_false. rewrite newSession_valid.
        destruct Hopen as [Hother | Hlate]; [done | lia].
      * rewrite lookup_insert_ne by done. intros Hl Hu.
        apply (IsValid_later s now now' Hle). by apply (Hnone tok).
    + simpl. by rewrite lookup_insert_ne.
Qed.

Lemma store0_alice_noValidSession : noValidSession store0 "alice" 10.
Proof.
  intros token session.
  assert (sessions store0 = ∅) as -> by (vm_compute; reflexivity).
  by rewrite lookup_empty.
Qed.

Lemma store_aliased_alice : users store_aliased !! "alice" = Some bob.
Proof. vm_compute. reflexivity. Qed.

Lemma store_aliased_noValidSession : noValidSession store_aliased "alice" 10.
Proof. intros token session. simpl. by rewrite lookup_empty. Qed.

Lemma Authenticate_again_after_expiry_witness :
  (∃ err, Authenticate NewInvariantChecker "alice" "token-2" 500
            (authenticated store0 "alice" alice "token-1" 10)
          = (Fail err, authenticated store0 "alice" alice "token-1" 10))
  ∧ (Authenticate NewInvariantChecker "alice" "token-2" 11
       (authenticated store_aliased "alice" bob "token-1" 10)).1
    = Ok (newSession bob "token-2" 11).
Proof.
  split.
  - refine (proj1 (Authenticate_again_after_expiry NewInvariantChecker store0 "alice"
                     alice "token-1" "token-2" 10 500 _
                     store0_alice_noValidSession _ _ _ _) eq_refl _);
      try (vm_compute; reflexivity).
    + discriminate.
    + lia.
    + unfold Hour. lia.
  - assert ("token-2" ≠ "token-1") as Hne by discriminate.
    assert (10 ≤ 11) as Hle by lia.
    assert (uID bob ≠ "alice") as Hother by discriminate.
    rewrite (proj2 (Authenticate_again_after_expiry NewInvariantChecker
                      store_aliased "alice" bob "token-1" "token-2" 10 11
                      store_aliased_alice store_aliased_noValidSession
                      eq_refl Hne eq_refl Hle) (or_introl Hother)).
    vm_compute. reflexivity.
Defined.

Lemma GetSessionByUser_inv (r r' : MemoryRepository) (userID : UserID) (now : Time)
    (res : result Session) :
  GetSessionByUser userID now r = (res, r') →
  r' = r
  ∧ match res with
    | Ok session =>
        ∃ token, sessions r !! token = Some session
                 ∧ sUserID session = userID ∧ IsValid session now = true
    | Fail _ => noValidSession r userID now
    end.
Proof.
  unfold GetSessionByUser.
  destruct (filter _ _) as [|s rest] eqn:Hf; intros [= <- <-]; (split; [done|]).
  - intros tok s Hl Hu. destruct (IsValid s now) eqn:Hv; [|done].
    assert (s ∈ filter (λ session, sUserID session = userID
                                   ∧ IsValid session now = true)
                       (map_to_list (sessions r)).*2) as Hin.
    { apply list_elem_of_filter. split; [done|].
      apply list_elem_of_fmap. exists (tok, s). split; [done|].
      by apply elem_of_map_to_list. }
    rewrite Hf in Hin. by apply elem_of_nil in Hin.
  - assert (s ∈ filter (λ session, sUserID session = userID
                                   ∧ IsValid session now = true)
                       (map_to_list (sessions r)).*2) as Hin.
    { rewrite Hf. apply list_elem_of_here. }
    apply list_elem_of_filter in Hin as [[Hu Hv] Hin].
    apply list_elem_of_fmap in Hin as ([tok s'] & -> & Hin).
    apply elem_of_map_to_list in Hin. by exists tok.
Qed.

(** X12.  [Logout] after [Authenticate]: in the store left by a successful
    [Authenticate] of a user who held no valid session, [Logout] of that
    user at any later time succeeds, clears the current user, leaves no
    valid session filed under the user and changes neither tasks nor index;
    [Logout] of any other user is rejected and changes nothing.  The
    session that [Authenticate] opened is closed when the user record
    carries the key as its [ID] and the session has not expired; when the
    record carries another [ID] the session is filed under that [ID],
    [Logout] does not find it and it stays in the table as it was. *)
Theorem Logout_ends_session (r : MemoryRepository) (userID other : UserID)
    (user : User) (token : string) (now now' : Time) :
  users r !! userID = Some user →
  noValidSession r userID now →
  sessions r !! token = None →
  now ≤ now' →
  other ≠ userID →
  let r1 := authenticated r userID user token now in
  (∃ r2, Logout userID now' r1 = (Ok tt, r2)
         ∧ currentUser r2 = None
         ∧ noValidSession r2 userID now'
         ∧ tasks r2 = tasks r ∧ userTasks r2 = userTasks r
         ∧ (uID user = userID → now' ≤ now + 24 * Hour →
            sessions r2 !! token
            = Some (set_Active (newSession user token now) false))
         ∧ (uID user ≠ userID →
            sessions r2 !! token = Some (newSession user token now)))
  ∧ ∃ err, Logout other now' r1 = (Fail err, r1).
Proof.
  intros Huser Hnone Hfresh Hle Hother r1. split.
  2: { unfold Logout. run. cbn [currentUser r1 authenticated set_currentUser]. run.
       rewrite bool_decide_eq_true_2 by done. run. by eexists. }
  unfold Logout. run. cbn [currentUser r1 authenticated set_currentUser]. run.
  rewrite bool_decide_eq_false_2 by (intros Hn; by apply Hn). run.
  assert (∀ tok s, sessions r1 !! tok = Some s → sUserID s = userID →
                   IsValid s now' = true → tok = token ∧ s = newSession user token now)
    as Honly.
  { intros tok s. simpl. destruct (decide (tok = token)) as [->|Hn].
    - rewrite lookup_insert_eq. by intros [= <-].
    - rewrite lookup_insert_ne by done. intros Hl Hu Hv.
      rewrite (IsValid_later s now now' Hle (Hnone tok s Hl Hu)) in Hv. done. }
  assert (sessions r1 !! token = Some (newSession user token now)) as Hopened.
  { simpl. by rewrite lookup_insert_eq. }
  destruct (GetSessionByUser userID now' r1) as [[s|e] r0] eqn:Hs;
    apply GetSessionByUser_inv in Hs as [-> Hs]; run.
  - destruct Hs as (tok & Hl & Hu & Hv).
    destruct (Honly tok s Hl Hu Hv) as [-> ->].
    unfold UpdateSession. cbn [Token set_Active newSession]. rewrite Hl. run.
    unfold SetCurrentUser. eexists. split; [done|]. simpl.
    split; [done|]. split; [|split; [done|split; [done|split]]].
    + unfold noValidSession. simpl.
      intros tok s. destruct (decide (tok = token)) as [->|Hn].
      * rewrite lookup_insert_eq. by intros [= <-].
      * rewrite !lookup_insert_ne by done. intros Hl' Hu'.
        by apply (IsValid_later s now now' Hle), (Hnone tok).
    + intros _ _. by rewrite lookup_insert_eq.
    + intros Hdiff. by simpl in Hu.
  - unfold SetCurrentUser. eexists. split; [done|]. simpl.
    split; [done|]. split; [exact Hs|]. split; [done|]. split; [done|]. split.
    + intros Huid Hin. exfalso.
      pose proof (Hs token (newSession user token now) Hopened Huid) as Hinv.
      apply not_true_iff_false in Hinv. apply Hinv. by apply newSession_valid.
    + intros _. by rewrite lookup_insert_eq.
Qed.

Lemma Logout_ends_session_witness :
  (∃ r2, Logout "alice" 30 (authenticated store0 "alice" alice "token-1" 10)
         = (Ok tt, r2)
         ∧ currentUser r2 = None
         ∧ sessions r2 !! "token-1"
           = Some (set_Active (newSession alice "token-1" 10) false))
  ∧ (∃ r2, Logout "alice" 30 (authenticated store_aliased "alice" bob "token-1" 10)
           = (Ok tt, r2)
           ∧ sessions r2 !! "token-1" = Some (newSession bob "token-1" 10)).
Proof.
  split.
  - destruct (Logout_ends_session store0 "alice" "bob" alice "token-1" 10 30)
      as [(r2 & Hrun & Hcu & _ & _ & _ & Hclosed & _) _];
      try (vm_compute; reflexivity).
    + exact store0_alice_noValidSession.
    + lia.
    + discriminate.
    + exists r2. split; [exact Hrun|]. split; [exact Hcu|].
      apply Hclosed; [reflexivity | unfold Hour; lia].
  - destruct (Logout_ends_session store_aliased "alice" "bob" bob "token-1" 10 30
                store_aliased_alice store_aliased_noValidSession)
      as [(r2 & Hrun & _ & _ & _ & _ & _ & Hstays) _];
      try (vm_compute; reflexivity).
    + lia.
    + discriminate.
    + exists r2. split; [exact Hrun|]. apply Hstays. discriminate.
Defined.

(** ** Rejections of CreateTask and fresh identifiers *)

Lemma validateDependencies_fails (dependencies : list TaskID)
    (allTasks : gmap TaskID Task) (acc : gset TaskID) :
  (∃ depID, depID ∈ dependencies
            ∧ (allTasks !! depID = None
               ∨ ∃ dep, allTasks !! depID = Some dep ∧ Status dep = StatusCancelled)) →
  ∃ err, validateDependencies dependencies allTasks acc = Fail err.
Proof.
  revert acc. induction dependencies as [|d ds IH]; intros acc (x & Hin & Hbad).
  - by apply elem_of_nil in Hin.
  - simpl. destruct (allTasks !! d) as [dep|] eqn:Hd; [|by eexists].
    case_bool_decide as Hc; [by eexists|].
    apply IH. apply elem_of_cons in Hin as [->|Hin]; [|by exists x].
    destruct Hbad as [Hn | (dep' & Hl & Hs)]; congruence.
Qed.

Lemma Validate_rejects (t : Task) :
  Title t = "" ∨ Description t = "" ∨ isValidPriority (Priority_ t) = false
  ∨ Assignee t = "" ∨ (∃ tag, tag ∈ Tags t ∧ isValidTag tag = false) →
  ∃ err, Validate t = Some err.
Proof.
  intros Hcause. unfold Validate.
  repeat (case_bool_decide; [by eexists|]).
  destruct (isValidStatus _); simpl; [|by eexists].
  destruct (isValidPriority _) eqn:Hp; simpl; [|by eexists].
  repeat (case_bool_decide; [by eexists|]).
  destruct (forallb isValidTag (Tags t)) eqn:Ht; simpl; [|by eexists].
  exfalso. destruct Hcause as [? | [? | [? | [? | (tag & Hin & Hbad)]]]]; try done.
  rewrite forallb_forall in Ht. rewrite Ht in Hbad; [done|]. by apply list_elem_of_In.
Qed.

(** X13.  [CreateTask] rejects the request and leaves the store unchanged
    when nobody is authenticated, when the counter has passed [MaxTasks]
    (1000), when a requested dependency is unknown or cancelled, and when
    the new task would not validate: empty title, description or assignee,
    a priority outside the four levels, or a tag outside the vocabulary. *)
Theorem CreateTask_rejections (chk : InvariantChecker) (title description : string)
    (priority : Priority) (assignee : UserID) (dueDate : option Time)
    (tags : list Tag) (dependencies : list TaskID) (now : Time)
    (r : MemoryRepository) :
  currentUser r = None
  ∨ MaxTasks < nextTaskID r
  ∨ (∃ depID, depID ∈ dependencies
              ∧ (tasks r !! depID = None
                 ∨ ∃ dep, tasks r !! depID = Some dep
                          ∧ Status dep = StatusCancelled))
  ∨ (title = "" ∨ description = "" ∨ isValidPriority priority = false
     ∨ assignee = "" ∨ ∃ tag, tag ∈ tags ∧ isValidTag tag = false) →
  ∃ err, CreateTask chk title description priority assignee dueDate tags
           dependencies now r = (Fail err, r).
Proof.
  intros Hcause. unfold CreateTask. run.
  destruct (currentUser r) as [u|] eqn:Hcu; run; [|by eexists].
  case_bool_decide as Hmax; run; [by eexists|].
  destruct (validateDependencies dependencies (tasks r) ∅) as [depMap|e] eqn:Hval;
    run; [|by eexists].
  destruct (checkCyclicDependencies _ _ _); run; [by eexists|].
  destruct Hcause as [Hc | [Hc | [Hc | Hc]]]; [done | done | |].
  - destruct (validateDependencies_fails dependencies (tasks r) ∅ Hc) as [e He].
    congruence.
  - destruct (Validate_rejects
                (mkTask (nextTaskID r) title description
                        (if bool_decide (0 < length dependencies)%nat
                         then if allCompleted depMap (tasks r)
                              then StatusPending else StatusBlocked
                         else StatusPending)
                        priority assignee u now now dueDate tags depMap))
      as [e ->]; [done|].
    run. by eexists.
Qed.

Lemma CreateTask_rejections_witness :
  ∃ err, CreateTask NewInvariantChecker "Task E" "fifth" PriorityLow "alice" None
           [] [1; 9] 20 store1 = (Fail err, store1).
Proof.
  apply CreateTask_rejections. right. right. left.
  exists 9. split; [|left; vm_compute; reflexivity].
  apply list_elem_of_further, list_elem_of_here.
Defined.

Lemma serve_counter (chk : InvariantChecker) (req : Request) (now : Time)
    (r : MemoryRepository) :
  consistent r → nextTaskID r ≤ nextTaskID (serve chk req now r).
Proof.
  intros (Hwk & _ & _ & Hbelow).
  assert (∀ r', same_shape r r' → nextTaskID r ≤ nextTaskID r') as Hshape.
  { intros r' (_ & -> & _). lia. }
  destruct req; simpl.
  - apply Hshape, Authenticate_same_shape.
  - apply Hshape, Logout_same_shape.
  - destruct (CreateTask _ _ _ _ _ _ _ _ _ _) as [res r'] eqn:Hrun. simpl.
    destruct (CreateTask_outcome _ _ _ _ _ _ _ _ _ _ _ _ Hbelow Hrun)
      as [-> | (task & _ & _ & _ & _ & _ & -> & _)]; lia.
  - by apply Hshape, UpdateTaskStatus_same_shape.
  - by apply Hshape, UpdateTaskPriority_same_shape.
  - destruct (ReassignTask _ _ _ _) as [res r'] eqn:Hrun. simpl.
    destruct (ReassignTask_outcome _ _ _ _ _ _ Hrun) as [-> | (_ & -> & _)]; lia.
  - by apply Hshape, UpdateTaskDetails_same_shape.
  - destruct (DeleteTask _ _) as [res r'] eqn:Hrun. simpl.
    destruct (DeleteTask_outcome _ _ _ _ Hrun)
      as [-> | (task & _ & _ & _ & -> & _)]; lia.
  - by apply Hshape, CheckDependencies_same_shape.
  - apply Hshape, BulkUpdateStatus_same_shape.
Qed.

(** X14.  Identifiers are fresh and never come back: on a consistent store
    the task returned by a successful [CreateTask] carries the value of the
    counter, which is larger than every identifier in the store, the
    counter then stands one above it, and no request ever lowers the
    counter. *)
Theorem CreateTask_fresh_identifier (chk : InvariantChecker)
    (title description : string) (priority : Priority) (assignee : UserID)
    (dueDate : option Time) (tags : list Tag) (dependencies : list TaskID)
    (now : Time) (r r' : MemoryRepository) (task : Task) :
  consistent r →
  CreateTask chk title description priority assignee dueDate tags dependencies
    now r = (Ok task, r') →
  ID task = nextTaskID r
  ∧ nextTaskID r' = ID task + 1
  ∧ (∀ taskID other, tasks r !! taskID = Some other → taskID < ID task)
  ∧ ∀ req now', nextTaskID r' ≤ nextTaskID (serve chk req now' r').
Proof.
  intros Hc Hrun.
  assert (consistent r') as Hc'.
  { pose proof (CreateTask_consistent chk title description priority assignee dueDate
                  tags dependencies now r Hc) as H. by rewrite Hrun in H. }
  destruct Hc as (_ & _ & _ & Hbelow).
  destruct (CreateTask_outcome _ _ _ _ _ _ _ _ _ _ _ _ Hbelow Hrun)
    as [-> | (task' & Hid & _ & _ & Hfree & Ht & Hn & _)].
  - apply CreateTask_inv in Hrun as [(e & [=] & _) | Hmut].
    destruct Hmut as (_ & _ & _ & _ & _ & _ & Hlt & _). lia.
  - apply CreateTask_inv in Hrun as [(e & [=] & _) | Hmut].
    destruct Hmut as (u & depMap & _ & _ & _ & _ & _ & Hres).
    destruct (CheckAllInvariants chk _); [done|]. injection Hres as ->. simpl.
    split; [done|]. split; [done|]. split.
    + intros k t Hl. destruct Hbelow as [_ Hids]. specialize (Hids _ _ Hl). lia.
    + intros req now'. by apply serve_counter.
Qed.

Lemma store1_consistent : consistent store1.
Proof.
  apply (reachable_is_consistent NewInvariantChecker).
  assert (store1
          = serve NewInvariantChecker
              (ReqCreateTask "Task A" "first" PriorityLow "alice" None [TagBug] []) 11
              (serve NewInvariantChecker (ReqAuthenticate "alice" "token-1") 10
                 (set_users (NewMemoryRepository 0)
                    {["alice" := alice; "bob" := bob]}))) as ->
    by (vm_compute; reflexivity).
  do 2 apply reachable_serve. apply reachable_new.
Qed.

Lemma CreateTask_fresh_identifier_witness :
  ID taskB = nextTaskID store1 ∧ nextTaskID store2 = ID taskB + 1.
Proof.
  assert (CreateTask NewInvariantChecker "Task B" "second" PriorityHigh "alice"
            None [TagFeature] [1] 12 store1 = (Ok taskB, store2)) as Hrun
    by (vm_compute; reflexivity).
  destruct (CreateTask_fresh_identifier _ _ _ _ _ _ _ _ _ _ _ _ store1_consistent Hrun)
    as (Hid & Hn & _).
  split; [exact Hid | exact Hn].
Defined.

(** ** Priority and details *)

(** X15.  [UpdateTaskPriority] is reserved to the assignee: for a task
    stored under its identifier it succeeds when the current user is the
    assignee, replacing only priority and update time of that task, and it
    fails without touching the store for everybody else, the creator of the
    task included, and when nobody is authenticated. *)
Theorem UpdateTaskPriority_assignee_only (r : MemoryRepository) (taskID : TaskID)
    (task : Task) (newPriority : Priority) (now : Time) :
  stored r taskID task →
  (currentUser r = Some (Assignee task) →
   UpdateTaskPriority taskID newPriority now r
   = (Ok tt,
      set_tasks r (<[taskID := set_UpdatedAt (set_Priority task newPriority) now]>
                     (tasks r))))
  ∧ (currentUser r ≠ Some (Assignee task) →
     ∃ err, UpdateTaskPriority taskID newPriority now r = (Fail err, r)).
Proof.
  intros [Htask Hid]. split.
  - intros Hcu. unfold UpdateTaskPriority. run. rewrite Hcu. run. rewrite Htask. run.
    rewrite bool_decide_eq_false_2 by (intros Hn; by apply Hn). run.
    rewrite (UpdateTask_same_assignee r _ task); simpl; rewrite ?Hid; done.
  - intros Hcu. unfold UpdateTaskPriority. run.
    destruct (currentUser r) as [u|]; run; [|by eexists].
    rewrite Htask. run. rewrite bool_decide_eq_true_2 by congruence. run.
    by eexists.
Qed.

Lemma UpdateTaskPriority_assignee_only_witness :
  ∃ err, UpdateTaskPriority 2 PriorityHigh 20 store_delegated
         = (Fail err, store_delegated).
Proof.
  apply (proj2 (UpdateTaskPriority_assignee_only store_delegated 2 taskC PriorityHigh 20
                  store_delegated_stored_taskC)).
  vm_compute. discriminate.
Defined.

(** X16.  A priority outside the four levels makes the task uneditable
    for as long as it stays: [UpdateTaskPriority] lets the assignee store
    such a priority, and in every store in which the task carries such a
    priority (the store that call returns, and any later one in which the
    priority has not been replaced) every [UpdateTaskDetails] on the task
    fails and leaves the store unchanged, whoever calls and whatever
    title, description and due date it carries; for the assignee the error
    is the validation error. *)
Theorem invalid_priority_blocks_details (r : MemoryRepository) (taskID : TaskID)
    (task : Task) (newPriority : Priority) (now : Time) :
  stored r taskID task →
  currentUser r = Some (Assignee task) →
  isValidPriority newPriority = false →
  (∃ r1, UpdateTaskPriority taskID newPriority now r = (Ok tt, r1)
         ∧ Priority_ <$> tasks r1 !! taskID = Some newPriority)
  ∧ ∀ (r2 : MemoryRepository) (task2 : Task),
      tasks r2 !! taskID = Some task2 →
      isValidPriority (Priority_ task2) = false →
      ∀ title description dueDate now',
        ∃ err, UpdateTaskDetails taskID title description dueDate now' r2
               = (Fail err, r2)
               ∧ (currentUser r2 = Some (Assignee task2) →
                  ∃ cause, err = Wrapf "task validation failed: %w" cause).
Proof.
  intros [Htask Hid] Hcu Hbad. split.
  { exists (set_tasks r (<[taskID := set_UpdatedAt (set_Priority task newPriority) now]>
                          (tasks r))).
    split.
    - unfold UpdateTaskPriority. run. rewrite Hcu. run. rewrite Htask. run.
      rewrite bool_decide_eq_false_2 by (intros Hn; by apply Hn). run.
      rewrite (UpdateTask_same_assignee r _ task); simpl; rewrite ?Hid; done.
    - simpl. by rewrite lookup_insert_eq. }
  intros r2 task2 Htask2 Hbad2 title description dueDate now'.
  unfold UpdateTaskDetails. run.
  destruct (currentUser r2) as [u|] eqn:Hcu2; run;
    [|eexists; split; [done | by intros [=]]].
  rewrite Htask2. run.
  case_bool_decide as Ha; run.
  { eexists. split; [done|]. intros [= ->]. done. }
  unfold Validate.
  cbn [Title Description Status Priority_ set_UpdatedAt set_DueDate
       set_Description set_Title].
  repeat (case_bool_decide;
          [run; eexists; split; [done | intros _; by eexists]|]).
  destruct (isValidStatus _); simpl;
    [|run; eexists; split; [done | intros _; by eexists]].
  rewrite Hbad2. simpl. run. eexists. split; [done | intros _; by eexists].
Qed.

Lemma invalid_priority_blocks_details_witness :
  ∃ r1, UpdateTaskPriority 1 "urgent" 20 store1 = (Ok tt, r1)
        ∧ Priority_ <$> tasks r1 !! 1 = Some "urgent".
Proof.
  exact (proj1 (invalid_priority_blocks_details store1 1 taskA "urgent" 20
                  store1_stored_taskA store1_currentUser eq_refl)).
Defined.

(** ** Blocked tasks *)

(** X17.  [ShouldUnblock] is the complement of [IsBlocked] on blocked
    tasks and false on all others: a task is due for unblocking exactly
    when its status is [blocked] and [IsBlocked] no longer holds; in
    particular a blocked task without dependencies is due. *)
Theorem ShouldUnblock_IsBlocked (t : Task) (allTasks : gmap TaskID Task) :
  ShouldUnblock t allTasks
  = bool_decide (Status t = StatusBlocked) && negb (IsBlocked t allTasks).
Proof.
  unfold ShouldUnblock, IsBlocked.
  case_bool_decide as Hs; simpl; [|done].
  case_bool_decide as Hd; [|done].
  apply size_empty_iff in Hd.
  assert (Dependencies t = ∅) as -> by (apply leibniz_equiv; exact Hd).
  by rewrite elements_empty.
Qed.

(** ** The dependency graph of a reachable store *)

Lemma same_shape_deps_decreasing (r r' : MemoryRepository) :
  same_shape r r' → deps_decreasing r → deps_decreasing r'.
Proof.
  intros (_ & _ & Hs) Hdd k t' d Hl Hd.
  specialize (Hs k). unfold entry_shape_eq in Hs. rewrite Hl in Hs.
  destruct (tasks r !! k) as [t|] eqn:Hlt; [|done].
  destruct Hs as (_ & _ & Hdeps). rewrite Hdeps in Hd. by apply (Hdd k t d).
Qed.

Lemma serve_deps_decreasing (chk : InvariantChecker) (req : Request)
    (now : Time) (r : MemoryRepository) :
  consistent r → deps_decreasing r → deps_decreasing (serve chk req now r).
Proof.
  intros Hc Hdd. pose proof Hc as (Hwk & _ & _ & Hbelow).
  destruct req; simpl.
  - apply (same_shape_deps_decreasing r); [by apply Authenticate_same_shape | done].
  - apply (same_shape_deps_decreasing r); [by apply Logout_same_shape | done].
  - destruct (CreateTask chk title description priority assignee dueDate tags
                dependencies now r) as [res r'] eqn:Hrun. simpl.
    destruct (CreateTask_outcome _ _ _ _ _ _ _ _ _ _ _ _ Hbelow Hrun)
      as [-> | (task & Hid & _ & Hdeps & Hfree & Ht & _)]; [done|].
    intros k t d. rewrite Ht. destruct (decide (k = nextTaskID r)) as [->|Hne].
    + rewrite lookup_insert_eq. intros [= <-] Hd.
      destruct (Hdeps d Hd) as [td Htd]. destruct Hbelow as [_ Hids].
      specialize (Hids _ _ Htd). lia.
    + rewrite lookup_insert_ne by done. apply Hdd.
  - apply (same_shape_deps_decreasing r); [by apply UpdateTaskStatus_same_shape | done].
  - apply (same_shape_deps_decreasing r); [by apply UpdateTaskPriority_same_shape | done].
  - destruct (ReassignTask taskID newAssignee now r) as [res r'] eqn:Hrun. simpl.
    destruct (ReassignTask_outcome _ _ _ _ _ _ Hrun)
      as [-> | (-> & _ & [task Htask])]; [done|].
    destruct (ReassignTask_effect r r' taskID task newAssignee now)
      as (Ht & _); [by split; [|apply (Hwk _ _ Htask)] | done |].
    intros k t d. rewrite Ht. destruct (decide (k = taskID)) as [->|Hne].
    + rewrite lookup_insert_eq. intros [= <-]. simpl. by apply (Hdd taskID task).
    + rewrite lookup_insert_ne by done. apply Hdd.
  - apply (same_shape_deps_decreasing r); [by apply UpdateTaskDetails_same_shape | done].
  - destruct (DeleteTask taskID r) as [res r'] eqn:Hrun. simpl.
    destruct (DeleteTask_outcome _ _ _ _ Hrun)
      as [-> | (task & _ & _ & Ht & _)]; [done|].
    intros k t d. rewrite Ht. intros [_ Hl]%lookup_delete_Some. by apply (Hdd k t).
  - apply (same_shape_deps_decreasing r); [by apply CheckDependencies_same_shape | done].
  - apply (same_shape_deps_decreasing r); [by apply BulkUpdateStatus_same_shape | done].
Qed.

Lemma reachable_deps_decreasing (chk : InvariantChecker) (r : MemoryRepository) :
  reachable chk r → deps_decreasing r.
Proof.
  induction 1 as [now us | req now r Hr IH].
  - intros k t d Hl. simpl in Hl. by rewrite lookup_empty in Hl.
  - apply serve_deps_decreasing; [by apply (reachable_is_consistent chk) | done].
Qed.

(** On a graph whose edges lead to smaller identifiers the search of the
    checker finds no back edge, and it leaves the recursion stack as it
    found it. *)
Lemma invariants_hasCycle_decreasing (ts : gmap TaskID Task) :
  (∀ taskID task depID, ts !! taskID = Some task → depID ∈ Dependencies task →
                        depID < taskID) →
  ∀ (fuel : nat) (taskID : TaskID) (m : invariants.marks) (b : bool)
    (m' : invariants.marks),
    (∀ x, x ∈ m.2 → taskID < x) →
    invariants.hasCycle fuel ts taskID m = Some (b, m') →
    b = false ∧ m'.2 ⊆ m.2.
Proof.
  intros Hdec. induction fuel as [|fuel IH]; intros taskID m b m' Hstack Hrun; [done|].
  cbn [invariants.hasCycle] in Hrun.
  destruct (ts !! taskID) as [task|] eqn:Htask.
  2: { injection Hrun as <- <-. split; [done|]. simpl. set_solver. }
  set (m1 := ({[taskID]} ∪ m.1, {[taskID]} ∪ m.2)) in Hrun.
  assert (∀ (deps : list TaskID) (m0 : invariants.marks) (b0 : bool)
            (m0' : invariants.marks),
            (∀ d, d ∈ deps → d < taskID) → (∀ x, x ∈ m0.2 → taskID ≤ x) →
            (fix loop (deps : list TaskID) (m : invariants.marks)
               : option (bool * invariants.marks) :=
               match deps with
               | [] => Some (false, m)
               | depID :: rest =>
                   if negb (bool_decide (depID ∈ m.1)) then
                     match invariants.hasCycle fuel ts depID m with
                     | None => None
                     | Some (true, m') => Some (true, m')
                     | Some (false, m') => loop rest m'
                     end
                   else if bool_decide (depID ∈ m.2) then Some (true, m)
                   else loop rest m
               end) deps m0 = Some (b0, m0') →
            b0 = false ∧ m0'.2 ⊆ m0.2) as Hloop.
  { induction deps as [|d rest IHd]; intros m0 b0 m0' Hall Hst Hl.
    - by injection Hl as <- <-.
    - assert (d < taskID) as Hd by apply Hall, list_elem_of_here.
      assert (∀ d', d' ∈ rest → d' < taskID) as Hrest
        by (intros d' Hd'; by apply Hall, list_elem_of_further).
      case_bool_decide as Hvis; cbn [negb] in Hl.
      + case_bool_decide as Hrec.
        * apply Hst in Hrec. lia.
        * by apply IHd.
      + destruct (invariants.hasCycle fuel ts d m0) as [[[] m2]|] eqn:Hd2; [| |done].
        * apply IH in Hd2 as [[=] _]. intros x Hx. apply Hst in Hx. lia.
        * apply IH in Hd2 as [_ Hsub]; [|intros x Hx; apply Hst in Hx; lia].
          apply IHd in Hl as [-> Hsub']; [|done|].
          -- split; [done|]. set_solver.
          -- intros x Hx. apply Hst. by apply Hsub. }
  destruct ((fix loop (deps : list TaskID) (m : invariants.marks)
               : option (bool * invariants.marks) := _)
            (elements (Dependencies task)) m1) as [[b1 m2]|] eqn:Hl; [|done].
  apply Hloop in Hl as [-> Hsub].
  - injection Hrun as <- <-. split; [done|]. simpl in *. set_solver.
  - intros d Hd. apply elem_of_elements in Hd. by apply (Hdec taskID task).
  - intros x Hx. unfold m1 in Hx. cbn [snd] in Hx.
    apply elem_of_union in Hx as [Hx|Hx]; [apply elem_of_singleton in Hx; lia|].
    apply Hstack in Hx. lia.
Qed.

Lemma usecase_hasCycle_decreasing (newTaskID : TaskID) (dependencies : gset TaskID)
    (allTasks : gmap TaskID Task) :
  (∀ taskID task depID, allTasks !! taskID = Some task →
                        depID ∈ Dependencies task → depID < taskID) →
  (∀ depID, depID ∈ dependencies → depID < newTaskID) →
  ∀ (fuel : nat) (taskID : TaskID) (m : invariants.marks) (b : bool)
    (m' : invariants.marks),
    (∀ x, x ∈ m.2 → taskID < x) →
    usecase.hasCycle fuel newTaskID dependencies allTasks taskID m = Some (b, m') →
    b = false ∧ m'.2 ⊆ m.2.
Proof.
  intros Hdec Hnew.
  induction fuel as [|fuel IH]; intros taskID m b m' Hstack Hrun; [done|].
  cbn [usecase.hasCycle] in Hrun.
  set (m1 := ({[taskID]} ∪ m.1, {[taskID]} ∪ m.2)) in Hrun.
  assert (∀ x, x ∈ m1.2 → taskID ≤ x) as Hm1.
  { intros x Hx. unfold m1 in Hx. cbn [snd] in Hx.
    apply elem_of_union in Hx as [Hx|Hx]; [apply elem_of_singleton in Hx; lia|].
    apply Hstack in Hx. lia. }
  assert (∀ (deps : list TaskID) (m0 : invariants.marks) (b0 : bool)
            (m0' : invariants.marks),
            (∀ d, d ∈ deps → d < taskID) → (∀ x, x ∈ m0.2 → taskID ≤ x) →
            (fix loop (deps : list TaskID) (m : invariants.marks)
               : option (bool * invariants.marks) :=
               match deps with
               | [] => Some (false, m)
               | depID :: rest =>
                   if negb (bool_decide (depID ∈ m.1)) then
                     match usecase.hasCycle fuel newTaskID dependencies allTasks
                             depID m with
                     | None => None
                     | Some (true, m') => Some (true, m')
                     | Some (false, m') => loop rest m'
                     end
                   else if bool_decide (depID ∈ m.2) then Some (true, m)
                   else loop rest m
               end) deps m0 = Some (b0, m0') →
            b0 = false ∧ m0'.2 ⊆ m0.2) as Hloop.
  { induction deps as [|d rest IHd]; intros m0 b0 m0' Hall Hst Hl.
    - by injection Hl as <- <-.
    - assert (d < taskID) as Hd by apply Hall, list_elem_of_here.
      assert (∀ d', d' ∈ rest → d' < taskID) as Hrest
        by (intros d' Hd'; by apply Hall, list_elem_of_further).
      case_bool_decide as Hvis; cbn [negb] in Hl.
      + case_bool_decide as Hrec.
        * apply Hst in Hrec. lia.
        * by apply IHd.
      + destruct (usecase.hasCycle fuel newTaskID dependencies allTasks d m0)
          as [[[] m2]|] eqn:Hd2; [| |done].
        * apply IH in Hd2 as [[=] _]. intros x Hx. apply Hst in Hx. lia.
        * apply IH in Hd2 as [_ Hsub]; [|intros x Hx; apply Hst in Hx; lia].
          apply IHd in Hl as [-> Hsub']; [|done|].
          -- split; [done|]. set_solver.
          -- intros x Hx. apply Hst. by apply Hsub. }
  destruct (allTasks !! taskID) as [task|] eqn:Htask.
  - destruct ((fix loop (deps : list TaskID) (m : invariants.marks)
                 : option (bool * invariants.marks) := _)
              (elements (Dependencies task)) m1) as [[b1 m2]|] eqn:Hl; [|done].
    apply Hloop in Hl as [-> Hsub]; [|
      intros d Hd; apply elem_of_elements in Hd; by apply (Hdec taskID task) | done].
    injection Hrun as <- <-. split; [done|]. simpl in *. set_solver.
  - case_bool_decide as Heq.
    + destruct ((fix loop (deps : list TaskID) (m : invariants.marks)
                   : option (bool * invariants.marks) := _)
                (elements dependencies) m1) as [[b1 m2]|] eqn:Hl; [|done].
      apply Hloop in Hl as [-> Hsub]; [|
        intros d Hd; apply elem_of_elements in Hd; rewrite Heq; by apply Hnew | done].
      injection Hrun as <- <-. split; [done|]. simpl in *. set_solver.
    + injection Hrun as <- <-. split; [done|]. simpl. set_solver.
Qed.

Lemma checkNoCyclicDependencies_decreasing (r : MemoryRepository) (now : Time) :
  deps_decreasing r →
  invariants.checkNoCyclicDependencies (snapshot now r) = None.
Proof.
  intros Hdd. unfold invariants.checkNoCyclicDependencies.
  apply forTasks_None. intros taskID task Hl. cbn [Tasks snapshot] in *.
  destruct (invariants_hasCycle_enough (tasks r) (invariants.graphNodes (tasks r)))
    with (fuel := S (size (invariants.graphNodes (tasks r)))) (taskID := taskID)
         (m := ((∅, ∅) : invariants.marks)) as (b & m' & Hrun & _).
  - intros k t d Hk Hd. by apply (graphNodes_dep (tasks r) k d t).
  - by apply (graphNodes_key (tasks r) taskID task).
  - simpl. set_solver.
  - simpl. rewrite difference_empty_L. lia.
  - rewrite Hrun.
    apply (invariants_hasCycle_decreasing (tasks r) Hdd) in Hrun as [-> _]; [done|].
    simpl. set_solver.
Qed.

Lemma checkCyclicDependencies_decreasing (r : MemoryRepository)
    (dependencies : list TaskID) (depMap : gset TaskID) :
  ids_below_counter r → deps_decreasing r →
  validateDependencies dependencies (tasks r) ∅ = Ok depMap →
  checkCyclicDependencies (nextTaskID r) depMap (tasks r) = None.
Proof.
  intros [_ Hids] Hdd Hval. apply validateDependencies_ok in Hval as [-> Hex].
  unfold checkCyclicDependencies.
  set (deps := list_to_set dependencies ∪ ∅ : gset TaskID).
  destruct (usecase_hasCycle_enough (nextTaskID r) deps (tasks r)
              ({[nextTaskID r]} ∪ deps ∪ invariants.graphNodes (tasks r)))
    with (fuel := S (size ({[nextTaskID r]} ∪ deps
                           ∪ invariants.graphNodes (tasks r))))
         (taskID := nextTaskID r) (m := ((∅, ∅) : invariants.marks))
    as (b & m' & Hrun & _).
  - intros k t d Hk Hd. apply elem_of_union_r. by apply (graphNodes_dep (tasks r) k d t).
  - set_solver.
  - set_solver.
  - simpl. set_solver.
  - simpl. rewrite difference_empty_L. lia.
  - rewrite Hrun.
    apply (usecase_hasCycle_decreasing (nextTaskID r) deps (tasks r) Hdd) in Hrun
      as [-> _]; [done| |simpl; set_solver].
    intros d Hd. destruct (Hex d) as (dep & Hdep & _); [unfold deps in Hd; set_solver|].
    specialize (Hids _ _ Hdep). lia.
Qed.

(** ** The statuses of a reachable store *)

Lemma statuses_valid_insert (r : MemoryRepository) (taskID : TaskID) (task : Task) :
  statuses_valid r → isValidStatus (Status task) = true →
  statuses_valid (set_tasks r (<[taskID := task]> (tasks r))).
Proof.
  intros Hsv Hv k t. simpl. destruct (decide (k = taskID)) as [->|Hne].
  - rewrite lookup_insert_eq. by intros [= <-].
  - rewrite lookup_insert_ne by done. apply Hsv.
Qed.

Lemma Authenticate_tasks (chk : InvariantChecker) (userID : UserID)
    (token : string) (now : Time) (r : MemoryRepository) :
  tasks (Authenticate chk userID token now r).2 = tasks r.
Proof.
  unfold Authenticate. run.
  destruct (users r !! userID); run; [|done].
  destruct (GetSessionByUser userID now r) as [[s|e] r0] eqn:Hs.
  - assert (r0 = r) as ->.
    { unfold GetSessionByUser in Hs. destruct (filter _ _); by injection Hs. }
    run. destruct (IsValid s now); run; [done|].
    unfold CreateSession. cbn [Token].
    destruct (sessions r !! token); run; [done|].
    by destruct (CheckAllInvariants chk _).
  - assert (r0 = r) as ->.
    { unfold GetSessionByUser in Hs. destruct (filter _ _); by injection Hs. }
    run. unfold CreateSession. cbn [Token].
    destruct (sessions r !! token); run; [done|].
    by destruct (CheckAllInvariants chk _).
Qed.

Lemma Logout_tasks (userID : UserID) (now : Time) (r : MemoryRepository) :
  tasks (Logout userID now r).2 = tasks r.
Proof.
  unfold Logout. run.
  destruct (currentUser r) as [u|]; run; [|done].
  destruct (bool_decide (u ≠ userID)); run; [done|].
  destruct (GetSessionByUser userID now r) as [[s|e] r0] eqn:Hs;
    (assert (r0 = r) as ->;
     [unfold GetSessionByUser in Hs; destruct (filter _ _); by injection Hs|]);
    run; [|done].
  unfold UpdateSession. cbn [Token set_Active].
  by destruct (sessions r !! Token s).
Qed.

Lemma UpdateTaskStatus_statuses_valid (chk : InvariantChecker) (taskID : TaskID)
    (newStatus : TaskStatus) (now : Time) (r : MemoryRepository) :
  well_keyed r → statuses_valid r →
  statuses_valid (UpdateTaskStatus chk taskID newStatus now r).2.
Proof.
  intros Hwk Hsv. unfold UpdateTaskStatus. run.
  destruct (currentUser r) as [u|]; run; [|exact Hsv].
  destruct (tasks r !! taskID) as [task|] eqn:Htask; run; [|exact Hsv].
  destruct (existsb _ _); run; [|exact Hsv].
  destruct (IsValidTransition _ _) eqn:Hv; run; [|exact Hsv].
  pose proof (Hwk _ _ Htask) as Hid.
  destruct (UpdateTask_same_shape r task
              (set_UpdatedAt (set_Status task newStatus) now) Hwk)
    as [Hupd _]; [simpl; by rewrite Hid | done | done |].
  assert (statuses_valid
            (set_tasks r
               (<[ID (set_UpdatedAt (set_Status task newStatus) now)
                  := set_UpdatedAt (set_Status task newStatus) now]> (tasks r))))
    as Hpost.
  { apply statuses_valid_insert; [done|]. simpl.
    by apply (legal_target_valid (Status task)). }
  case_bool_decide; run.
  - destruct (dependenciesCompleted task _); run; [|exact Hsv].
    rewrite Hupd. run. by destruct (CheckAllInvariants chk _).
  - rewrite Hupd. run. by destruct (CheckAllInvariants chk _).
Qed.

Lemma UpdateTaskPriority_statuses_valid (taskID : TaskID) (newPriority : Priority)
    (now : Time) (r : MemoryRepository) :
  well_keyed r → statuses_valid r →
  statuses_valid (UpdateTaskPriority taskID newPriority now r).2.
Proof.
  intros Hwk Hsv. unfold UpdateTaskPriority. run.
  destruct (currentUser r) as [u|]; run; [|exact Hsv].
  destruct (tasks r !! taskID) as [task|] eqn:Htask; run; [|exact Hsv].
  destruct (bool_decide (Assignee task ≠ u)); run; [exact Hsv|].
  pose proof (Hwk _ _ Htask) as Hid.
  destruct (UpdateTask_same_shape r task
              (set_UpdatedAt (set_Priority task newPriority) now) Hwk)
    as [Hupd _]; [simpl; by rewrite Hid | done | done |].
  rewrite Hupd. simpl.
  apply statuses_valid_insert; [done|]. simpl. by apply (Hsv taskID).
Qed.

Lemma UpdateTaskDetails_statuses_valid (taskID : TaskID) (title description : string)
    (dueDate : option Time) (now : Time) (r : MemoryRepository) :
  well_keyed r → statuses_valid r →
  statuses_valid (UpdateTaskDetails taskID title description dueDate now r).2.
Proof.
  intros Hwk Hsv. unfold UpdateTaskDetails. run.
  destruct (currentUser r) as [u|]; run; [|exact Hsv].
  destruct (tasks r !! taskID) as [task|] eqn:Htask; run; [|exact Hsv].
  destruct (bool_decide (Assignee task ≠ u)); run; [exact Hsv|].
  destruct (Validate _); run; [exact Hsv|].
  pose proof (Hwk _ _ Htask) as Hid.
  destruct (UpdateTask_same_shape r task
              (set_UpdatedAt
                 (set_DueDate (set_Description (set_Title task title) description)
                    dueDate) now) Hwk)
    as [Hupd _]; [simpl; by rewrite Hid | done | done |].
  rewrite Hupd. simpl.
  apply statuses_valid_insert; [done|]. simpl. by apply (Hsv taskID).
Qed.

Lemma CreateTask_status (chk : InvariantChecker) (title description : string)
    (priority : Priority) (assignee : UserID) (dueDate : option Time)
    (tags : list Tag) (dependencies : list TaskID) (now : Time)
    (r r' : MemoryRepository) (res : result Task) :
  ids_below_counter r →
  CreateTask chk title description priority assignee dueDate tags dependencies
    now r = (res, r') →
  r' = r
  ∨ ∃ task, tasks r' = <[nextTaskID r := task]> (tasks r)
            ∧ (Status task = StatusPending ∨ Status task = StatusBlocked).
Proof.
  intros [Hone Hids]. unfold CreateTask. run.
  destruct (currentUser r) as [u|] eqn:Hcu; run; [|intros [= _ <-]; by left].
  destruct (bool_decide (MaxTasks < nextTaskID r)); run; [intros [= _ <-]; by left|].
  destruct (validateDependencies dependencies (tasks r) ∅) as [depMap|e] eqn:Hval;
    run; [|intros [= _ <-]; by left].
  destruct (checkCyclicDependencies _ _ _); run; [intros [= _ <-]; by left|].
  destruct (Validate _); run; [intros [= _ <-]; by left|].
  assert (tasks r !! nextTaskID r = None) as Hfree.
  { destruct (tasks r !! nextTaskID r) as [t|] eqn:Hl; [|done].
    specialize (Hids _ _ Hl). lia. }
  unfold memory.CreateTask. cbn [ID].
  rewrite bool_decide_eq_false_2 by lia.
  cbn [ID Assignee Dependencies tasks nextTaskID userTasks set_nextTaskID
       set_userTasks set_tasks].
  rewrite Hfree. run.
  cbn [ID Assignee Dependencies tasks nextTaskID userTasks set_nextTaskID
       set_userTasks set_tasks].
  intros Hrun. right.
  eexists (mkTask (nextTaskID r) title description _ priority assignee u now now
                  dueDate tags depMap).
  destruct (CheckAllInvariants chk _); injection Hrun as <- <-;
    cbn [ID Assignee Dependencies tasks nextTaskID userTasks set_nextTaskID
         set_userTasks set_tasks Status];
    (split; [done|]);
    (destruct (bool_decide (0 < length dependencies)%nat);
     [destruct (allCompleted depMap (tasks r))|]; auto).
Qed.

Lemma serve_statuses_valid (chk : InvariantChecker) (req : Request)
    (now : Time) (r : MemoryRepository) :
  consistent r → statuses_valid r → statuses_valid (serve chk req now r).
Proof.
  intros Hc Hsv. pose proof Hc as (Hwk & _ & _ & Hbelow).
  destruct req; simpl.
  - intros k t. rewrite Authenticate_tasks. apply Hsv.
  - intros k t. rewrite Logout_tasks. apply Hsv.
  - destruct (CreateTask chk title description priority assignee dueDate tags
                dependencies now r) as [res r'] eqn:Hrun. simpl.
    destruct (CreateTask_status _ _ _ _ _ _ _ _ _ _ _ _ Hbelow Hrun)
      as [-> | (task & Ht & Hst)]; [done|].
    intros k t. rewrite Ht. destruct (decide (k = nextTaskID r)) as [->|Hne].
    + rewrite lookup_insert_eq. intros [= <-]. by destruct Hst as [-> | ->].
    + rewrite lookup_insert_ne by done. apply Hsv.
  - by apply UpdateTaskStatus_statuses_valid.
  - by apply UpdateTaskPriority_statuses_valid.
  - destruct (ReassignTask taskID newAssignee now r) as [res r'] eqn:Hrun. simpl.
    destruct (ReassignTask_outcome _ _ _ _ _ _ Hrun)
      as [-> | (-> & _ & [task Htask])]; [done|].
    destruct (ReassignTask_effect r r' taskID task newAssignee now)
      as (Ht & _); [by split; [|apply (Hwk _ _ Htask)] | done |].
    intros k t. rewrite Ht. destruct (decide (k = taskID)) as [->|Hne].
    + rewrite lookup_insert_eq. intros [= <-]. simpl. by apply (Hsv taskID).
    + rewrite lookup_insert_ne by done. apply Hsv.
  - by apply UpdateTaskDetails_statuses_valid.
  - destruct (DeleteTask taskID r) as [res r'] eqn:Hrun. simpl.
    destruct (DeleteTask_outcome _ _ _ _ Hrun)
      as [-> | (task & _ & _ & Ht & _)]; [done|].
    intros k t. rewrite Ht. intros [_ Hl]%lookup_delete_Some. by apply (Hsv k).
  - destruct (CheckDependencies_run r now Hwk) as (r' & -> & _ & Hsome & Hnone).
    simpl. intros k t' Hl.
    destruct (tasks r !! k) as [t|] eqn:Hk.
    + rewrite (Hsome k t Hk) in Hl. injection Hl as <-.
      destruct (ShouldUnblock t (tasks r)); [done | by apply (Hsv k)].
    + by rewrite (Hnone k Hk) in Hl.
  - unfold BulkUpdateStatus. run.
    destruct (currentUser r) as [u|]; run; [|exact Hsv].
    destruct (bulkCheck_spec u taskIDs newStatus r) as [[Hall ->] | [_ (e & ->)]];
      run; [|exact Hsv].
    unfold memory.BulkUpdateStatus. run.
    assert (statuses_valid
              (set_tasks r (foldl (λ ts id, alter (withStatus newStatus now) id ts)
                                  (tasks r) taskIDs))) as Hpost.
    { intros k t'. simpl. rewrite bulk_alter_lookup.
      destruct (decide (k ∈ taskIDs)) as [Hin|_]; [|apply Hsv].
      rewrite Forall_forall in Hall. destruct (Hall k Hin) as (t & Hl & _ & Hv).
      rewrite Hl. intros [= <-]. simpl. by apply (legal_target_valid (Status t)). }
    by destruct (CheckAllInvariants chk _).
Qed.

Lemma reachable_statuses_valid (chk : InvariantChecker) (r : MemoryRepository) :
  reachable chk r → statuses_valid r.
Proof.
  induction 1 as [now us | req now r Hr IH].
  - intros k t Hl. simpl in Hl. by rewrite lookup_empty in Hl.
  - apply serve_statuses_valid; [by apply (reachable_is_consistent chk) | done].
Qed.

(** ** What the checker can never report on a reachable store *)

Lemma snapshot_GetUserTasks (now : Time) (r : MemoryRepository) (u : UserID)
    (taskID : TaskID) :
  taskID ∈ domain.GetUserTasks (snapshot now r) u ↔ owns r u taskID.
Proof.
  unfold domain.GetUserTasks, snapshot, owns. cbn [UserTasks].
  rewrite lookup_omap.
  destruct (userTasks r !! u) as [ids|]; simpl.
  - destruct (elements ids) as [|x l] eqn:Hel.
    + split; [by intros ?%elem_of_nil|]. intros (ids' & [= <-] & Hin).
      apply elem_of_elements in Hin. rewrite Hel in Hin. by apply elem_of_nil in Hin.
    + rewrite <- Hel, elem_of_elements. split.
      * intros Hin. by exists ids.
      * by intros (ids' & [= <-] & Hin).
  - split; [by intros ?%elem_of_nil|]. by intros (ids' & [=] & _).
Qed.

Lemma reachable_checks (chk : InvariantChecker) (r : MemoryRepository) (now : Time) :
  reachable chk r →
  invariants.checkNoOrphanTasks (snapshot now r) = None
  ∧ invariants.checkTaskOwnership (snapshot now r) = None
  ∧ invariants.checkValidTaskIds (snapshot now r) = None
  ∧ invariants.checkNoDuplicateTaskIds (snapshot now r) = None
  ∧ invariants.checkValidStateTransitions (snapshot now r) = None
  ∧ invariants.checkNoCyclicDependencies (snapshot now r) = None.
Proof.
  intros Hr.
  destruct (reachable_is_consistent chk r Hr) as (Hwk & Hix & _ & _ & Hids).
  pose proof (reachable_statuses_valid chk r Hr) as Hsv.
  pose proof (reachable_deps_decreasing chk r Hr) as Hdd.
  assert (∀ taskID task, tasks r !! taskID = Some task →
            taskID ∈ domain.GetUserTasks (snapshot now r) (Assignee task)) as Hown.
  { intros taskID task Hl. apply snapshot_GetUserTasks, Hix. by exists task. }
  unfold invariants.checkNoOrphanTasks, invariants.checkTaskOwnership,
    invariants.checkValidTaskIds, invariants.checkValidStateTransitions.
  rewrite !forTasks_None. rewrite (proj2 (noDuplicate_check_outcomes _)).
  split; [|split; [|split; [|split; [|split]]]].
  - intros taskID task Hl. apply if_None.
    apply existsb_exists.
    exists (domain.GetUserTasks (snapshot now r) (Assignee task)).
    split; [|by apply existsb_id_elem_of, Hown].
    apply list_elem_of_In. specialize (Hown _ _ Hl).
    unfold domain.GetUserTasks in *.
    destruct (UserTasks (snapshot now r) !! Assignee task) as [l|] eqn:Hu;
      [|by apply elem_of_nil in Hown].
    apply list_elem_of_fmap. exists (Assignee task, l). split; [done|].
    by apply elem_of_map_to_list.
  - intros taskID task Hl. by apply if_None, existsb_id_elem_of, Hown.
  - intros taskID task Hl. cbn [Tasks NextTaskID snapshot] in *.
    specialize (Hids _ _ Hl). rewrite !bool_decide_eq_false_2 by lia. done.
  - intros taskID task Hl. by apply (Hwk taskID).
  - intros taskID task Hl. apply if_Some_None, negb_false_iff.
    rewrite validStates_spec. by apply (Hsv taskID).
  - by apply checkNoCyclicDependencies_decreasing.
Qed.

(** X18.  Six of the eight invariants hold in every store that the service
    reaches, whatever checker is injected and although five operations
    never call it: on the snapshot of a reachable store the checks
    NoOrphanTasks, TaskOwnership, ValidTaskIds, NoDuplicateTaskIds,
    ValidStateTransitions and NoCyclicDependencies pass.  Hence
    [CheckAllInvariants] rejects a reachable store only for a task updated
    before its creation time or a task without creator. *)
Theorem reachable_passes_structural_checks (chk : InvariantChecker)
    (r : MemoryRepository) (now : Time) :
  reachable chk r →
  (invariants.checkNoOrphanTasks (snapshot now r) = None
   ∧ invariants.checkTaskOwnership (snapshot now r) = None
   ∧ invariants.checkValidTaskIds (snapshot now r) = None
   ∧ invariants.checkNoDuplicateTaskIds (snapshot now r) = None
   ∧ invariants.checkValidStateTransitions (snapshot now r) = None
   ∧ invariants.checkNoCyclicDependencies (snapshot now r) = None)
  ∧ (invariants.CheckAllInvariants (snapshot now r) = None ↔
     ∀ taskID task, tasks r !! taskID = Some task →
                    CreatedAt task ≤ UpdatedAt task ∧ CreatedBy task ≠ "").
Proof.
  intros Hr.
  pose proof (reachable_checks chk r now Hr)
    as (Horphan & Hown & Hids & Hdup & Hst & Hcyc).
  split; [done|].
  unfold invariants.CheckAllInvariants. rewrite !orElse_None.
  rewrite Horphan, Hown, Hids, Hdup, Hst, Hcyc.
  unfold invariants.checkConsistentTimestamps, invariants.checkAuthenticationRequired.
  rewrite !forTasks_None. cbn [Tasks snapshot]. split.
  - intros (_ & _ & _ & _ & _ & Hts & _ & Hcr & _) taskID task Hl.
    specialize (Hts _ _ Hl). specialize (Hcr _ _ Hl).
    apply if_Some_None, bool_decide_eq_false in Hts.
    apply if_Some_None, bool_decide_eq_false in Hcr. split; [lia | done].
  - intros Hall. repeat split; try done.
    + intros taskID task Hl. destruct (Hall _ _ Hl) as [Hts _].
      apply if_Some_None, bool_decide_eq_false. lia.
    + intros taskID task Hl. destruct (Hall _ _ Hl) as [_ Hcr].
      by apply if_Some_None, bool_decide_eq_false.
Qed.

Lemma reachable_passes_structural_checks_witness :
  invariants.checkNoCyclicDependencies
    (snapshot 12
       (serve NewInvariantChecker
          (ReqCreateTask "Task A" "first" PriorityLow "alice" None [TagBug] []) 11
          (serve NewInvariantChecker (ReqAuthenticate "alice" "token-1") 10
             (set_users (NewMemoryRepository 0) {["alice" := alice]})))) = None.
Proof.
  refine (proj2 (proj2 (proj2 (proj2 (proj2 (proj1
            (reachable_passes_structural_checks NewInvariantChecker _ 12 _))))))).
  do 2 apply reachable_serve. apply reachable_new.
Defined.

(** X19.  On a reachable store [CreateTask] never fails with "cyclic
    dependency detected": the new identifier is larger than every stored
    one and dependencies must name stored tasks, so the search from the new
    task finds no back edge; the branch is dead in every run of the
    service. *)
Theorem CreateTask_never_reports_cycle (chk : InvariantChecker)
    (title description : string) (priority : Priority) (assignee : UserID)
    (dueDate : option Time) (tags : list Tag) (dependencies : list TaskID)
    (now : Time) (r : MemoryRepository) :
  reachable chk r →
  (CreateTask chk title description priority assignee dueDate tags dependencies
     now r).1 ≠ Fail (Errorf "cyclic dependency detected").
Proof.
  intros Hr.
  destruct (reachable_is_consistent chk r Hr) as (_ & _ & _ & Hbelow).
  pose proof (reachable_deps_decreasing chk r Hr) as Hdd.
  unfold CreateTask. run.
  destruct (currentUser r) as [u|]; run; [|done].
  destruct (bool_decide (MaxTasks < nextTaskID r)); run; [done|].
  destruct (validateDependencies dependencies (tasks r) ∅) as [depMap|e] eqn:Hval; run.
  - rewrite (checkCyclicDependencies_decreasing r dependencies depMap) by done. run.
    destruct (Validate _); run; [done|].
    destruct (memory.CreateTask _ r) as [[t|e] r1]; run; [|done].
    by destruct (CheckAllInvariants chk _).
  - clear -Hval. revert Hval. generalize (∅ : gset TaskID).
    induction dependencies as [|d ds IH]; intros acc; simpl; [done|].
    destruct (tasks r !! d); [|by intros [= <-]].
    case_bool_decide; [by intros [= <-]|]. apply IH.
Qed.

Lemma CreateTask_never_reports_cycle_witness :
  (CreateTask NewInvariantChecker "Task B" "second" PriorityHigh "alice" None [] [1] 20
     (serve NewInvariantChecker
        (ReqCreateTask "Task A" "first" PriorityLow "alice" None [TagBug] []) 11
        (serve NewInvariantChecker (ReqAuthenticate "alice" "token-1") 10
           (set_users (NewMemoryRepository 0) {["alice" := alice]})))).1
  ≠ Fail (Errorf "cyclic dependency detected").
Proof.
  apply CreateTask_never_reports_cycle.
  do 2 apply reachable_serve. apply reachable_new.
Defined.

(** ** The repository and its index *)

(** X20.  The task repository keeps its index by itself: on a store whose
    tasks are keyed by their identifier and whose index lists for each
    user exactly the tasks assigned to that user, [CreateTask],
    [UpdateTask] and [DeleteTask] of the repository leave a store with the
    same two properties, whether they succeed or fail and whatever task
    they are given; [UpdateTask] moves the entry when the assignee
    changes. *)
Theorem repository_keeps_index (r : MemoryRepository) :
  well_keyed r → index_exact r →
  (∀ task, well_keyed (memory.CreateTask task r).2
           ∧ index_exact (memory.CreateTask task r).2)
  ∧ (∀ task, well_keyed (UpdateTask task r).2 ∧ index_exact (UpdateTask task r).2)
  ∧ (∀ taskID, well_keyed (memory.DeleteTask taskID r).2
               ∧ index_exact (memory.DeleteTask taskID r).2).
Proof.
  intros Hwk Hix. split; [|split].
  - assert (∀ (task : Task) (r0 : MemoryRepository),
              tasks r0 = tasks r → userTasks r0 = userTasks r →
              tasks r !! ID task = None →
              let r' := set_userTasks
                          (set_tasks r0 (<[ID task := task]> (tasks r0)))
                          (<[Assignee task
                             := {[ID task]} ∪ default ∅ (userTasks r0 !! Assignee task)]>
                             (userTasks r0)) in
              well_keyed r' ∧ index_exact r') as Hadd.
    { intros task r0 Ht Hu Hfree r'. split.
      - intros k t. unfold r'. simpl. rewrite Ht.
        destruct (decide (k = ID task)) as [->|Hne].
        + rewrite lookup_insert_eq. by intros [= <-].
        + rewrite lookup_insert_ne by done. apply Hwk.
      - intros u x.
        rewrite (owns_added r' r (Assignee task) u (ID task) x)
          by (unfold r'; simpl; by rewrite Hu).
        unfold r'. simpl. rewrite Ht, (Hix u x).
        destruct (decide (x = ID task)) as [->|Hne].
        + rewrite lookup_insert_eq, Hfree. split.
          * intros [[-> _] | (t & Hl & _)]; [by exists task | done].
          * intros (t & [= <-] & <-). by left.
        + rewrite lookup_insert_ne by done. split.
          * intros [[_ Hx] | Hex]; done.
          * intros Hex. by right. }
    intros task. unfold memory.CreateTask.
    case_bool_decide as Hz.
    + cbn [ID set_ID tasks set_nextTaskID].
      destruct (tasks r !! nextTaskID r) eqn:Hl.
      * simpl. split; [exact Hwk | exact Hix].
      * apply (Hadd (set_ID task (nextTaskID r))
                    (set_nextTaskID r (nextTaskID r + 1))); done.
    + destruct (tasks r !! ID task) eqn:Hl.
      * simpl. by split.
      * by apply (Hadd task r).
  - intros task.
    destruct (tasks r !! ID task) as [existing|] eqn:Hl;
      [|unfold UpdateTask; rewrite Hl; by split].
    destruct (UpdateTask_owns r task existing Hl)
      as (r' & Hrun & Ht & _ & _ & _ & Ho).
    rewrite Hrun. cbn [snd]. split.
    + intros k t. rewrite Ht. destruct (decide (k = ID task)) as [->|Hne].
      * rewrite lookup_insert_eq. by intros [= <-].
      * rewrite lookup_insert_ne by done. apply Hwk.
    + intros u x. rewrite Ho, Ht, (Hix u x).
      destruct (decide (x = ID task)) as [->|Hne].
      * rewrite lookup_insert_eq, Hl. split.
        -- intros [(-> & _ & _) | [(t & [= <-] & <-) Hnot]]; [by exists task|].
           exists task. split; [done|].
           destruct (decide (Assignee existing = Assignee task)) as [Heq|Hneq];
             [done|].
           exfalso. by apply Hnot.
        -- intros (t & [= <-] & <-).
           destruct (decide (Assignee existing = Assignee task)) as [Heq|Hneq].
           ++ right. split; [by exists existing|]. intros (_ & _ & Hn). done.
           ++ by left.
      * rewrite lookup_insert_ne by done. split.
        -- intros [(_ & Hx & _) | [Hex _]]; done.
        -- intros Hex. right. split; [done|]. by intros (_ & Hx & _).
  - intros taskID. unfold memory.DeleteTask.
    destruct (tasks r !! taskID) as [task|] eqn:Hl; [|by split].
    split.
    + intros k t. simpl. intros [_ Hk]%lookup_delete_Some. by apply Hwk.
    + intros u x.
      rewrite (owns_removed _ r (Assignee task) u taskID x) by done.
      simpl. rewrite (Hix u x). split.
      * intros [(t & Hk & Ha) Hnot]. exists t. split; [|done].
        apply lookup_delete_Some. split; [|done]. intros <-. apply Hnot.
        split; [|done]. congruence.
      * intros (t & [Hne Hk]%lookup_delete_Some & Ha). split; [by exists t|].
        intros [_ ->]. done.
Qed.


Lemma repository_keeps_index_witness :
  index_exact (UpdateTask (set_Assignee taskA "bob") store1).2.
Proof.
  destruct store1_consistent as (Hwk & Hix & _).
  destruct (repository_keeps_index store1 Hwk Hix) as (_ & Hupd & _).
  exact (proj2 (Hupd (set_Assignee taskA "bob"))).
Defined.

Lemma NoDup_omap_lookup (r : MemoryRepository) (l : list TaskID) :
  well_keyed r → NoDup l → NoDup (omap (λ taskID, tasks r !! taskID) l).
Proof.
  intros Hwk. induction 1 as [|x l Hx Hnd IH]; simpl; [constructor|].
  destruct (tasks r !! x) as [t|] eqn:Hl; [|done].
  constructor; [|done].
  intros (y & Hy & Hly)%list_elem_of_omap.
  apply Hwk in Hl. apply Hwk in Hly. congruence.
Qed.

(** X21.  On a store with keyed tasks and exact index, [GetTasksByUser]
    answers from the index what a scan of all tasks would find: it never
    fails, leaves the store as it is, and returns, each once, exactly the
    stored tasks whose assignee is the user. *)
Theorem GetTasksByUser_assigned (r : MemoryRepository) (userID : UserID) :
  well_keyed r → index_exact r →
  ∃ found, GetTasksByUser userID r = (Ok found, r)
           ∧ NoDup found
           ∧ ∀ task, task ∈ found ↔
                     tasks r !! ID task = Some task ∧ Assignee task = userID.
Proof.
  intros Hwk Hix. unfold GetTasksByUser. eexists. split; [done|].
  destruct (userTasks r !! userID) as [ids|] eqn:Hu.
  - split; [apply NoDup_omap_lookup; [done | apply NoDup_elements]|].
    intros task. rewrite list_elem_of_omap. split.
    + intros (taskID & Hin & Hl). apply elem_of_elements in Hin.
      pose proof (Hwk _ _ Hl) as Hid. rewrite Hid. split; [done|].
      destruct (proj1 (Hix userID taskID)) as (t & Hl' & Ha); [by exists ids|].
      congruence.
    + intros [Hl Ha]. exists (ID task). split; [|done].
      apply elem_of_elements.
      destruct (proj2 (Hix userID (ID task))) as (ids' & Hu' & Hin); [by exists task|].
      congruence.
  - split; [constructor|]. intros task. split; [by intros ?%elem_of_nil|].
    intros [Hl Ha].
    destruct (proj2 (Hix userID (ID task))) as (ids' & Hu' & _); [by exists task|].
    congruence.
Qed.

Lemma GetTasksByUser_assigned_witness :
  ∃ found, GetTasksByUser "alice" store1 = (Ok found, store1)
           ∧ NoDup found
           ∧ ∀ task, task ∈ found ↔
                     tasks store1 !! ID task = Some task ∧ Assignee task = "alice".
Proof.
  destruct store1_consistent as (Hwk & Hix & _).
  exact (GetTasksByUser_assigned store1 "alice" Hwk Hix).
Defined.

(** ** Saving and restoring the system state *)

(** X22.  Restoring the snapshot of a store gives back its tasks, its
    index (as a relation between users and identifiers), its counter,
    current user and clock; the users of the target are kept.  Sessions
    are not round-tripped: every restored session is a session of the
    original store that was valid when the snapshot was taken and sits
    under its own token; expired and closed sessions are gone.  The
    restored store is consistent exactly when the original is. *)
Theorem SaveSystemState_restores_snapshot (r target : MemoryRepository) (now : Time) :
  ∃ r', SaveSystemState (snapshot now r) target = (Ok tt, r')
        ∧ tasks r' = tasks r
        ∧ nextTaskID r' = nextTaskID r
        ∧ currentUser r' = currentUser r
        ∧ clock r' = clock r
        ∧ users r' = users target
        ∧ (∀ u taskID, owns r' u taskID ↔ owns r u taskID)
        ∧ (∀ token session, sessions r' !! token = Some session →
             Token session = token ∧ IsValid session now = true
             ∧ ∃ token0, sessions r !! token0 = Some session)
        ∧ (consistent r' ↔ consistent r).
Proof.
  eexists. split; [done|]. cbn [tasks nextTaskID currentUser clock users sessions].
  repeat (split; [done|]).
  assert (∀ u taskID,
            owns (SaveSystemState (snapshot now r) target).2 u taskID
            ↔ owns r u taskID) as Ho.
  { intros u taskID. rewrite <- (snapshot_GetUserTasks now r u taskID).
    unfold owns, domain.GetUserTasks, SaveSystemState. cbn [snd userTasks].
    rewrite lookup_fmap.
    destruct (UserTasks (snapshot now r) !! u) as [l|]; simpl.
    - split.
      + intros (ids & [= <-] & Hin). by apply elem_of_list_to_set in Hin.
      + intros Hin. eexists. split; [done|]. by apply elem_of_list_to_set.
    - split; [by intros (ids & [=] & _) | by intros ?%elem_of_nil]. }
  split; [exact Ho|]. split.
  - intros token session Hl.
    apply elem_of_list_to_map_2, list_elem_of_fmap in Hl as (s & [= -> ->] & Hs).
    split; [done|].
    apply list_elem_of_fmap in Hs as ([u s'] & -> & Hs). simpl.
    apply elem_of_map_to_list in Hs. cbn [Sessions snapshot] in Hs.
    apply elem_of_list_to_map_2, list_elem_of_fmap in Hs as (s0 & [= -> ->] & Hs).
    apply list_elem_of_filter in Hs as [Hv Hs]. split; [done|].
    apply list_elem_of_fmap in Hs as ([token0 s1] & -> & Hs). simpl.
    exists token0. by apply elem_of_map_to_list.
  - unfold consistent, well_keyed, index_exact, deps_closed, ids_below_counter.
    setoid_rewrite Ho. done.
Qed.

(** ** The sweep and [IsBlocked] *)

Lemma sweep_incompleteDep (r r' : MemoryRepository) (now : Time) (depID : TaskID) :
  (∀ taskID task, tasks r !! taskID = Some task →
     tasks r' !! taskID
     = Some (if ShouldUnblock task (tasks r) then unblocked now task else task)) →
  incompleteDep (tasks r) depID = true → incompleteDep (tasks r') depID = true.
Proof.
  intros Hsome. unfold incompleteDep.
  destruct (tasks r !! depID) as [dep|] eqn:Hd; [|done].
  rewrite (Hsome depID dep Hd).
  destruct (ShouldUnblock dep (tasks r)); [|done].
  intros _. cbn [unblocked Status set_UpdatedAt set_Status].
  by rewrite bool_decide_eq_false_2.
Qed.

(** X23.  After a sweep the status [blocked] is justified: on a store whose
    tasks are keyed by their identifier (every reachable store is),
    [CheckDependencies] reports no error and leaves a store in which every
    task with status [blocked] satisfies [IsBlocked], that is, has a stored
    dependency that is not completed. *)
Theorem CheckDependencies_justifies_blocks (r : MemoryRepository) (now : Time) :
  well_keyed r →
  (CheckDependencies now r).1.2 = None
  ∧ ∀ taskID task,
      tasks (CheckDependencies now r).2 !! taskID = Some task →
      Status task = StatusBlocked →
      IsBlocked task (tasks (CheckDependencies now r).2) = true.
Proof.
  intros Hwk.
  destruct (CheckDependencies_run r now Hwk) as (r' & -> & _ & Hsome & Hnone).
  split; [done|]. cbn [snd]. intros taskID task Hl Hs.
  destruct (tasks r !! taskID) as [t|] eqn:Hk; [|by rewrite (Hnone _ Hk) in Hl].
  rewrite (Hsome _ _ Hk) in Hl. injection Hl as <-.
  destruct (ShouldUnblock t (tasks r)) eqn:Hsu; [done|].
  unfold ShouldUnblock in Hsu. rewrite (bool_decide_eq_true_2 _ Hs) in Hsu.
  simpl in Hsu. apply negb_false_iff in Hsu.
  apply existsb_exists in Hsu as (d & Hd & Hinc).
  unfold IsBlocked. rewrite bool_decide_eq_false_2.
  - apply existsb_exists. exists d. split; [done|].
    by apply (sweep_incompleteDep r r' now).
  - intros Hz. apply size_empty_iff in Hz.
    apply list_elem_of_In, elem_of_elements in Hd. by apply Hz in Hd.
Qed.

Lemma store2_well_keyed : well_keyed store2.
Proof. apply well_keyedb_correct. vm_compute. reflexivity. Qed.

Lemma CheckDependencies_justifies_blocks_witness :
  (CheckDependencies 30 store2).1.2 = None
  ∧ ∀ taskID task,
      tasks (CheckDependencies 30 store2).2 !! taskID = Some task →
      Status task = StatusBlocked →
      IsBlocked task (tasks (CheckDependencies 30 store2).2) = true.
Proof.
  exact (CheckDependencies_justifies_blocks store2 30 store2_well_keyed).
Defined.
